(** * BGP connection handling (bgpd/bgp_connection.c)

    A shallow embedding of the connection object of the BGP engine: the
    connection and session records, the write staging buffer, the connection
    queue, the read framer and the promotion of a connection to primary,
    together with the properties the specification states about them.

    Pointers into the engine's heap are references into finite maps, with
    [None] for NULL.  Addresses inside the write buffer are integers (NULL is
    0), so that the pointer arithmetic of the source is written as it stands.
    C [int]s are integers; where the source converts between widths the
    wrap-around is written out. *)

From Stdlib Require Import ZArith Lia Bool List.
From Stdlib Require Import Strings.String Strings.Byte.
From stdpp Require Import base option list gmap strings.

Open Scope Z_scope.

(** ** Results of running a piece of C *)

Inductive fault : Type :=
  | AssertFailed      (* an assert() of the source does not hold: abort() *)
  | BadPointer        (* NULL or dangling pointer dereferenced *)
  | OutOfBounds       (* access outside an allocated block or array *)
  | Overlap           (* memcpy() of objects that overlap: undefined in C *)
  | OutOfFuel.        (* the loop was cut off by the model, not by the code *)

Inductive result (A : Type) : Type :=
  | Ok (a : A)
  | Fault (f : fault).
Arguments Ok {A} a.
Arguments Fault {A} f.

#[global] Instance result_ret : MRet result := fun A a => Ok a.

#[global] Instance result_bind : MBind result := fun A B k m =>
  match m with
  | Ok a => k a
  | Fault f => Fault f
  end.

Definition deref {A} (o : option A) : result A :=
  match o with
  | Some a => Ok a
  | None => Fault BadPointer
  end.

Definition index {A} (o : option A) : result A :=
  match o with
  | Some a => Ok a
  | None => Fault OutOfBounds
  end.

Definition c_assert (b : bool) : result unit :=
  if b then Ok tt else Fault AssertFailed.

(** ** Machine integers *)

(** Conversion of an integer value to C's 32 bit [int]. *)
Definition to_int (z : Z) : Z := (z + 2^31) mod 2^32 - 2^31.

(** Conversion of an integer value to [size_t] (64 bit). *)
Definition to_size_t (z : Z) : Z := z mod 2^64.

(** ** Constants of the headers *)

(** Modelled from the spec: bgp.h and bgp_connection.h, which declare the
    message size limits and the connection ordinals, are not available; the
    values are those the specification gives. *)
Definition BGP_MAX_MSG_L : Z := 4096.
Definition BGP_MH_HEAD_L : Z := 19.
Definition bgp_connection_primary : Z := 0.
Definition bgp_connection_secondary : Z := 1.

(** [enum { bgp_wbuff_size = BGP_MAX_MSG_L * 10 }] *)
Definition bgp_wbuff_size : Z := BGP_MAX_MSG_L * 10.

(** errno values (Linux): EAGAIN and EWOULDBLOCK are the same number. *)
Definition EINTR : Z := 4.
Definition EAGAIN : Z := 11.
Definition EWOULDBLOCK : Z := 11.
Definition EFAULT : Z := 14.

(** The largest count [write()] is defined for; [ssize_t] has 64 bits. *)
Definition SSIZE_MAX : Z := 2^63 - 1.

Definition fd_undef : Z := -1.

(** ** Data model *)

Definition conn_ref : Type := nat.
Definition sess_ref : Type := nat.

Inductive bgp_fsm_state : Type :=
  | bgp_fsm_Initial
  | bgp_fsm_Idle
  | bgp_fsm_Connect
  | bgp_fsm_Active
  | bgp_fsm_OpenSent
  | bgp_fsm_OpenConfirm
  | bgp_fsm_Established
  | bgp_fsm_Stopping.

Inductive bgp_fsm_event : Type :=
  | bgp_fsm_null_event
  | bgp_fsm_Sent_NOTIFICATION_message
  | bgp_fsm_other_event (n : Z).

Definition fsm_state_eqb (a b : bgp_fsm_state) : bool :=
  match a, b with
  | bgp_fsm_Initial, bgp_fsm_Initial
  | bgp_fsm_Idle, bgp_fsm_Idle
  | bgp_fsm_Connect, bgp_fsm_Connect
  | bgp_fsm_Active, bgp_fsm_Active
  | bgp_fsm_OpenSent, bgp_fsm_OpenSent
  | bgp_fsm_OpenConfirm, bgp_fsm_OpenConfirm
  | bgp_fsm_Established, bgp_fsm_Established
  | bgp_fsm_Stopping, bgp_fsm_Stopping => true
  | _, _ => false
  end.

(** The selector's file: the fd, whether it is in a selection, and the
    modes enabled. *)
Record qps_file : Type := mk_qps_file {
  qf_fd : Z;
  qf_selected : bool;
  qf_read_enabled : bool;
  qf_write_enabled : bool;
}.

(** A timer: initialised once, then only set and unset. *)
Record qtimer : Type := mk_qtimer {
  qt_initialised : bool;
  qt_set : option Z;
}.

(** A stream buffer: its allocated size and the bytes between getp and endp. *)
Record stream : Type := mk_stream {
  s_size : Z;
  s_bytes : list byte;
}.

(** The local message queue: the queue structure and the blocks queued. *)
Record mqueue_local_queue : Type := mk_mqueue {
  mq_storage : bool;
  mq_blocks : list Z;
}.

(** [struct bgp_wbuffer]: the flag and the four pointers, and with them the
    contents of the block [base, limit) they point into. *)
Record bgp_wbuffer : Type := mk_wbuffer {
  full : bool;
  base : Z;
  limit : Z;
  p_in : Z;
  p_out : Z;
  wb_mem : list byte;
}.

Record bgp_connection : Type := mk_connection {
  session : option sess_ref;
  ordinal : Z;
  accepted : bool;
  state : bgp_fsm_state;
  next : option conn_ref;
  prev : option conn_ref;
  post : bgp_fsm_event;
  fsm_active : bool;
  stopped : Z;
  notification : option Z;
  err : Z;
  open_recv : option Z;
  su_local : option Z;
  su_remote : option Z;
  hold_timer_interval : Z;
  keepalive_timer_interval : Z;
  qf : qps_file;
  hold_timer : qtimer;
  keepalive_timer : qtimer;
  host : string;
  log : Z;
  ibuf : stream;
  obuf : stream;
  read_pending : Z;
  read_header : bool;
  notification_pending : bool;
  wbuff : bgp_wbuffer;
  pending_queue : mqueue_local_queue;
}.

Record bgp_session : Type := mk_session {
  ses_connections : list (option conn_ref);
  ses_host : string;
  ses_hold_timer_interval : Z;
  ses_keepalive_timer_interval : Z;
  ses_su_local : option Z;
  ses_su_remote : option Z;
  ses_open_recv : option Z;
  ses_accept : bool;
  ses_log : Z;
}.

(** *** Assignment to one field of a record

    [x->f = v] is [with_f v x].  The setters are built from the
    eta-expansion of the record by abstracting the one field. *)

Ltac field_setter eta proj v r :=
  let body := eval hnf in (eta r) in
  match eval pattern (proj r) in body with
  | ?g _ => let res := eval cbv beta in (g v) in exact res
  end.

Definition eta_wbuffer (w : bgp_wbuffer) : bgp_wbuffer :=
  mk_wbuffer (full w) (base w) (limit w) (p_in w) (p_out w) (wb_mem w).

Definition eta_session (s : bgp_session) : bgp_session :=
  mk_session (ses_connections s) (ses_host s) (ses_hold_timer_interval s)
    (ses_keepalive_timer_interval s) (ses_su_local s) (ses_su_remote s)
    (ses_open_recv s) (ses_accept s) (ses_log s).

Definition eta_connection (c : bgp_connection) : bgp_connection :=
  mk_connection (session c) (ordinal c) (accepted c) (state c) (next c)
    (prev c) (post c) (fsm_active c) (stopped c) (notification c) (err c)
    (open_recv c) (su_local c) (su_remote c) (hold_timer_interval c)
    (keepalive_timer_interval c) (qf c) (hold_timer c) (keepalive_timer c)
    (host c) (log c) (ibuf c) (obuf c) (read_pending c) (read_header c)
    (notification_pending c) (wbuff c) (pending_queue c).

Definition with_full (v : bool) (w : bgp_wbuffer) : bgp_wbuffer.
Proof. field_setter eta_wbuffer full v w. Defined.
Definition with_base (v : Z) (w : bgp_wbuffer) : bgp_wbuffer.
Proof. field_setter eta_wbuffer base v w. Defined.
Definition with_limit (v : Z) (w : bgp_wbuffer) : bgp_wbuffer.
Proof. field_setter eta_wbuffer limit v w. Defined.
Definition with_p_in (v : Z) (w : bgp_wbuffer) : bgp_wbuffer.
Proof. field_setter eta_wbuffer p_in v w. Defined.
Definition with_p_out (v : Z) (w : bgp_wbuffer) : bgp_wbuffer.
Proof. field_setter eta_wbuffer p_out v w. Defined.
Definition with_wb_mem (v : list byte) (w : bgp_wbuffer) : bgp_wbuffer.
Proof. field_setter eta_wbuffer wb_mem v w. Defined.

Definition with_ses_connections (v : list (option conn_ref)) (s : bgp_session)
  : bgp_session.
Proof. field_setter eta_session ses_connections v s. Defined.
Definition with_ses_hold_timer_interval (v : Z) (s : bgp_session) : bgp_session.
Proof. field_setter eta_session ses_hold_timer_interval v s. Defined.
Definition with_ses_keepalive_timer_interval (v : Z) (s : bgp_session)
  : bgp_session.
Proof. field_setter eta_session ses_keepalive_timer_interval v s. Defined.
Definition with_ses_su_local (v : option Z) (s : bgp_session) : bgp_session.
Proof. field_setter eta_session ses_su_local v s. Defined.
Definition with_ses_su_remote (v : option Z) (s : bgp_session) : bgp_session.
Proof. field_setter eta_session ses_su_remote v s. Defined.
Definition with_ses_open_recv (v : option Z) (s : bgp_session) : bgp_session.
Proof. field_setter eta_session ses_open_recv v s. Defined.

Definition with_ordinal (v : Z) (c : bgp_connection) : bgp_connection.
Proof. field_setter eta_connection ordinal v c. Defined.
Definition with_state (v : bgp_fsm_state) (c : bgp_connection) : bgp_connection.
Proof. field_setter eta_connection state v c. Defined.
Definition with_hold_timer_interval (v : Z) (c : bgp_connection)
  : bgp_connection.
Proof. field_setter eta_connection hold_timer_interval v c. Defined.
Definition with_keepalive_timer_interval (v : Z) (c : bgp_connection)
  : bgp_connection.
Proof. field_setter eta_connection keepalive_timer_interval v c. Defined.
Definition with_next (v : option conn_ref) (c : bgp_connection) : bgp_connection.
Proof. field_setter eta_connection next v c. Defined.
Definition with_prev (v : option conn_ref) (c : bgp_connection) : bgp_connection.
Proof. field_setter eta_connection prev v c. Defined.
Definition with_open_recv (v : option Z) (c : bgp_connection) : bgp_connection.
Proof. field_setter eta_connection open_recv v c. Defined.
Definition with_su_local (v : option Z) (c : bgp_connection) : bgp_connection.
Proof. field_setter eta_connection su_local v c. Defined.
Definition with_su_remote (v : option Z) (c : bgp_connection) : bgp_connection.
Proof. field_setter eta_connection su_remote v c. Defined.
Definition with_qf (v : qps_file) (c : bgp_connection) : bgp_connection.
Proof. field_setter eta_connection qf v c. Defined.
Definition with_hold_timer (v : qtimer) (c : bgp_connection) : bgp_connection.
Proof. field_setter eta_connection hold_timer v c. Defined.
Definition with_keepalive_timer (v : qtimer) (c : bgp_connection)
  : bgp_connection.
Proof. field_setter eta_connection keepalive_timer v c. Defined.
Definition with_host (v : string) (c : bgp_connection) : bgp_connection.
Proof. field_setter eta_connection host v c. Defined.
Definition with_ibuf (v : stream) (c : bgp_connection) : bgp_connection.
Proof. field_setter eta_connection ibuf v c. Defined.
Definition with_obuf (v : stream) (c : bgp_connection) : bgp_connection.
Proof. field_setter eta_connection obuf v c. Defined.
Definition with_read_pending (v : Z) (c : bgp_connection) : bgp_connection.
Proof. field_setter eta_connection read_pending v c. Defined.
Definition with_read_header (v : bool) (c : bgp_connection) : bgp_connection.
Proof. field_setter eta_connection read_header v c. Defined.
Definition with_notification_pending (v : bool) (c : bgp_connection)
  : bgp_connection.
Proof. field_setter eta_connection notification_pending v c. Defined.
Definition with_wbuff (v : bgp_wbuffer) (c : bgp_connection) : bgp_connection.
Proof. field_setter eta_connection wbuff v c. Defined.
Definition with_pending_queue (v : mqueue_local_queue) (c : bgp_connection)
  : bgp_connection.
Proof. field_setter eta_connection pending_queue v c. Defined.

(** ** What the engine does to the world *)

Inductive shutdown_how : Type := SHUT_RD | SHUT_RDWR.

Inductive effect : Type :=
  | Sys_shutdown (fd : Z) (how : shutdown_how)
  | Sys_write (fd : Z) (count : Z) (sent : list byte)
  | Fsm_io_error (errno : Z)
  | Fsm_event (ev : bgp_fsm_event)
  | Fsm_header_error
  | Msg_dispatch (msg : list byte).

(** ** Services the connection consumes

    Modelled from the spec: the selector, the timers, the streams, the
    socket unions and the local message queue live in lib/, outside
    bgp_connection.c.  Each is what the specification says the connection
    relies on. *)

(** Modelled from the spec: [qps_remove_file] takes the file out of its
    selection, and with that no mode is enabled any more. *)
Definition qps_remove_file (q : qps_file) : qps_file :=
  mk_qps_file (qf_fd q) false false false.

(** Modelled from the spec: [qps_file_unset_fd] returns the fd and leaves
    the file with no fd. *)
Definition qps_file_unset_fd (q : qps_file) : Z * qps_file :=
  (qf_fd q,
   mk_qps_file fd_undef (qf_selected q) (qf_read_enabled q) (qf_write_enabled q)).

Definition qps_file_fd (q : qps_file) : Z := qf_fd q.

(** Modelled from the spec: [qps_disable_modes] for the read and for the
    write mode bit, [qps_enable_mode] for the write mode. *)
Definition qps_disable_read (q : qps_file) : qps_file :=
  mk_qps_file (qf_fd q) (qf_selected q) false (qf_write_enabled q).

Definition qps_disable_write (q : qps_file) : qps_file :=
  mk_qps_file (qf_fd q) (qf_selected q) (qf_read_enabled q) false.

Definition qps_enable_write (q : qps_file) : qps_file :=
  mk_qps_file (qf_fd q) (qf_selected q) (qf_read_enabled q) true.

(** Modelled from the spec: [qtimer_unset] unarms, the timer stays
    initialised. *)
Definition qtimer_unset (t : qtimer) : qtimer :=
  mk_qtimer (qt_initialised t) None.

(** Modelled from the spec: [stream_reset] empties the stream and keeps its
    allocation. *)
Definition stream_reset (s : stream) : stream := mk_stream (s_size s) [].

(** Modelled from the spec: [sockunion_clear] frees the address, if any, and
    sets the pointer NULL. *)
Definition sockunion_clear (su : option Z) : option Z := None.

(** Modelled from the spec: [mqueue_local_reset_keep] destroys the queued
    blocks and keeps the queue structure. *)
Definition mqueue_local_reset_keep (q : mqueue_local_queue) : mqueue_local_queue :=
  mk_mqueue (mq_storage q) [].

(** ** The write buffer *)

(** Full if not enough room for a maximum size BGP message. *)
Definition bgp_write_buffer_full (wb : bgp_wbuffer) : bool :=
  limit wb - p_in wb <? BGP_MAX_MSG_L.

(** Empty if in and out pointers are equal. *)
Definition bgp_write_buffer_empty (wb : bgp_wbuffer) : bool :=
  p_out wb =? p_in wb.

(** ** Closing a connection *)

Definition bgp_connection_close (c : bgp_connection)
  : list effect * bgp_connection :=
  (* close the qfile and any associate file descriptor *)
  let c := with_qf (qps_remove_file (qf c)) c in
  let '(fd, q) := qps_file_unset_fd (qf c) in
  let c := with_qf q c in
  let evs := if negb (fd =? fd_undef) then [Sys_shutdown fd SHUT_RDWR] else [] in
  (* forget any addresses *)
  let c := with_su_local (sockunion_clear (su_local c)) c in
  let c := with_su_remote (sockunion_clear (su_remote c)) c in
  (* unset all the timers *)
  let c := with_hold_timer (qtimer_unset (hold_timer c)) c in
  let c := with_keepalive_timer (qtimer_unset (keepalive_timer c)) c in
  (* reset all buffering empty *)
  let c := with_ibuf (stream_reset (ibuf c)) c in
  let c := with_obuf (stream_reset (obuf c)) c in
  let c := with_read_pending 0 c in
  let c := with_read_header false c in
  let c := with_notification_pending false c in
  let c := with_wbuff (with_p_in (base (wbuff c)) (wbuff c)) c in
  let c := with_wbuff (with_p_out (base (wbuff c)) (wbuff c)) c in
  let c := with_wbuff (with_full false (wbuff c)) c in
  (* empty out the pending queue *)
  let c := with_pending_queue (mqueue_local_reset_keep (pending_queue c)) c in
  (evs, c).

(** ** The engine: the heap of connections and sessions and the queue *)

Record bgp_engine : Type := mk_engine {
  conns : gmap conn_ref bgp_connection;
  sessions : gmap sess_ref bgp_session;
  bgp_connection_queue : option conn_ref;
  events : list effect;
}.

Definition with_conns (v : gmap conn_ref bgp_connection) (e : bgp_engine)
  : bgp_engine :=
  mk_engine v (sessions e) (bgp_connection_queue e) (events e).

Definition with_sessions (v : gmap sess_ref bgp_session) (e : bgp_engine)
  : bgp_engine :=
  mk_engine (conns e) v (bgp_connection_queue e) (events e).

Definition with_queue (v : option conn_ref) (e : bgp_engine) : bgp_engine :=
  mk_engine (conns e) (sessions e) v (events e).

Definition emit (evs : list effect) (e : bgp_engine) : bgp_engine :=
  mk_engine (conns e) (sessions e) (bgp_connection_queue e) (events e ++ evs).

(** Reading and writing through a pointer to a connection or a session. *)
Definition load (p : option conn_ref) (e : bgp_engine) : result bgp_connection :=
  r ← deref p; deref (conns e !! r).

Definition store (p : option conn_ref) (c : bgp_connection) (e : bgp_engine)
  : result bgp_engine :=
  r ← deref p; _ ← deref (conns e !! r); Ok (with_conns (<[r := c]> (conns e)) e).

Definition load_session (p : option sess_ref) (e : bgp_engine)
  : result bgp_session :=
  r ← deref p; deref (sessions e !! r).

Definition store_session (p : option sess_ref) (s : bgp_session) (e : bgp_engine)
  : result bgp_engine :=
  r ← deref p; _ ← deref (sessions e !! r);
  Ok (with_sessions (<[r := s]> (sessions e)) e).

(** [p->f = v] on the heap. *)
Definition assign {V} (setter : V -> bgp_connection -> bgp_connection)
    (p : option conn_ref) (v : V) (e : bgp_engine) : result bgp_engine :=
  c ← load p e; store p (setter v c) e.

Definition assign_session {V} (setter : V -> bgp_session -> bgp_session)
    (p : option sess_ref) (v : V) (e : bgp_engine) : result bgp_engine :=
  s ← load_session p e; store_session p (setter v s) e.

(** [a[i]] and [a[i] = v] on the two element array of a session. *)
Definition array_get {A} (a : list A) (i : Z) : result A :=
  if (0 <=? i) && (i <? Z.of_nat (length a))
  then index (a !! Z.to_nat i) else Fault OutOfBounds.

Definition array_set {A} (a : list A) (i : Z) (v : A) : result (list A) :=
  if (0 <=? i) && (i <? Z.of_nat (length a))
  then Ok (<[Z.to_nat i := v]> a) else Fault OutOfBounds.

(** ** Sibling and promotion *)

(** Set the host field for the connection to session->host + given tag. *)
Definition bgp_connection_init_host (p : option conn_ref) (tag : string)
    (e : bgp_engine) : result bgp_engine :=
  c ← load p e;
  s ← load_session (session c) e;
  assign with_host p (ses_host s +:+ tag) e.

(** Get sibling (if any) for given connection. *)
Definition bgp_connection_get_sibling (p : option conn_ref) (e : bgp_engine)
  : result (option conn_ref) :=
  c ← load p e;
  match session c with
  | None => Ok None                  (* no sibling if no session *)
  | Some sr =>
      s ← load_session (Some sr) e;
      array_get (ses_connections s) (Z.lxor (ordinal c) 1)
  end.

(** Make given connection the primary. *)
Definition bgp_connection_make_primary (p : option conn_ref) (e : bgp_engine)
  : result bgp_engine :=
  c ← load p e;
  let session := session c in
  (* deal with the connection ordinal *)
  e ← (if negb (ordinal c =? bgp_connection_primary) then
         e ← assign with_ordinal p bgp_connection_primary e;
         s ← load_session session e;
         a ← array_set (ses_connections s) bgp_connection_primary p;
         store_session session (with_ses_connections a s) e
       else Ok e);
  s ← load_session session e;
  a ← array_set (ses_connections s) bgp_connection_secondary None;
  e ← store_session session (with_ses_connections a s) e;
  (* session->open_recv = connection->open_recv ; connection->open_recv = NULL *)
  c ← load p e;
  e ← assign_session with_ses_open_recv session (open_recv c) e;
  e ← assign with_open_recv p None e;
  (* XFREE(host) ; bgp_connection_init_host(connection, "") *)
  e ← bgp_connection_init_host p "" e;
  (* session->hold_timer_interval = connection->hold_timer_interval *)
  c ← load p e;
  e ← assign_session with_ses_hold_timer_interval session
        (hold_timer_interval c) e;
  (* session->keepalive_timer_interval = session->keepalive_timer_interval *)
  s ← load_session session e;
  e ← assign_session with_ses_keepalive_timer_interval session
        (ses_keepalive_timer_interval s) e;
  (* session->su_local = connection->su_local ; connection->su_local = NULL *)
  c ← load p e;
  e ← assign_session with_ses_su_local session (su_local c) e;
  e ← assign with_su_local p None e;
  c ← load p e;
  e ← assign_session with_ses_su_remote session (su_remote c) e;
  assign with_su_remote p None e.

(** ** Connection queue management *)

(** Add connection to connection queue -- if not already on it. *)
Definition bgp_connection_queue_add (p : option conn_ref) (e : bgp_engine)
  : result bgp_engine :=
  c ← load p e;
  match next c with
  | Some _ => Ok e
  | None =>
      match bgp_connection_queue e with
      | None =>
          (* adding to empty queue *)
          let e := with_queue p e in
          e ← assign with_next p p e;
          assign with_prev p p e
      | Some _ =>
          (* add behind the current entry *)
          e ← assign with_next p (bgp_connection_queue e) e;
          q ← load (bgp_connection_queue e) e;
          e ← assign with_prev p (prev q) e;
          c ← load p e;
          e ← assign with_prev (next c) p e;
          c ← load p e;
          assign with_next (prev c) p e
      end
  end.

Definition ref_eqb (a b : option conn_ref) : bool :=
  match a, b with
  | Some x, Some y => Nat.eqb x y
  | None, None => true
  | _, _ => false
  end.

(** Delete connection from connection queue -- if on it. *)
Definition bgp_connection_queue_del (p : option conn_ref) (e : bgp_engine)
  : result bgp_engine :=
  c ← load p e;
  match next c with
  | None => Ok e
  | Some _ =>
      e ← (if ref_eqb p (next c) then
             (* deleting the only item on the queue *)
             _ ← c_assert (ref_eqb p (prev c)
                           && ref_eqb p (bgp_connection_queue e));
             Ok (with_queue None e)
           else
             let e := if ref_eqb p (bgp_connection_queue e)
                      then with_queue (next c) e else e in
             e ← assign with_prev (next c) (prev c) e;
             c ← load p e;
             assign with_next (prev c) (next c) e);
      e ← assign with_next p None e;
      assign with_prev p None e
  end.

(** Modelled from the spec: [bgp_connection_reset] is not in this file; the
    specification has it free the socket and timer resources of the
    connection and remove it from the connection queue. *)
Definition bgp_connection_reset (p : option conn_ref) (e : bgp_engine)
  : result bgp_engine :=
  c ← load p e;
  let '(evs, c) := bgp_connection_close c in
  e ← store p c (emit evs e);
  bgp_connection_queue_del p e.

(** Process the connection queue until it becomes empty.  One unit of fuel
    is one turn of the [while] loop. *)
Fixpoint bgp_connection_queue_process (fuel : nat) (e : bgp_engine)
  : result bgp_engine :=
  match bgp_connection_queue e with
  | None => Ok e
  | Some _ =>
      match fuel with
      | O => Fault OutOfFuel
      | S fuel =>
          (* select the first in the queue, and step to the next *)
          let connection := bgp_connection_queue e in
          c ← load connection e;
          let e := with_queue (next c) e in
          (* reap the connection if it is now stopped *)
          e ← (if fsm_state_eqb (state c) bgp_fsm_Stopping
               then bgp_connection_reset connection e else Ok e);
          bgp_connection_queue_process fuel e
      end
  end.

(** ** Initialising a connection *)

(** The zeroised structure. *)
Definition zero_connection : bgp_connection :=
  mk_connection None 0 false bgp_fsm_Initial None None bgp_fsm_null_event
    false 0 None 0 None None None 0 0 (mk_qps_file 0 false false false)
    (mk_qtimer false None) (mk_qtimer false None) "" 0 (mk_stream 0 [])
    (mk_stream 0 []) 0 false false (mk_wbuffer false 0 0 0 0 [])
    (mk_mqueue false []).

(** Modelled from the spec: [stream_new], [qps_file_init_new],
    [qtimer_init_new] and [mqueue_local_init_new] of lib/. *)
Definition stream_new (size : Z) : stream := mk_stream size [].
Definition qps_file_init_new : qps_file := mk_qps_file fd_undef false false false.
Definition qtimer_init_new : qtimer := mk_qtimer true None.
Definition mqueue_local_init_new : mqueue_local_queue := mk_mqueue true [].

Definition bgp_connection_tags (ordinal : Z) : string :=
  if ordinal =? bgp_connection_primary then "(primary)" else "(secondary)".

(** Initialise connection structure -- allocate if required. *)
Definition bgp_connection_init_new (p : option conn_ref) (session : option sess_ref)
    (ordinal : Z) (e : bgp_engine) : result (option conn_ref * bgp_engine) :=
  _ ← c_assert ((ordinal =? bgp_connection_primary)
                || (ordinal =? bgp_connection_secondary));
  s ← load_session session e;
  slot ← array_get (ses_connections s) ordinal;
  _ ← c_assert (ref_eqb slot None);
  (* XCALLOC, or memset of the structure given *)
  '(p, e) ← match p with
            | None =>
                let r := fresh (dom (conns e)) in
                Ok (Some r, with_conns (<[r := zero_connection]> (conns e)) e)
            | Some _ => e ← store p zero_connection e; Ok (p, e)
            end;
  (* link back to session and point session here *)
  let c := zero_connection in
  let c := mk_connection session ordinal (ordinal =? bgp_connection_secondary)
             (state c) (next c) (prev c) (post c) (fsm_active c) (stopped c)
             (notification c) (err c) (open_recv c) (su_local c) (su_remote c)
             (hold_timer_interval c) (keepalive_timer_interval c)
             qps_file_init_new qtimer_init_new qtimer_init_new
             (host c) (ses_log s) (stream_new BGP_MAX_MSG_L)
             (stream_new BGP_MAX_MSG_L) (read_pending c) (read_header c)
             (notification_pending c) (wbuff c) mqueue_local_init_new in
  e ← store p c e;
  a ← array_set (ses_connections s) ordinal p;
  e ← store_session session (with_ses_connections a s) e;
  e ← bgp_connection_init_host p (bgp_connection_tags ordinal) e;
  Ok (p, e).

(** *** A session with its two connections, as [init_new] makes them *)

Definition example_session : bgp_session :=
  mk_session [None; None] "192.0.2.1" 90 30 None None None true 7.

Definition engine0 : bgp_engine :=
  mk_engine ∅ {[ 0%nat := example_session ]} None [].

Definition engine1 : result bgp_engine :=
  '(_, e) ← bgp_connection_init_new None (Some 0%nat) bgp_connection_primary engine0;
  '(_, e) ← bgp_connection_init_new None (Some 0%nat) bgp_connection_secondary e;
  Ok e.

(** The two connections after the OPEN exchange: each has its addresses,
    the OPEN it received and the intervals it negotiated. *)
Definition engine2 : result bgp_engine :=
  e ← engine1;
  e ← assign with_open_recv (Some 0%nat) (Some 100) e;
  e ← assign with_su_local (Some 0%nat) (Some 101) e;
  e ← assign with_su_remote (Some 0%nat) (Some 102) e;
  e ← assign with_hold_timer_interval (Some 0%nat) 120 e;
  e ← assign with_keepalive_timer_interval (Some 0%nat) 40 e;
  e ← assign with_open_recv (Some 1%nat) (Some 200) e;
  e ← assign with_su_local (Some 1%nat) (Some 201) e;
  e ← assign with_su_remote (Some 1%nat) (Some 202) e;
  e ← assign with_hold_timer_interval (Some 1%nat) 180 e;
  assign with_keepalive_timer_interval (Some 1%nat) 60 e.

Definition the {A} (d : A) (r : result A) : A :=
  match r with
  | Ok a => a
  | Fault _ => d
  end.

Definition two_connections : bgp_engine :=
  Eval vm_compute in the engine0 engine2.

(** An established connection with two messages pending, put on the
    connection queue as [bgp_connection_write_action] does when its write
    buffer has emptied. *)
Definition engine_ready : result bgp_engine :=
  e ← engine1;
  e ← assign with_state (Some 0%nat) bgp_fsm_Established e;
  e ← assign with_pending_queue (Some 0%nat) (mk_mqueue true [1; 2]) e;
  bgp_connection_queue_add (Some 0%nat) e.

Definition one_ready : bgp_engine :=
  Eval vm_compute in the engine0 engine_ready.

(** Both connections Stopping and on the connection queue. *)
Definition engine_stopping : result bgp_engine :=
  e ← engine1;
  e ← assign with_state (Some 0%nat) bgp_fsm_Stopping e;
  e ← assign with_state (Some 1%nat) bgp_fsm_Stopping e;
  e ← bgp_connection_queue_add (Some 0%nat) e;
  bgp_connection_queue_add (Some 1%nat) e.

(** ** Memory of the write buffer *)

Definition byte_Z (b : byte) : Z := Z.of_N (Byte.to_N b).

(** The offset of an address of [n] bytes inside the block [base, limit). *)
Definition wb_offset (wb : bgp_wbuffer) (addr n : Z) : result nat :=
  if (base wb <=? addr) && (addr + n <=? limit wb)
     && (limit wb - base wb =? Z.of_nat (length (wb_mem wb)))
  then Ok (Z.to_nat (addr - base wb)) else Fault OutOfBounds.

Definition wb_byte (wb : bgp_wbuffer) (addr : Z) : result byte :=
  i ← wb_offset wb addr 1; index (wb_mem wb !! i).

(** Modelled from the spec: [bgp_msg_get_mlen] is not in this file; the
    message length is the two bytes after the 16 byte marker, in network
    byte order. *)
Definition bgp_msg_get_mlen (wb : bgp_wbuffer) (p : Z) : result Z :=
  hi ← wb_byte wb (p + 16);
  lo ← wb_byte wb (p + 17);
  Ok (byte_Z hi * 256 + byte_Z lo).

(** [memcpy(dst, src, n)] inside the block of the write buffer.  C defines
    [memcpy] for objects that do not overlap only: then the [n] bytes that
    were at [src] are at [dst] afterwards, in whatever order the library
    copies them.  When the objects overlap the behaviour is undefined
    ([memmove] is the call that allows it), which is the fault [Overlap]. *)
Definition memcpy (wb : bgp_wbuffer) (dst src n : Z) : result bgp_wbuffer :=
  d ← wb_offset wb dst n;
  s ← wb_offset wb src n;
  if (n =? 0) || (dst + n <=? src) || (src + n <=? dst)
  then Ok (with_wb_mem (take d (wb_mem wb)
                          ++ take (Z.to_nat n) (drop s (wb_mem wb))
                          ++ drop (d + Z.to_nat n) (wb_mem wb)) wb)
  else Fault Overlap.

(** ** Closing for reading and purging the write buffer *)

(** The [do ... while] of [bgp_connection_part_close]: advance [p] until
    [p + mlen > wb->p_out].  One unit of fuel is one turn of the loop. *)
Fixpoint part_close_scan (fuel : nat) (wb : bgp_wbuffer) (p mlen : Z)
  : result (Z * Z) :=
  match fuel with
  | O => Fault OutOfFuel
  | S fuel =>
      let p := p + mlen in
      mlen ← bgp_msg_get_mlen wb p;
      if p + mlen <=? p_out wb
      then part_close_scan fuel wb p mlen
      else Ok (p, mlen)
  end.

(** The purge of wbuff, from [if (wb->p_in != wb->p_out)] to the assert. *)
Definition part_close_purge (fuel : nat) (wb : bgp_wbuffer) : result bgp_wbuffer :=
  wb ← (if negb (p_in wb =? p_out wb) then
          '(p, mlen) ← part_close_scan fuel wb (base wb) 0;
          '(mlen, wb) ← (if p =? p_out wb
                         then Ok (0, wb)  (* p_out points at start of message *)
                         else wb ← memcpy wb (base wb) p mlen; Ok (mlen, wb));
          let wb := with_p_out (base wb + (p_out wb - p)) wb in
          Ok (with_p_in (base wb + mlen) wb)
        else
          let wb := with_p_out (base wb) wb in
          Ok (with_p_in (p_out wb) wb));
  let wb := with_full (bgp_write_buffer_full wb) wb in
  _ ← c_assert (negb (full wb));
  Ok wb.

Definition bgp_connection_part_close (fuel : nat) (c : bgp_connection)
  : result (list effect * bgp_connection) :=
  (* close the qfile and any associate file descriptor *)
  let fd := qps_file_fd (qf c) in
  let evs := if negb (fd =? fd_undef) then [Sys_shutdown fd SHUT_RD] else [] in
  let q := if negb (fd =? fd_undef) then qps_disable_read (qf c) else qf c in
  (* reset all input buffering, reset obuf and purge wbuff *)
  wb ← part_close_purge fuel (wbuff c);
  Ok (evs,
      mk_connection (session c) (ordinal c) (accepted c) (state c) (next c)
        (prev c) (post c) (fsm_active c) (stopped c) (notification c) (err c)
        (open_recv c) (su_local c) (su_remote c) (hold_timer_interval c)
        (keepalive_timer_interval c) q (hold_timer c) (keepalive_timer c)
        (host c) (log c) (stream_reset (ibuf c)) (stream_reset (obuf c))
        0 false false wb (mqueue_local_reset_keep (pending_queue c))).

(** *** Messages *)

(** The length field of a message given as its bytes. *)
Definition msg_mlen (m : list byte) : option Z :=
  hi ← m !! 16%nat; lo ← m !! 17%nat; Some (byte_Z hi * 256 + byte_Z lo).

(** A whole message: its length field says how long it is, and that is
    between the header length and the maximum. *)
Definition whole_message (m : list byte) : Prop :=
  msg_mlen m = Some (Z.of_nat (length m)) /\
  BGP_MH_HEAD_L <= Z.of_nat (length m) <= BGP_MAX_MSG_L.

(** A message of [len] bytes and type [ty], its body filled with [fill]. *)
Definition byte_of_Z (z : Z) : byte :=
  match Byte.of_N (Z.to_N (z mod 256)) with
  | Some b => b
  | None => x00
  end.

Definition make_message (len : Z) (ty fill : byte) : list byte :=
  repeat xff 16 ++ [byte_of_Z (len / 256); byte_of_Z len; ty]
    ++ repeat fill (Z.to_nat (len - BGP_MH_HEAD_L)).

(** An allocated write buffer holding [msgs], with [sent] of their bytes
    written to the socket already. *)
Definition wbuff_holding (b : Z) (msgs : list (list byte)) (sent : Z) : bgp_wbuffer :=
  let data := concat msgs in
  mk_wbuffer false b (b + bgp_wbuff_size) (b + Z.of_nat (length data)) (b + sent)
    (data ++ repeat x00 (Z.to_nat bgp_wbuff_size - length data)).

Definition connection0 : bgp_connection :=
  Eval vm_compute in the zero_connection (load (Some 0%nat) (the engine0 engine1)).

(** Scenario S5: three whole messages of 100, 200 and 300 bytes, 150 bytes
    written. *)
Definition s5_messages : list (list byte) :=
  [make_message 100 x02 x0a; make_message 200 x02 x0b; make_message 300 x02 x0c].



(** ** The socket

    What the kernel answers to the next [write()]: it takes up to [n] of the
    bytes offered, or fails with an errno.  The answers to come are a list;
    once they are used up the socket would block. *)

Inductive sys_answer : Type :=
  | Sys_accept (n : Z)
  | Sys_errno (e : Z).

(** The bytes at [addr .. addr + n) of the write buffer's block. *)
Definition wb_read (wb : bgp_wbuffer) (addr n : Z) : result (list byte) :=
  i ← wb_offset wb addr n;
  Ok (take (Z.to_nat n) (drop i (wb_mem wb))).

(** Storing [bytes] at [addr] of the write buffer's block. *)
Definition wb_write (wb : bgp_wbuffer) (addr : Z) (bytes : list byte)
  : result bgp_wbuffer :=
  i ← wb_offset wb addr (Z.of_nat (length bytes));
  Ok (with_wb_mem (take i (wb_mem wb) ++ bytes
                     ++ drop (i + length bytes) (wb_mem wb)) wb).

(** ** Writing *)

(** Modelled from the spec: [stream_flush_try] of lib/stream.c makes one
    non-blocking write of the stream to the fd, retrying on EINTR.  It
    returns 0 when everything was written, and then the stream is empty; the
    number of bytes still to be written when the socket took only part, or
    would block; -1 on any other error, together with the errno. *)
Fixpoint stream_flush_try (s : stream) (fd : Z) (answers : list sys_answer)
  : Z * Z * stream * list effect * list sys_answer :=
  let len := Z.of_nat (length (s_bytes s)) in
  match answers with
  | [] => (len, EAGAIN, s, [], [])
  | Sys_accept n :: answers =>
      let ret := Z.max 0 (Z.min n len) in
      let ev := Sys_write fd len (take (Z.to_nat ret) (s_bytes s)) in
      if ret =? len then (0, 0, stream_reset s, [ev], answers)
      else (len - ret, 0, s, [ev], answers)
  | Sys_errno e :: answers =>
      if e =? EINTR then stream_flush_try s fd answers
      else if (e =? EAGAIN) || (e =? EWOULDBLOCK) then (len, e, s, [], answers)
      else (-1, e, s, [], answers)
  end.

(** Modelled from the spec: [stream_transfer] of lib/stream.c moves the
    contents of the stream to [dst], which must have room for them below
    [limit], empties the stream and returns the address after the bytes
    moved. *)
Definition stream_transfer (wb : bgp_wbuffer) (dst : Z) (s : stream) (lim : Z)
  : result (Z * bgp_wbuffer * stream) :=
  let len := Z.of_nat (length (s_bytes s)) in
  _ ← c_assert (dst + len <=? lim);
  wb ← wb_write wb dst (s_bytes s);
  Ok (dst + len, wb, stream_reset s).

(** Allocate new write buffer and initialise pointers.  [addr] is the block
    XMALLOC returns. *)
Definition bgp_write_buffer_init_new (wb : bgp_wbuffer) (size addr : Z)
  : result bgp_wbuffer :=
  _ ← c_assert (base wb =? 0);
  let wb := with_wb_mem (repeat x00 (Z.to_nat size)) (with_base addr wb) in
  let wb := with_limit (base wb + size) wb in
  let wb := with_p_out (base wb) wb in
  let wb := with_p_in (p_out wb) wb in
  let wb := with_full (bgp_write_buffer_full wb) wb in
  _ ← c_assert (negb (full wb));
  Ok wb.

(** The write buffer is empty -- so try to write obuf directly. *)
Definition bgp_connection_write_direct (c : bgp_connection) (addr : Z)
    (answers : list sys_answer)
  : result (Z * bgp_connection * list effect * list sys_answer) :=
  let '(ret, errno, s, evs, answers) :=
    stream_flush_try (obuf c) (qps_file_fd (qf c)) answers in
  let c := with_obuf s c in
  if ret =? 0 then
    Ok (1, c, evs, answers)          (* Done: wbuff and obuf are empty *)
  else if ret >? 0 then
    let wb := wbuff c in
    (* partial write -- set up buffering, if required *)
    wb ← (if base wb =? 0
          then bgp_write_buffer_init_new wb bgp_wbuff_size addr else Ok wb);
    (* transfer *entire* message to staging buffer *)
    '(p, wb, s) ← stream_transfer wb (base wb) (obuf c) (limit wb);
    let wb := with_p_in p wb in
    let wb := with_p_out (p_in wb - ret) wb in
    (* must now be enabled to write *)
    let c := with_qf (qps_enable_write (qf c)) (with_wbuff wb (with_obuf s c)) in
    Ok (0, c, evs, answers)          (* Done: obuf is empty, but wbuff is not *)
  else
    (* write failed -- signal error and return failed *)
    Ok (-1, c, evs ++ [Fsm_io_error errno], answers).

(** Write the contents of the obuf. *)
Definition bgp_connection_write (c : bgp_connection) (addr : Z)
    (answers : list sys_answer)
  : result (Z * bgp_connection * list effect * list sys_answer) :=
  let wb := wbuff c in
  if bgp_write_buffer_empty wb then
    (* write buffer is empty -- attempt to write directly *)
    bgp_connection_write_direct c addr answers
  else
    (* transfer the obuf contents to the staging buffer *)
    '(p, wb, s) ← stream_transfer wb (p_in wb) (obuf c) (limit wb);
    let wb := with_p_in p wb in
    Ok (1, with_wbuff wb (with_obuf s c), [], answers).

(** *** The write action *)

Inductive write_exit : Type :=
  | Write_emptied              (* left the loop with [have == 0] *)
  | Write_returned.            (* returned from inside the loop *)

(** [write(fd, addr, count)] on the block of the write buffer, given the
    answer of the kernel: the return value, errno, and what went out.

    The answer is not restricted by [count].  For a count above [SSIZE_MAX]
    POSIX leaves the result to the implementation, and Linux refuses the
    call with [EFAULT]; the model allows every answer there, so that what is
    proved for all answers holds whatever the implementation does.  A run on
    given answers is a run of the program only if the kernel can give them:
    to a count above [SSIZE_MAX] the answer is [Sys_errno EFAULT]. *)
Definition sys_write (fd : Z) (wb : bgp_wbuffer) (addr count : Z)
    (answer : sys_answer) : result (Z * Z * list effect) :=
  match answer with
  | Sys_accept n =>
      let ret := Z.max 0 (Z.min n count) in
      sent ← wb_read wb addr ret;
      Ok (ret, 0, [Sys_write fd count sent])
  | Sys_errno e => Ok (-1, e, [])
  end.

(** The [while (have != 0)] loop of [bgp_connection_write_action]; every
    turn uses one answer of the kernel, and when the answers are used up the
    socket would block. *)
Fixpoint write_action_loop (answers : list sys_answer) (fd : Z)
    (wb : bgp_wbuffer) (have : Z)
  : result (write_exit * bgp_wbuffer * list effect * list sys_answer) :=
  if have =? 0 then Ok (Write_emptied, wb, [], answers)
  else
    match answers with
    | [] => Ok (Write_returned, wb, [], [])
    | answer :: answers =>
        '(ret, errno, ev) ← sys_write fd wb (p_out wb) (to_size_t have) answer;
        let ret := to_int ret in
        '(x, wb, evs, answers) ←
          (if ret >? 0 then
             let wb := with_p_out (p_out wb + ret) wb in
             write_action_loop answers fd wb (to_int (have - ret))
           else if ret <? 0 then
             let ret := errno in
             if ret =? EINTR then write_action_loop answers fd wb have
             else if negb (ret =? EAGAIN) && negb (ret =? EWOULDBLOCK)
                  then Ok (Write_returned, wb, [Fsm_io_error errno], answers)
                  else Ok (Write_returned, wb, [], answers)
           else write_action_loop answers fd wb have);
        Ok (x, wb, ev ++ evs, answers)
    end.

(** Write Action for bgp connection. *)
Definition bgp_connection_write_action (p : option conn_ref)
    (answers : list sys_answer) (e : bgp_engine)
  : result (bgp_engine * list sys_answer) :=
  c ← load p e;
  let wb := wbuff c in
  (* try to empty the write buffer *)
  let have := to_int (p_out wb - p_in wb) in
  '(x, wb, evs, answers) ← write_action_loop answers (qps_file_fd (qf c)) wb have;
  let e := emit evs e in
  match x with
  | Write_returned =>
      e ← store p (with_wbuff wb c) e; Ok (e, answers)
  | Write_emptied =>
      (* buffer is empty -- reset it and disable write mode *)
      let wb := with_p_in (base wb) wb in
      let wb := with_p_out (p_in wb) wb in
      let wb := with_full false wb in
      let c := with_qf (qps_disable_write (qf c)) (with_wbuff wb c) in
      e ← store p c e;
      (* if waiting to send NOTIFICATION, just did it;
         otherwise is writable again -- so add to connection queue *)
      e ← (if notification_pending c
           then Ok (emit [Fsm_event bgp_fsm_Sent_NOTIFICATION_message] e)
           else bgp_connection_queue_add p e);
      Ok (e, answers)
  end.

(** *** Connections for the write scenarios *)

Definition keepalive : list byte := make_message 19 x04 x00.

(** A connection that is open on fd 5. *)
Definition connection_open : bgp_connection :=
  with_state bgp_fsm_Established
    (with_qf (mk_qps_file 5 true true false) connection0).

Definition with_obuf_bytes (bytes : list byte) (c : bgp_connection)
  : bgp_connection :=
  with_obuf (mk_stream (s_size (obuf c)) bytes) c.

(** The FSM puts a message in obuf and writes it; [answers] is what the
    socket does meanwhile, and 4096 the address of the block should the write
    buffer have to be allocated. *)
Definition write_message (m : list byte) (answers : list sys_answer)
    (c : bgp_connection) : result bgp_connection :=
  '(_, c, _, _) ← bgp_connection_write (with_obuf_bytes m c) 4096 answers;
  Ok c.

(** Nine messages of the maximum size have been written while the socket
    took 1000 bytes of the first and then blocked, and a KEEPALIVE is in
    obuf. *)
Definition connection_nine : bgp_connection :=
  the connection0
    (c ← Nat.iter 8 (fun r => c ← r; write_message (make_message 4096 x02 x0a) [] c)
           (write_message (make_message 4096 x02 x0a) [Sys_accept 1000]
              connection_open);
     Ok (with_obuf_bytes keepalive c)).

(** A KEEPALIVE has been written while the socket blocked: it is in the
    write buffer, nothing of it sent yet. *)
Definition engine_writing : result bgp_engine :=
  e ← engine1;
  c ← write_message keepalive [] connection_open;
  store (Some 0%nat) c e.

Definition one_writing : bgp_engine := the engine0 engine_writing.

(** ** Reading *)

(** What the socket holds to be read, and what a read finds once that is
    used up: nothing yet, the end of the stream, or an error. *)
Inductive rx_end : Type :=
  | Rx_would_block
  | Rx_eof
  | Rx_error (errno : Z).

Record socket_rx : Type := mk_rx {
  rx_bytes : list byte;
  rx_then : rx_end;
}.

(** Modelled from the spec: [stream_read_unblock] of lib/stream.c reads up
    to [want] bytes to the end of the stream without blocking.  It returns
    the number of bytes read, which is 0 without a system call when nothing
    is wanted; -1 on an error, together with the errno; -2 at the end of the
    stream. *)
Definition stream_read_unblock (s : stream) (fd : Z) (want : Z) (rx : socket_rx)
  : Z * Z * stream * socket_rx :=
  if want =? 0 then (0, 0, s, rx)
  else
    match rx_bytes rx with
    | [] =>
        match rx_then rx with
        | Rx_would_block => (0, EAGAIN, s, rx)
        | Rx_eof => (-2, 0, s, rx)
        | Rx_error e => (-1, e, s, rx)
        end
    | _ :: _ =>
        let n := Z.to_nat want in
        let got := take n (rx_bytes rx) in
        (Z.of_nat (length got), 0,
         mk_stream (s_size s) (s_bytes s ++ got),
         mk_rx (drop n (rx_bytes rx)) (rx_then rx))
    end.

(** The message types the header check lets through. *)
Definition bgp_type_ok (ty : byte) : bool :=
  (1 <=? byte_Z ty) && (byte_Z ty <=? 4).

Definition is_marker (b : list byte) : bool :=
  forallb (Byte.eqb xff) b && Nat.eqb (length b) 16.

(** Modelled from the spec: [bgp_msg_check_header] is not in this file.  It
    checks that the marker is sixteen bytes of 0xFF, that the length is at
    least the header and at most the maximum message, and that the type is
    one of OPEN, UPDATE, NOTIFICATION and KEEPALIVE; it returns what is left
    of the message to read, or raises the header error with the FSM and
    returns a negative number. *)
Definition bgp_msg_check_header (s : stream) : Z * list effect :=
  match msg_mlen (s_bytes s), s_bytes s !! 18%nat with
  | Some len, Some ty =>
      if is_marker (take 16 (s_bytes s))
         && (BGP_MH_HEAD_L <=? len) && (len <=? BGP_MAX_MSG_L) && bgp_type_ok ty
      then (len - BGP_MH_HEAD_L, [])
      else (-1, [Fsm_header_error])
  | _, _ => (-1, [Fsm_header_error])
  end.

Inductive read_exit : Type :=
  | Read_complete             (* left the loop: a whole message is in ibuf *)
  | Read_returned.            (* returned from inside the loop *)

(** The [while (1)] loop of [bgp_connection_read_action].  One unit of fuel
    is one turn of the loop. *)
Fixpoint read_action_loop (fuel : nat) (c : bgp_connection) (want : Z)
    (rx : socket_rx)
  : result (read_exit * bgp_connection * list effect * socket_rx) :=
  match fuel with
  | O => Fault OutOfFuel
  | S fuel =>
      let '(ret, errno, s, rx) :=
        stream_read_unblock (ibuf c) (qps_file_fd (qf c)) want rx in
      let c := with_ibuf s c in
      if ret >=? 0 then
        let want := want - ret in
        if negb (want =? 0) then
          (* must wait for the rest *)
          Ok (Read_returned, with_read_pending want c, [], rx)
        else if negb (read_header c) then
          Ok (Read_complete, c, [], rx)         (* got complete message *)
        else
          let c := with_read_header false c in  (* got complete header *)
          let '(want, evs) := bgp_msg_check_header (ibuf c) in
          if want <? 0 then
            Ok (Read_returned, c, evs, rx)      (* failed in header check *)
          else read_action_loop fuel c want rx
      else
        Ok (Read_returned, c,
            [Fsm_io_error (if ret =? -1 then errno else 0)], rx)
  end.

(** Modelled from the spec: [bgp_msg_dispatch] hands the message in ibuf to
    the FSM. *)
Definition bgp_msg_dispatch (c : bgp_connection) : list effect :=
  [Msg_dispatch (s_bytes (ibuf c))].

(** Read Action for bgp connection. *)
Definition bgp_connection_read_action (fuel : nat) (c : bgp_connection)
    (rx : socket_rx) : result (bgp_connection * list effect * socket_rx) :=
  (* if nothing pending for partial packet, start reading new one *)
  let want := read_pending c in
  let '(want, c) :=
    if want =? 0
    then (BGP_MH_HEAD_L,
          with_read_header true (with_ibuf (stream_reset (ibuf c)) c))
    else (want, c) in
  '(x, c, evs, rx) ← read_action_loop fuel c want rx;
  match x with
  | Read_returned => Ok (c, evs, rx)
  | Read_complete =>
      (* deal with the BGP message; ready to read another message *)
      Ok (with_read_pending 0 c, evs ++ bgp_msg_dispatch c, rx)
  end.

(** *** The selector on the read side

    While there is something to read on the socket the selector calls the
    read action.  A call that finds bytes takes at least one, so as many
    calls as there are bytes are enough. *)
Fixpoint read_while_readable (calls : nat) (c : bgp_connection) (rx : socket_rx)
  : result (bgp_connection * list effect * socket_rx) :=
  match rx_bytes rx with
  | [] => Ok (c, [], rx)
  | _ :: _ =>
      match calls with
      | O => Fault OutOfFuel
      | S calls =>
          '(c, evs, rx) ← bgp_connection_read_action 2 c rx;
          '(c, evs', rx) ← read_while_readable calls c rx;
          Ok (c, evs ++ evs', rx)
      end
  end.

(** The stream arrives in chunks; after each the socket is read dry. *)
Fixpoint feed (chunks : list (list byte)) (c : bgp_connection)
  : result (bgp_connection * list effect) :=
  match chunks with
  | [] => Ok (c, [])
  | chunk :: chunks =>
      '(c, evs, _) ← read_while_readable (length chunk) c
                        (mk_rx chunk Rx_would_block);
      '(c, evs') ← feed chunks c;
      Ok (c, evs ++ evs')
  end.

(** A well-formed message: a whole message with the marker and a type the
    header check lets through. *)
Definition bgp_message (m : list byte) : Prop :=
  whole_message m /\
  take 16 m = repeat xff 16 /\
  exists ty, m !! 18%nat = Some ty /\ bgp_type_ok ty = true.

(** *** Where the framer stands in the stream *)

(** What is known of the connection between two calls of the read action
    when [k] bytes of the message [m] have been read: they are in ibuf, and
    [read_pending] is what is missing of the header, or of the message once
    the header is in. *)
Definition entering (c : bgp_connection) (want : Z) (k : nat) (m : list byte)
  : Prop :=
  (k < length m)%nat /\
  s_bytes (ibuf c) = take k m /\
  if (k <? 19)%nat
  then read_header c = true /\ want = 19 - Z.of_nat k
  else read_header c = false /\ want = Z.of_nat (length m) - Z.of_nat k.

Definition reading (c : bgp_connection) (k : nat) (m : list byte) : Prop :=
  entering c (read_pending c) k m.

(** Between two calls of the read action: nothing is pending and the next
    message starts, or [k] bytes of the first message to come are read. *)
Definition framer_at (c : bgp_connection) (k : nat) (msgs : list (list byte))
  : Prop :=
  (k = 0%nat /\ read_pending c = 0) \/
  (exists m rest, msgs = m :: rest /\ reading c k m).

(** ** The connection queue as a ring

    The queue is a circular list threaded through the connections: [next]
    and [prev] of a connection on the queue point to its neighbours, and the
    queue variable to the connection to be processed next. *)

(** [connection->next] and [connection->prev] seen from the heap. *)
Definition nxt (e : bgp_engine) (r : conn_ref) : option conn_ref :=
  conns e !! r ≫= next.

Definition prv (e : bgp_engine) (r : conn_ref) : option conn_ref :=
  conns e !! r ≫= prev.

(** [a] and [b] are neighbours: [a->next == b] and [b->prev == a]. *)
Definition links (e : bgp_engine) (a b : conn_ref) : Prop :=
  nxt e a = Some b /\ prv e b = Some a.

(** From [a] the connections of [l] follow one another, and then [z]. *)
Fixpoint chain (e : bgp_engine) (a : conn_ref) (l : list conn_ref) (z : conn_ref)
  : Prop :=
  match l with
  | [] => links e a z
  | b :: l => links e a b /\ chain e b l z
  end.

(** The queue holds the connections of [l], each once, in the order in which
    they come up for processing: the queue variable points to the first,
    from the last the ring closes to the first, and every other connection
    has both pointers NULL. *)
Definition ring (e : bgp_engine) (l : list conn_ref) : Prop :=
  NoDup l /\
  match l with
  | [] => bgp_connection_queue e = None
  | h :: t => bgp_connection_queue e = Some h /\ chain e h t h
  end /\
  forall r c, conns e !! r = Some c -> r ∉ l -> next c = None /\ prev c = None.

(** The connection without its place in the queue. *)
Definition unlinked (c : bgp_connection) : bgp_connection :=
  with_prev None (with_next None c).

(** Both connections of the session on the connection queue, the primary
    first. *)
Definition two_queued : bgp_engine :=
  Eval vm_compute in
    the engine0
      (e ← engine1;
       e ← bgp_connection_queue_add (Some 0%nat) e;
       bgp_connection_queue_add (Some 1%nat) e).

(** The session with its primary connection only. *)
Definition engine_primary : result bgp_engine :=
  '(_, e) ← bgp_connection_init_new None (Some 0%nat) bgp_connection_primary engine0;
  Ok e.

Definition one_connection : bgp_engine :=
  Eval vm_compute in the engine0 engine_primary.

(** What closing the connections of [l] in turn does to the world. *)
Definition reaped (e : bgp_engine) (l : list conn_ref) : list effect :=
  flat_map (fun r => match conns e !! r with
                     | Some c => fst (bgp_connection_close c)
                     | None => []
                     end) l.

(** Both connections on the connection queue, and the primary Stopping. *)
Definition one_stopping : bgp_engine :=
  Eval vm_compute in
    the engine0 (assign with_state (Some 0%nat) bgp_fsm_Stopping two_queued).

Definition both_stopping : bgp_engine :=
  Eval vm_compute in the engine0 engine_stopping.

(** ** Opening a connection *)

Definition with_post (v : bgp_fsm_event) (c : bgp_connection) : bgp_connection.
Proof. field_setter eta_connection post v c. Defined.
Definition with_stopped (v : Z) (c : bgp_connection) : bgp_connection.
Proof. field_setter eta_connection stopped v c. Defined.
Definition with_notification (v : option Z) (c : bgp_connection)
  : bgp_connection.
Proof. field_setter eta_connection notification v c. Defined.
Definition with_err (v : Z) (c : bgp_connection) : bgp_connection.
Proof. field_setter eta_connection err v c. Defined.
Definition with_ses_accept (v : bool) (s : bgp_session) : bgp_session.
Proof. field_setter eta_session ses_accept v s. Defined.

Definition bgp_stopped_not : Z := 0.

(** Modelled from the spec: [qps_add_file] of lib/qpselect.c installs the fd
    in the file and registers the file with the selector, no mode enabled
    yet. *)
Definition qps_add_file (q : qps_file) (fd : Z) : qps_file :=
  mk_qps_file fd true false false.

(** Modelled from the spec: [bgp_open_state_free] and [bgp_notify_free] free
    what they are given, accept NULL, and return NULL. *)
Definition bgp_open_state_free (o : option Z) : option Z := None.
Definition bgp_notify_free (n : option Z) : option Z := None.

(** Open connection. *)
Definition bgp_connection_open (p : option conn_ref) (fd : Z) (e : bgp_engine)
  : result bgp_engine :=
  c ← load p e;
  let session := session c in
  (* if this is the secondary connection, do not accept any more *)
  e ← (if ordinal c =? bgp_connection_secondary
       then assign_session with_ses_accept session false e else Ok e);
  (* set the file going *)
  c ← load p e;
  e ← assign with_qf p (qps_add_file (qf c) fd) e;
  (* clear sundry state *)
  e ← assign with_post p bgp_fsm_null_event e;
  e ← assign with_err p 0 e;
  e ← assign with_stopped p bgp_stopped_not e;
  (* these accept NULL arguments *)
  c ← load p e;
  e ← assign with_open_recv p (bgp_open_state_free (open_recv c)) e;
  c ← load p e;
  e ← assign with_notification p (bgp_notify_free (notification c)) e;
  (* copy the original hold_timer_interval and keepalive_timer_interval *)
  s ← load_session session e;
  e ← assign with_hold_timer_interval p (ses_hold_timer_interval s) e;
  s ← load_session session e;
  assign with_keepalive_timer_interval p (ses_keepalive_timer_interval s) e.

(** [bgp_connection_close] on a connection of the heap. *)
Definition close_connection (p : option conn_ref) (e : bgp_engine)
  : result bgp_engine :=
  c ← load p e;
  let '(evs, c) := bgp_connection_close c in
  store p c (emit evs e).

(** The connection as [bgp_connection_open] leaves it. *)
Definition opened (fd : Z) (s : bgp_session) (c : bgp_connection)
  : bgp_connection :=
  with_keepalive_timer_interval (ses_keepalive_timer_interval s)
    (with_hold_timer_interval (ses_hold_timer_interval s)
       (with_notification None
          (with_open_recv None
             (with_stopped bgp_stopped_not
                (with_err 0
                   (with_post bgp_fsm_null_event
                      (with_qf (mk_qps_file fd true false false) c))))))).

(** The primary connection has been open on fd 5 and is closed again. *)
Definition once_closed : bgp_engine :=
  Eval vm_compute in
    the engine0
      (e ← engine1;
       e ← bgp_connection_open (Some 0%nat) 5 e;
       close_connection (Some 0%nat) e).

(** ** What the write side holds and has sent *)

(** What waits in the write buffer: the bytes of [p_out, p_in). *)
Definition pending (wb : bgp_wbuffer) : list byte :=
  take (Z.to_nat (p_in wb - p_out wb))
    (drop (Z.to_nat (p_out wb - base wb)) (wb_mem wb)).

(** The bytes that the writes among [evs] gave to the socket. *)
Definition sent (evs : list effect) : list byte :=
  flat_map (fun ev => match ev with
                      | Sys_write _ _ bytes => bytes
                      | _ => []
                      end) evs.

(** The write buffer is either not allocated yet, all pointers NULL, or its
    block is the one between [base] and [limit] and the pointers are in
    order inside it. *)
Definition wbuff_ok (wb : bgp_wbuffer) : Prop :=
  (base wb = 0 /\ p_in wb = p_out wb) \/
  (base wb <> 0 /\
   limit wb - base wb = Z.of_nat (length (wb_mem wb)) /\
   base wb <= p_out wb /\ p_out wb <= p_in wb /\ p_in wb <= limit wb).

(** There is room for what obuf holds: behind [p_in] when the write buffer
    is in use, and else in the whole block, which is allocated if need be. *)
Definition room_for (wb : bgp_wbuffer) (len : Z) : Prop :=
  if bgp_write_buffer_empty wb
  then (if base wb =? 0 then len <= bgp_wbuff_size
        else base wb + len <= limit wb)
  else p_in wb + len <= limit wb.

(** The connection as the write action leaves it when the write buffer has
    emptied: the buffer reset and write readiness disabled. *)
Definition drained (c : bgp_connection) : bgp_connection :=
  let wb := wbuff c in
  with_qf (qps_disable_write (qf c))
    (with_wbuff (mk_wbuffer false (base wb) (limit wb) (base wb) (base wb)
                   (wb_mem wb)) c).

(** Whether a run came to its end without a fault. *)
Definition returns {A} (r : result A) : bool :=
  match r with Ok _ => true | Fault _ => false end.

(** The primary connection is open on fd 5 with a KEEPALIVE waiting in its
    write buffer, nothing of it written yet, and write readiness enabled. *)
Definition connection_waiting : bgp_connection :=
  with_qf (mk_qps_file 5 true true true)
    (with_wbuff (wbuff_holding 4096 [keepalive] 0) connection_open).

Definition one_waiting : bgp_engine :=
  with_conns (<[0%nat := connection_waiting]> (conns one_connection))
    one_connection.

(** ** What the read side holds *)

(** The part of a message that the connection holds between two calls of the
    read action. *)
Definition held (c : bgp_connection) : list byte :=
  if read_pending c =? 0 then [] else s_bytes (ibuf c).

(** The framer is at rest between two messages, or inside a header, of which
    [read_pending] bytes are missing, or inside a message whose header has
    passed the check, of which [read_pending] bytes are missing. *)
Definition framing (c : bgp_connection) : Prop :=
  read_pending c = 0 \/
  (read_header c = true /\ 0 < read_pending c /\
   Z.of_nat (length (s_bytes (ibuf c))) + read_pending c = BGP_MH_HEAD_L) \/
  (read_header c = false /\ 0 < read_pending c /\
   BGP_MH_HEAD_L <= Z.of_nat (length (s_bytes (ibuf c))) /\
   bgp_msg_check_header (ibuf c)
   = (Z.of_nat (length (s_bytes (ibuf c))) + read_pending c - BGP_MH_HEAD_L, [])).

(** The events by which the read action gives up on the connection. *)
Definition read_error (ev : effect) : bool :=
  match ev with
  | Fsm_io_error _ | Fsm_header_error => true
  | _ => false
  end.

(** The messages handed to the FSM among [evs]. *)
Definition dispatched (evs : list effect) : list (list byte) :=
  flat_map (fun ev => match ev with
                      | Msg_dispatch m => [m]
                      | _ => []
                      end) evs.

(** A NOTIFICATION of 21 bytes: the header, error code and subcode. *)
Definition notification_cease : list byte := make_message 21 x03 x06.

(** The secondary of [two_connections] has been made the primary. *)
Definition promoted : bgp_engine :=
  Eval vm_compute in
    the engine0 (bgp_connection_make_primary (Some 1%nat) two_connections).

(** What the read action raises on a socket that has nothing to read. *)
Definition socket_end_events (e : rx_end) : list effect :=
  match e with
  | Rx_would_block => []
  | Rx_eof => [Fsm_io_error 0]
  | Rx_error errno => [Fsm_io_error errno]
  end.

(** Three whole messages of 300, 200 and 100 bytes, 350 bytes written: the
    message in flight is not longer than what precedes it. *)
Definition s5_reversed : list (list byte) :=
  [make_message 300 x02 x0c; make_message 200 x02 x0b; make_message 100 x02 x0a].

Definition reversed_connection : bgp_connection :=
  with_pending_queue (mk_mqueue true [1; 2; 3])
    (with_wbuff (wbuff_holding 4096 s5_reversed 350) connection0).

(** The messages of scenario S5 with the first written and nothing of the
    second: [p_out] is at a message boundary. *)
Definition boundary_connection : bgp_connection :=
  with_pending_queue (mk_mqueue true [1; 2; 3])
    (with_wbuff (wbuff_holding 4096 s5_messages 100) connection0).

(** * Properties *)

(** ** Sibling lookup *)

Lemma lxor_ordinal (o : Z) :
  o = bgp_connection_primary \/ o = bgp_connection_secondary ->
  Z.lxor o 1 = 1 - o.
Proof. intros [-> | ->]; reflexivity. Qed.

(** C10: [bgp_connection_get_sibling] returns NULL, and does not fail, when
    the connection has no session; when it has one, it returns the entry
    [connections[ordinal ^ 1]] of the session, whatever that entry is (NULL
    when there is no sibling). *)
Theorem get_sibling_spec (e : bgp_engine) (r : conn_ref) (c : bgp_connection) :
  conns e !! r = Some c ->
  (session c = None -> bgp_connection_get_sibling (Some r) e = Ok None) /\
  (forall sr s,
      session c = Some sr -> sessions e !! sr = Some s ->
      length (ses_connections s) = 2%nat ->
      ordinal c = bgp_connection_primary \/ ordinal c = bgp_connection_secondary ->
      exists sib,
        ses_connections s !! Z.to_nat (Z.lxor (ordinal c) 1) = Some sib /\
        bgp_connection_get_sibling (Some r) e = Ok sib).
Proof.
  intros Hc. unfold bgp_connection_get_sibling, load. simpl. rewrite Hc. simpl.
  split.
  - intros ->. reflexivity.
  - intros sr s -> Hs Hlen Hord. unfold load_session. simpl. rewrite Hs. simpl.
    unfold array_get. rewrite Hlen, (lxor_ordinal _ Hord).
    destruct (ses_connections s) as [|a [|b [|]]]; try discriminate.
    destruct Hord as [-> | ->]; simpl; eauto.
Qed.

(** The sibling of the secondary of [two_connections] is the primary. *)
Lemma get_sibling_of_secondary :
  bgp_connection_get_sibling (Some 1%nat) two_connections = Ok (Some 0%nat).
Proof.
  destruct (get_sibling_spec two_connections 1%nat
              (the zero_connection (load (Some 1%nat) two_connections))
              eq_refl) as [_ H].
  destruct (H 0%nat (the example_session (load_session (Some 0%nat) two_connections))
              eq_refl eq_refl eq_refl (or_intror eq_refl)) as [sib [Hs Hg]].
  vm_compute in Hs. injection Hs as <-. exact Hg.
Defined.

(** After the promotion of the secondary there is no sibling any more. *)
Example get_sibling_after_promotion :
  (e ← bgp_connection_make_primary (Some 1%nat) two_connections;
   bgp_connection_get_sibling (Some 1%nat) e)
  = Ok None.
Proof. vm_compute. reflexivity. Qed.

(** ** Closing *)

(** C7: [bgp_connection_close] can be done again, and a second close changes
    nothing and touches no socket.  It takes the qfile out of the selection,
    shuts down the fd if there is one, forgets both addresses, unsets both
    timers, resets ibuf and obuf, zeroes [read_pending], [read_header] and
    [notification_pending], sets [p_in = p_out = base] and [full = 0] in
    wbuff and empties the pending queue, whose storage stays.  State, session
    link, timer initialisation, buffer allocations, host, log, open_recv,
    notification and stopped cause stay as they were. *)
Theorem close_spec (c : bgp_connection) :
  let evs := fst (bgp_connection_close c) in
  let c' := snd (bgp_connection_close c) in
  (* idempotent *)
  bgp_connection_close c' = ([], c') /\
  (* what it does *)
  evs = (if qf_fd (qf c) =? fd_undef then []
         else [Sys_shutdown (qf_fd (qf c)) SHUT_RDWR]) /\
  qf c' = mk_qps_file fd_undef false false false /\
  su_local c' = None /\ su_remote c' = None /\
  qt_set (hold_timer c') = None /\ qt_set (keepalive_timer c') = None /\
  s_bytes (ibuf c') = [] /\ s_bytes (obuf c') = [] /\
  read_pending c' = 0 /\ read_header c' = false /\
  notification_pending c' = false /\
  p_in (wbuff c') = base (wbuff c) /\ p_out (wbuff c') = base (wbuff c) /\
  full (wbuff c') = false /\
  mq_blocks (pending_queue c') = [] /\
  mq_storage (pending_queue c') = mq_storage (pending_queue c) /\
  (* what remains *)
  state c' = state c /\ session c' = session c /\ ordinal c' = ordinal c /\
  qt_initialised (hold_timer c') = qt_initialised (hold_timer c) /\
  qt_initialised (keepalive_timer c') = qt_initialised (keepalive_timer c) /\
  s_size (ibuf c') = s_size (ibuf c) /\ s_size (obuf c') = s_size (obuf c) /\
  base (wbuff c') = base (wbuff c) /\ limit (wbuff c') = limit (wbuff c) /\
  wb_mem (wbuff c') = wb_mem (wbuff c) /\
  host c' = host c /\ log c' = log c /\ open_recv c' = open_recv c /\
  notification c' = notification c /\ stopped c' = stopped c.
Proof.
  destruct c as [? ? ? ? ? ? ? ? ? ? ? ? ? ? ? ? [fd ? ? ?] [? ?] [? ?] ? ? [? ?] [? ?]
                  ? ? ? [? ? ? ? ? ?] [? ?]].
  lazy -[Z.eqb fd_undef].
  destruct (fd =? fd_undef); repeat split.
Qed.

(** ** Promotion to primary *)

Lemma append_empty (s : string) : s +:+ "" = s.
Proof.
  induction s as [|a s IH]; [reflexivity|].
  change (String a s +:+ "") with (String a (s +:+ "")). rewrite IH. reflexivity.
Qed.

Lemma array_set_0 {A} (a b v : A) : array_set [a; b] 0 v = Ok [v; b].
Proof. reflexivity. Qed.

Lemma array_set_1 {A} (a b v : A) : array_set [a; b] 1 v = Ok [a; v].
Proof. reflexivity. Qed.

(** What the promotion does, for every connection attached to its session:
    everything the session takes over comes from the connection, except the
    keepalive time, which is the session's own as before. *)
Lemma make_primary_effect (e : bgp_engine) (r : conn_ref) (sr : sess_ref)
    (c : bgp_connection) (s : bgp_session) :
  conns e !! r = Some c -> session c = Some sr -> sessions e !! sr = Some s ->
  length (ses_connections s) = 2%nat ->
  ordinal c = bgp_connection_primary \/ ordinal c = bgp_connection_secondary ->
  ses_connections s !! Z.to_nat (ordinal c) = Some (Some r) ->
  exists e' c' s',
    bgp_connection_make_primary (Some r) e = Ok e' /\
    conns e' !! r = Some c' /\ sessions e' !! sr = Some s' /\
    ordinal c' = bgp_connection_primary /\
    ses_connections s' = [Some r; None] /\
    ses_open_recv s' = open_recv c /\
    ses_su_local s' = su_local c /\ ses_su_remote s' = su_remote c /\
    ses_hold_timer_interval s' = hold_timer_interval c /\
    ses_keepalive_timer_interval s' = ses_keepalive_timer_interval s /\
    open_recv c' = None /\ su_local c' = None /\ su_remote c' = None /\
    host c' = ses_host s.
Proof.
  intros Hc Hsr Hs Hlen Hord Hslot.
  destruct (ses_connections s) as [|a [|b [|]]] eqn:Hconns; try discriminate.
  unfold bgp_connection_make_primary, bgp_connection_init_host,
    assign, assign_session, load, store, load_session, store_session.
  unfold bgp_connection_primary, bgp_connection_secondary in *.
  destruct Hord as [Hord | Hord]; rewrite Hord in Hslot; simpl in Hslot;
    injection Hslot as ->.
  - repeat (cbn; rewrite ?Hc, ?Hsr, ?Hs, ?Hord, ?Hconns, ?lookup_insert_eq,
                     ?array_set_0, ?array_set_1).
    eexists _, _, _. split; [reflexivity|].
    cbn. rewrite !lookup_insert_eq. split; [reflexivity|]. split; [reflexivity|].
    cbn. rewrite append_empty. repeat split; assumption.
  - repeat (cbn; rewrite ?Hc, ?Hsr, ?Hs, ?Hord, ?Hconns, ?lookup_insert_eq,
                     ?array_set_0, ?array_set_1).
    eexists _, _, _. split; [reflexivity|].
    cbn. rewrite !lookup_insert_eq. split; [reflexivity|]. split; [reflexivity|].
    cbn. rewrite append_empty. repeat split; assumption.
Qed.

(** C1, on the code: promoting the secondary of [two_connections], which
    negotiated a hold time of 180 and a keepalive time of 60 on a session
    configured with 90 and 30, moves open_recv, the addresses and the hold
    time to the session, and leaves the session's keepalive time at 30: the
    source assigns [session->keepalive_timer_interval] to itself. *)
Theorem make_primary_keepalive_not_copied :
  (c ← load (Some 1%nat) two_connections;
   e ← bgp_connection_make_primary (Some 1%nat) two_connections;
   s ← load_session (Some 0%nat) e;
   Ok (keepalive_timer_interval c, ses_keepalive_timer_interval s,
       (hold_timer_interval c, ses_hold_timer_interval s)))
  = Ok (60, 30, (180, 180)).
Proof. vm_compute. reflexivity. Qed.

(** The rest of the promotion is as the specification has it. *)
Example make_primary_secondary :
  (e ← bgp_connection_make_primary (Some 1%nat) two_connections;
   c ← load (Some 1%nat) e;
   s ← load_session (Some 0%nat) e;
   Ok (ordinal c, ses_connections s, host c,
       (open_recv c, su_local c, su_remote c),
       (ses_open_recv s, ses_su_local s, ses_su_remote s)))
  = Ok (0, [Some 1%nat; None], "192.0.2.1"%string,
        (None, None, None), (Some 200, Some 201, Some 202)).
Proof. vm_compute. reflexivity. Qed.

(** ** Part close: the purge of the write buffer *)

Section part_close.

Implicit Types (wb : bgp_wbuffer) (m : list byte) (mem : list byte).

Lemma wb_offset_ok wb (addr n : Z) :
  limit wb - base wb = Z.of_nat (length (wb_mem wb)) ->
  base wb <= addr -> addr + n <= limit wb ->
  wb_offset wb addr n = Ok (Z.to_nat (addr - base wb)).
Proof.
  intros Hlen Hlo Hhi. unfold wb_offset.
  rewrite (proj2 (Z.leb_le _ _) Hlo), (proj2 (Z.leb_le _ _) Hhi).
  rewrite (proj2 (Z.eqb_eq _ _) Hlen). reflexivity.
Qed.

Lemma wb_byte_in wb (pre m rest : list byte) (i : nat) (b : byte) :
  limit wb - base wb = Z.of_nat (length (wb_mem wb)) ->
  wb_mem wb = pre ++ m ++ rest ->
  m !! i = Some b ->
  wb_byte wb (base wb + Z.of_nat (length pre) + Z.of_nat i) = Ok b.
Proof.
  intros Hlen Hmem Hi. unfold wb_byte.
  pose proof (lookup_lt_Some _ _ _ Hi) as Hlt.
  assert (Hsz : length (wb_mem wb) = (length pre + (length m + length rest))%nat)
    by (rewrite Hmem, !length_app; reflexivity).
  rewrite wb_offset_ok by lia. simpl.
  replace (Z.to_nat (base wb + Z.of_nat (length pre) + Z.of_nat i - base wb))
    with (length pre + i)%nat by lia.
  rewrite Hmem, lookup_app_r by lia.
  replace (length pre + i - length pre)%nat with i by lia.
  rewrite lookup_app_l by lia. rewrite Hi. reflexivity.
Qed.

Lemma get_mlen_at wb (pre m rest : list byte) :
  limit wb - base wb = Z.of_nat (length (wb_mem wb)) ->
  wb_mem wb = pre ++ m ++ rest ->
  whole_message m ->
  bgp_msg_get_mlen wb (base wb + Z.of_nat (length pre)) = Ok (Z.of_nat (length m)).
Proof.
  intros Hlen Hmem [Hm _]. unfold msg_mlen in Hm.
  destruct (m !! 16%nat) as [hi|] eqn:Hhi; [|discriminate].
  destruct (m !! 17%nat) as [lo|] eqn:Hlo; [|discriminate].
  simpl in Hm. injection Hm as Hm.
  unfold bgp_msg_get_mlen.
  pose proof (wb_byte_in wb pre m rest 16 hi Hlen Hmem Hhi) as H16.
  pose proof (wb_byte_in wb pre m rest 17 lo Hlen Hmem Hlo) as H17.
  change (Z.of_nat 16) with 16 in H16. change (Z.of_nat 17) with 17 in H17.
  rewrite H16. simpl. rewrite H17. simpl.
  rewrite Hm. reflexivity.
Qed.

(** The scan stops at the message that holds [p_out]. *)
Lemma part_close_scan_finds wb (before : list (list byte)) :
  forall (pre m rest : list byte) (p mlen k : Z) (fuel : nat),
    limit wb - base wb = Z.of_nat (length (wb_mem wb)) ->
    wb_mem wb = pre ++ concat before ++ m ++ rest ->
    Forall whole_message before -> whole_message m ->
    p + mlen = base wb + Z.of_nat (length pre) ->
    p_out wb = base wb + Z.of_nat (length pre) + Z.of_nat (length (concat before)) + k ->
    0 <= k < Z.of_nat (length m) ->
    (length before < fuel)%nat ->
    part_close_scan fuel wb p mlen
    = Ok (base wb + Z.of_nat (length pre) + Z.of_nat (length (concat before)),
          Z.of_nat (length m)).
Proof.
  induction before as [|b before IH];
    intros pre m rest p mlen k fuel Hlen Hmem Hbefore Hm Hp Hout Hk Hfuel.
  - destruct fuel as [|fuel]; [simpl in Hfuel; lia|].
    simpl in *. rewrite Hp, (get_mlen_at wb pre m rest Hlen Hmem Hm). simpl.
    rewrite (proj2 (Z.leb_gt _ _)) by lia.
    f_equal. f_equal. lia.
  - destruct fuel as [|fuel]; [simpl in Hfuel; lia|].
    apply Forall_cons in Hbefore as [Hb Hbefore].
    simpl in Hmem, Hout, Hfuel. rewrite <- app_assoc in Hmem.
    rewrite length_app in Hout.
    cbn [part_close_scan]. rewrite Hp.
    rewrite (get_mlen_at wb pre b _ Hlen Hmem Hb). simpl.
    rewrite (proj2 (Z.leb_le _ _)) by lia.
    rewrite (IH (pre ++ b) m rest _ _ k fuel Hlen); try assumption.
    + rewrite length_app. simpl. rewrite length_app. f_equal. f_equal. lia.
    + rewrite <- !app_assoc. exact Hmem.
    + rewrite length_app. lia.
    + rewrite length_app. lia.
    + lia.
Qed.

(** Copying a message to [base] from behind at least its own length: the
    objects do not overlap, and the message is at [base] afterwards. *)
Lemma memcpy_disjoint wb (pre m rest : list byte) :
  limit wb - base wb = Z.of_nat (length (wb_mem wb)) ->
  wb_mem wb = pre ++ m ++ rest ->
  (length m <= length pre)%nat ->
  exists mem',
    memcpy wb (base wb) (base wb + Z.of_nat (length pre)) (Z.of_nat (length m))
    = Ok (with_wb_mem mem' wb) /\
    length mem' = length (wb_mem wb) /\
    take (length m) mem' = m.
Proof.
  intros Hlen Hmem Hfar.
  assert (Hsz : length (wb_mem wb) = (length pre + (length m + length rest))%nat)
    by (rewrite Hmem, !length_app; reflexivity).
  unfold memcpy. rewrite !wb_offset_ok by lia. cbn [mbind result_bind].
  rewrite (proj2 (Z.leb_le (base wb + Z.of_nat (length m))
                    (base wb + Z.of_nat (length pre)))) by lia.
  rewrite orb_true_r. cbn [orb].
  replace (Z.to_nat (base wb - base wb)) with 0%nat by lia.
  replace (Z.to_nat (base wb + Z.of_nat (length pre) - base wb))
    with (length pre) by lia.
  rewrite Nat2Z.id, take_0. cbn [app Nat.add].
  assert (Hm : take (length m) (drop (length pre) (wb_mem wb)) = m).
  { rewrite Hmem, drop_app_length. apply take_app_length. }
  rewrite Hm. eexists. split; [reflexivity|]. split.
  - rewrite length_app, length_drop. lia.
  - apply take_app_length.
Qed.

(** Copying a message to [base] from less than its own length behind, or
    from [base] itself: the objects overlap. *)
Lemma memcpy_overlap wb (pre m rest : list byte) :
  limit wb - base wb = Z.of_nat (length (wb_mem wb)) ->
  wb_mem wb = pre ++ m ++ rest ->
  (length pre < length m)%nat ->
  memcpy wb (base wb) (base wb + Z.of_nat (length pre)) (Z.of_nat (length m))
  = Fault Overlap.
Proof.
  intros Hlen Hmem Hnear.
  assert (Hsz : length (wb_mem wb) = (length pre + (length m + length rest))%nat)
    by (rewrite Hmem, !length_app; reflexivity).
  unfold memcpy. rewrite !wb_offset_ok by lia. cbn [mbind result_bind].
  rewrite (proj2 (Z.eqb_neq (Z.of_nat (length m)) 0)) by lia.
  rewrite (proj2 (Z.leb_gt (base wb + Z.of_nat (length m))
                    (base wb + Z.of_nat (length pre)))) by lia.
  rewrite (proj2 (Z.leb_gt (base wb + Z.of_nat (length pre) + Z.of_nat (length m))
                    (base wb))) by lia.
  reflexivity.
Qed.

(** The purge when the copy is between objects that do not overlap, or when
    there is nothing to copy. *)
Lemma part_close_purge_spec wb (before after : list (list byte))
    (m junk : list byte) (k : Z) (fuel : nat) :
  limit wb = base wb + bgp_wbuff_size ->
  Z.of_nat (length (wb_mem wb)) = bgp_wbuff_size ->
  wb_mem wb = concat (before ++ m :: after) ++ junk ->
  Forall whole_message (before ++ m :: after) ->
  p_in wb = base wb + Z.of_nat (length (concat (before ++ m :: after))) ->
  p_out wb = base wb + Z.of_nat (length (concat before)) + k ->
  0 <= k < Z.of_nat (length m) ->
  k = 0 \/ (length m <= length (concat before))%nat ->
  (length before < fuel)%nat ->
  exists wb',
    part_close_purge fuel wb = Ok wb' /\
    base wb' = base wb /\ limit wb' = limit wb /\ full wb' = false /\
    length (wb_mem wb') = length (wb_mem wb) /\
    if k =? 0 then p_in wb' = base wb /\ p_out wb' = base wb
    else p_out wb' = base wb + k /\
         p_in wb' = base wb + Z.of_nat (length m) /\
         take (length m) (wb_mem wb') = m.
Proof.
  intros Hlim Hsz Hmem Hall Hin Hout Hk Hfar Hfuel.
  assert (Hlen : limit wb - base wb = Z.of_nat (length (wb_mem wb))) by lia.
  apply Forall_app in Hall as [Hbefore Hrest].
  apply Forall_cons in Hrest as [Hm _].
  rewrite concat_app in Hmem, Hin. simpl in Hmem, Hin.
  rewrite <- !app_assoc in Hmem. rewrite !length_app in Hin.
  pose proof Hm as [_ Hmlen]. unfold BGP_MH_HEAD_L, BGP_MAX_MSG_L in Hmlen.
  unfold bgp_wbuff_size, BGP_MAX_MSG_L in *.
  unfold part_close_purge.
  rewrite (proj2 (Z.eqb_neq (p_in wb) (p_out wb))) by lia. simpl.
  rewrite (part_close_scan_finds wb before [] m (concat after ++ junk)
             (base wb) 0 k fuel Hlen Hmem Hbefore Hm) by (simpl; lia).
  simpl. rewrite Z.add_0_r.
  destruct (Z.eqb_spec k 0) as [-> | Hk0].
  - rewrite (proj2 (Z.eqb_eq _ _)) by lia. simpl.
    unfold bgp_write_buffer_full, BGP_MAX_MSG_L. simpl.
    rewrite (proj2 (Z.ltb_ge _ _)) by lia. simpl.
    eexists. split; [reflexivity|]. simpl. repeat split; lia.
  - rewrite (proj2 (Z.eqb_neq _ _)) by lia.
    destruct Hfar as [? | Hfar]; [contradiction|].
    destruct (memcpy_disjoint wb (concat before) m (concat after ++ junk)
                Hlen Hmem Hfar)
      as (mem' & Hcopy & Hlen' & Htake).
    rewrite Hcopy. simpl.
    unfold bgp_write_buffer_full, BGP_MAX_MSG_L. simpl.
    rewrite (proj2 (Z.ltb_ge _ _)) by lia. simpl.
    eexists. split; [reflexivity|]. simpl.
    split; [reflexivity|]. split; [reflexivity|]. split; [reflexivity|].
    split; [exact Hlen'|].
    split; [lia|]. split; [reflexivity | exact Htake].
Qed.


End part_close.

Lemma whole_make_message_100 : whole_message (make_message 100 x02 x0a).
Proof. split; [reflexivity | vm_compute; split; discriminate]. Qed.

Lemma whole_make_message_200 : whole_message (make_message 200 x02 x0b).
Proof. split; [reflexivity | vm_compute; split; discriminate]. Qed.

Lemma whole_make_message_300 : whole_message (make_message 300 x02 x0c).
Proof. split; [reflexivity | vm_compute; split; discriminate]. Qed.


(** C6, on the code: a connection as [bgp_connection_init_new] leaves it,
    whose write buffer was never allocated, has all four pointers NULL;
    [bgp_connection_part_close] then computes [full] as [0 - 0 < BGP_MAX_MSG_L],
    which is true, and its own [assert(!wb->full)] fails. *)
Theorem part_close_unallocated_asserts :
  wbuff connection0 = mk_wbuffer false 0 0 0 0 [] /\
  forall fuel, bgp_connection_part_close fuel connection0 = Fault AssertFailed.
Proof. split; [reflexivity | intros fuel; reflexivity]. Qed.

(** ** The write pipeline *)

(** Scenario S1: the socket takes the whole KEEPALIVE: done, nothing
    allocated, write readiness not enabled. *)
Example write_direct_flush :
  ('(ret, c, evs, _) ←
     bgp_connection_write (with_obuf_bytes keepalive connection_open) 8192
       [Sys_accept 100];
   Ok (ret, base (wbuff c), s_bytes (obuf c), qf_write_enabled (qf c), evs))
  = Ok (1, 0, [], false, [Sys_write 5 19 keepalive]).
Proof. vm_compute. reflexivity. Qed.

(** Scenario S2: the socket takes 1000 bytes of a 4096 byte UPDATE: buffered,
    the write buffer allocated at ten times the maximum message, 3096 bytes
    to go, write readiness enabled. *)
Example write_partial_flush :
  ('(ret, c, _, _) ←
     bgp_connection_write
       (with_obuf_bytes (make_message 4096 x02 x01) connection_open) 8192
       [Sys_accept 1000];
   Ok (ret, limit (wbuff c) - base (wbuff c), p_in (wbuff c) - p_out (wbuff c),
       qf_write_enabled (qf c), s_bytes (obuf c)))
  = Ok (0, 10 * 4096, 3096, true, []).
Proof. vm_compute. reflexivity. Qed.

(** A failed direct flush returns -1 and raises the I/O error. *)
Example write_direct_fails :
  ('(ret, _, evs, _) ←
     bgp_connection_write (with_obuf_bytes keepalive connection_open) 8192
       [Sys_errno 32];
   Ok (ret, evs))
  = Ok (-1, [Fsm_io_error 32]).
Proof. vm_compute. reflexivity. Qed.

(** Writing into a write buffer that is not empty returns 1 whenever it
    returns, and leaves the [full] flag as it found it. *)
Lemma write_into_nonempty (c c' : bgp_connection) (addr ret : Z)
    (answers answers' : list sys_answer) (evs : list effect) :
  bgp_write_buffer_empty (wbuff c) = false ->
  bgp_connection_write c addr answers = Ok (ret, c', evs, answers') ->
  ret = 1 /\ full (wbuff c') = full (wbuff c) /\
  p_in (wbuff c') = p_in (wbuff c) + Z.of_nat (length (s_bytes (obuf c))) /\
  p_out (wbuff c') = p_out (wbuff c).
Proof.
  intros Hne. unfold bgp_connection_write. rewrite Hne.
  unfold stream_transfer, wb_write.
  destruct (c_assert _) as [[]|]; [|discriminate]. simpl.
  destruct (wb_offset _ _ _) as [i|]; [|discriminate]. simpl.
  intros [= <- <- <- <-]. simpl. repeat split.
Qed.

(** C4, on the code: after the partial flush of scenario S2 the write buffer
    is not empty; writing a KEEPALIVE then puts it behind the UPDATE and
    returns 1, the value the source documents for "obuf and wbuff are
    empty", with 3115 bytes in the write buffer. *)
Theorem write_buffered_returns_one :
  ('(_, c, _, _) ←
     bgp_connection_write
       (with_obuf_bytes (make_message 4096 x02 x01) connection_open) 8192
       [Sys_accept 1000];
   '(ret, c', _, _) ← bgp_connection_write (with_obuf_bytes keepalive c) 0 [];
   Ok (bgp_write_buffer_empty (wbuff c), ret,
       bgp_write_buffer_empty (wbuff c'), s_bytes (obuf c'),
       p_in (wbuff c') - p_out (wbuff c')))
  = Ok (false, 1, false, [], 3115).
Proof. vm_compute. reflexivity. Qed.

(** C3, on the code: with nine messages of the maximum size in the write
    buffer there is room for exactly one more, and [full] is 0 as it should
    be; writing a KEEPALIVE leaves room for 4077 bytes, less than a maximum
    message, and [full] is still 0: [bgp_connection_write] moves [p_in] and
    does not recompute the flag. *)
Theorem write_leaves_full_stale :
  (full (wbuff connection_nine), bgp_write_buffer_full (wbuff connection_nine),
   limit (wbuff connection_nine) - p_in (wbuff connection_nine),
   limit (wbuff connection_nine) - base (wbuff connection_nine))
  = (false, false, 4096, 40960) /\
  ('(_, c', _, _) ← bgp_connection_write connection_nine 0 [];
   Ok (full (wbuff c'), bgp_write_buffer_full (wbuff c'),
       limit (wbuff c') - p_in (wbuff c'),
       (p_out (wbuff c') - base (wbuff c'), p_in (wbuff c') - p_out (wbuff c'))))
  = Ok (false, true, 4077, (1000, 35883)).
Proof. split; vm_compute; reflexivity. Qed.

(** The state the write action starts from in [one_writing]. *)
Example one_writing_pending :
  (c ← load (Some 0%nat) one_writing;
   Ok (p_out (wbuff c) - base (wbuff c), p_in (wbuff c) - base (wbuff c),
       full (wbuff c), qf c, notification_pending c))
  = Ok (0, 19, false, mk_qps_file 5 true true true, false).
Proof. vm_compute. reflexivity. Qed.

(** C2, on the code: one KEEPALIVE of 19 bytes waits in the write buffer.
    The source computes [have] as [p_out - p_in], which is -19, and calls
    [write()] with the count [(size_t)-19], which is above [SSIZE_MAX]; the
    kernel refuses such a call with [EFAULT].  So although the socket is
    writable nothing of the 19 bytes is written: the code raises the I/O
    error, the bytes stay in the buffer, the buffer is not reset, write
    readiness stays enabled and the connection is not put on the connection
    queue. *)
Theorem write_action_count_negative :
  (c ← load (Some 0%nat) one_writing;
   let have := to_int (p_out (wbuff c) - p_in (wbuff c)) in
   Ok (have, to_size_t have, SSIZE_MAX <? to_size_t have))
  = Ok (-19, 2^64 - 19, true) /\
  ('(e, _) ← bgp_connection_write_action (Some 0%nat) [Sys_errno EFAULT]
               one_writing;
   c ← load (Some 0%nat) e;
   Ok (events e, sent (events e),
       (p_out (wbuff c) - base (wbuff c), p_in (wbuff c) - base (wbuff c)),
       qf_write_enabled (qf c), bgp_connection_queue e, next c))
  = Ok ([Fsm_io_error EFAULT], [], (0, 19), true, None, None).
Proof. split; vm_compute; reflexivity. Qed.

(** With nothing pending the loop is not entered: the buffer is reset, write
    readiness disabled and the connection put on the connection queue. *)
Example write_action_nothing_pending :
  ('(e, _) ← bgp_connection_write_action (Some 1%nat) [Sys_accept 19] one_writing;
   c ← load (Some 1%nat) e;
   Ok (events e, qf_write_enabled (qf c), bgp_connection_queue e, next c))
  = Ok ([], false, Some 1%nat, Some 1%nat).
Proof. vm_compute. reflexivity. Qed.

(** ** The read framer *)

Section framer.

Implicit Types (c : bgp_connection) (m data : list byte) (rx : socket_rx).

Lemma stream_eta (s : stream) : mk_stream (s_size s) (s_bytes s ++ []) = s.
Proof. destruct s. simpl. rewrite app_nil_r. reflexivity. Qed.

(** A read on an open socket takes what is there, up to what is wanted. *)
Lemma read_unblock_open (s : stream) (fd want : Z) data :
  0 <= want ->
  exists errno,
    stream_read_unblock s fd want (mk_rx data Rx_would_block)
    = (Z.of_nat (length (take (Z.to_nat want) data)), errno,
       mk_stream (s_size s) (s_bytes s ++ take (Z.to_nat want) data),
       mk_rx (drop (Z.to_nat want) data) Rx_would_block).
Proof.
  intros Hwant. unfold stream_read_unblock.
  destruct (Z.eqb_spec want 0) as [-> | Hne].
  - exists 0. simpl. rewrite stream_eta. reflexivity.
  - destruct data as [|b data]; simpl.
    + exists EAGAIN. rewrite take_nil, drop_nil, stream_eta. reflexivity.
    + exists 0. reflexivity.
Qed.

Lemma is_marker_ff : is_marker (repeat xff 16) = true.
Proof. reflexivity. Qed.

(** The header of a well-formed message passes the check, which returns the
    length of the body. *)
Lemma check_header_ok (s : stream) m :
  bgp_message m -> s_bytes s = take 19 m ->
  bgp_msg_check_header s = (Z.of_nat (length m) - BGP_MH_HEAD_L, []).
Proof.
  intros ((Hlen & Hlo & Hhi) & Hmark & ty & Hty & Htype) Hs.
  unfold bgp_msg_check_header. rewrite Hs.
  assert (Hmlen : msg_mlen (take 19 m) = msg_mlen m).
  { unfold msg_mlen. rewrite !lookup_take_lt by lia. reflexivity. }
  rewrite Hmlen, Hlen, lookup_take_lt, Hty by lia.
  rewrite take_take. change (16 `min` 19)%nat with 16%nat.
  rewrite Hmark, is_marker_ff, Htype.
  rewrite (proj2 (Z.leb_le _ _) Hlo), (proj2 (Z.leb_le _ _) Hhi).
  reflexivity.
Qed.

(** One turn of the loop while the body is read. *)
Lemma turn_body (fuel : nat) c (want : Z) data :
  read_header c = false -> 0 <= want ->
  exists c',
    read_action_loop (S fuel) c want (mk_rx data Rx_would_block)
    = Ok (if want <=? Z.of_nat (length data) then Read_complete else Read_returned,
          c', [], mk_rx (drop (Z.to_nat want) data) Rx_would_block) /\
    s_bytes (ibuf c') = s_bytes (ibuf c) ++ take (Z.to_nat want) data /\
    read_header c' = false /\
    (Z.of_nat (length data) < want ->
     read_pending c' = want - Z.of_nat (length data)).
Proof.
  intros Hhdr Hwant. cbn [read_action_loop].
  destruct (read_unblock_open (ibuf c) (qps_file_fd (qf c)) want data Hwant)
    as [errno ->].
  rewrite (proj2 (Z.geb_le _ _)) by lia.
  rewrite length_take.
  destruct (Z.leb_spec want (Z.of_nat (length data))) as [Hle | Hgt].
  - rewrite (proj2 (Z.eqb_eq _ _)) by lia. simpl. rewrite Hhdr. simpl.
    eexists. split; [reflexivity|]. simpl.
    split; [reflexivity|]. split; [assumption|]. lia.
  - rewrite (proj2 (Z.eqb_neq _ _)) by lia. simpl.
    eexists. split; [reflexivity|]. simpl.
    split; [reflexivity|]. split; [assumption|]. lia.
Qed.

(** One turn while the header is read and the socket does not have the rest
    of it. *)
Lemma turn_header_short (fuel : nat) c (want : Z) data :
  read_header c = true -> Z.of_nat (length data) < want ->
  exists c',
    read_action_loop (S fuel) c want (mk_rx data Rx_would_block)
    = Ok (Read_returned, c', [], mk_rx [] Rx_would_block) /\
    s_bytes (ibuf c') = s_bytes (ibuf c) ++ data /\
    read_header c' = true /\
    read_pending c' = want - Z.of_nat (length data).
Proof.
  intros Hhdr Hlt. cbn [read_action_loop].
  destruct (read_unblock_open (ibuf c) (qps_file_fd (qf c)) want data
              ltac:(lia)) as [errno ->].
  rewrite (proj2 (Z.geb_le _ _)) by lia.
  rewrite take_ge, drop_ge by lia.
  rewrite (proj2 (Z.eqb_neq _ _)) by lia. simpl.
  eexists. split; [reflexivity|]. simpl.
  split; [reflexivity|]. split; [assumption | reflexivity].
Qed.

(** One turn that completes the header of a well-formed message: the check
    passes and the loop goes on to read the body. *)
Lemma turn_header_done (fuel : nat) c (want : Z) data m :
  read_header c = true -> 0 < want <= Z.of_nat (length data) ->
  bgp_message m ->
  s_bytes (ibuf c) ++ take (Z.to_nat want) data = take 19 m ->
  exists c',
    read_action_loop (S fuel) c want (mk_rx data Rx_would_block)
    = read_action_loop fuel c' (Z.of_nat (length m) - BGP_MH_HEAD_L)
        (mk_rx (drop (Z.to_nat want) data) Rx_would_block) /\
    s_bytes (ibuf c') = take 19 m /\
    read_header c' = false.
Proof.
  intros Hhdr Hwant Hm Hbuf. cbn [read_action_loop].
  destruct (read_unblock_open (ibuf c) (qps_file_fd (qf c)) want data
              ltac:(lia)) as [errno ->].
  rewrite (proj2 (Z.geb_le _ _)) by lia.
  rewrite length_take.
  rewrite (proj2 (Z.eqb_eq _ _)) by lia. simpl. rewrite Hhdr. simpl.
  rewrite (check_header_ok _ m Hm) by (simpl; exact Hbuf).
  destruct Hm as ((_ & Hlo & _) & _).
  rewrite (proj2 (Z.ltb_ge _ _)) by lia.
  eexists. split; [reflexivity|]. simpl. split; [exact Hbuf | reflexivity].
Qed.

(** The bytes read so far and a chunk that goes on from there. *)
Lemma take_app_chunk m data (tail : list byte) (k : nat) :
  drop k m = data ++ tail ->
  take k m ++ data = take (k + length data) m.
Proof.
  intros Hsplit. rewrite <- take_take_drop, Hsplit, take_app_length.
  reflexivity.
Qed.

Lemma take_header_chunk m data (tail : list byte) (k w : nat) :
  drop k m = data ++ tail -> (w <= length data)%nat ->
  take k m ++ take w data = take (k + w) m.
Proof.
  intros Hsplit Hw. rewrite <- take_take_drop, Hsplit, take_app_le by lia.
  reflexivity.
Qed.

(** The socket has less than what is missing of the message: the loop
    returns and waits for the rest. *)
Lemma loop_waits c (want : Z) (k : nat) m data (tail : list byte) :
  entering c want k m -> bgp_message m ->
  drop k m = data ++ tail -> (k + length data < length m)%nat ->
  exists c',
    read_action_loop 2 c want (mk_rx data Rx_would_block)
    = Ok (Read_returned, c', [], mk_rx [] Rx_would_block) /\
    reading c' (k + length data) m.
Proof.
  intros (Hk & Hbuf & Hphase) Hm Hsplit Hshort.
  pose proof Hm as ((_ & Hlo & _) & _). unfold BGP_MH_HEAD_L in Hlo.
  unfold reading, entering.
  destruct (Nat.ltb_spec k 19) as [Hk19 | Hk19].
  - destruct Hphase as [Hhdr ->].
    destruct (Nat.ltb_spec (k + length data) 19) as [Hd19 | Hd19].
    + (* still in the header *)
      destruct (turn_header_short 1 c (19 - Z.of_nat k) data Hhdr ltac:(lia))
        as (c' & -> & Hbuf' & Hhdr' & Hpend').
      exists c'. split; [reflexivity|]. split; [lia|].
      split; [rewrite Hbuf', Hbuf; exact (take_app_chunk m data tail k Hsplit)|].
      split; [assumption | lia].
    + (* the header completes, the body does not *)
      destruct (turn_header_done 1 c (19 - Z.of_nat k) data m Hhdr
                  ltac:(lia) Hm) as (c1 & -> & Hbuf1 & Hhdr1).
      { rewrite Hbuf, (take_header_chunk m data tail k _ Hsplit) by lia.
        f_equal. lia. }
      assert (Hrest : length (drop (Z.to_nat (19 - Z.of_nat k)) data)
                      = (k + length data - 19)%nat)
        by (rewrite length_drop; lia).
      destruct (turn_body 0 c1 (Z.of_nat (length m) - BGP_MH_HEAD_L)
                  (drop (Z.to_nat (19 - Z.of_nat k)) data) Hhdr1
                  ltac:(unfold BGP_MH_HEAD_L; lia))
        as (c' & -> & Hbuf' & Hhdr' & Hpend').
      unfold BGP_MH_HEAD_L in *. rewrite Hrest in *.
      rewrite (proj2 (Z.leb_gt _ _)) by lia.
      rewrite drop_ge by lia.
      exists c'. split; [reflexivity|]. split; [lia|]. split.
      * rewrite Hbuf', Hbuf1, (take_ge (drop _ data)) by lia.
        rewrite <- (take_app_chunk m data tail k Hsplit).
        rewrite <- (take_drop (Z.to_nat (19 - Z.of_nat k)) data) at 2.
        rewrite app_assoc.
        rewrite (take_header_chunk m data tail k _ Hsplit) by lia.
        do 2 f_equal. lia.
      * split; [assumption|]. rewrite Hpend' by lia. lia.
  - destruct Hphase as [Hhdr ->].
    destruct (turn_body 1 c (Z.of_nat (length m) - Z.of_nat k) data Hhdr
                ltac:(lia)) as (c' & -> & Hbuf' & Hhdr' & Hpend').
    rewrite (proj2 (Z.leb_gt _ _)) by lia.
    rewrite drop_ge by lia.
    exists c'. split; [reflexivity|]. split; [lia|].
    rewrite (proj2 (Nat.ltb_ge _ _)) by lia.
    split.
    + rewrite Hbuf', Hbuf, (take_ge data) by lia.
      exact (take_app_chunk m data tail k Hsplit).
    + split; [assumption|]. rewrite Hpend' by lia. lia.
Qed.

(** The socket has the rest of the message: the loop is left with the whole
    message in ibuf and what follows it still on the socket. *)
Lemma loop_completes c (want : Z) (k : nat) m (rest : list byte) :
  entering c want k m -> bgp_message m ->
  exists c',
    read_action_loop 2 c want (mk_rx (drop k m ++ rest) Rx_would_block)
    = Ok (Read_complete, c', [], mk_rx rest Rx_would_block) /\
    s_bytes (ibuf c') = m.
Proof.
  intros (Hk & Hbuf & Hphase) Hm.
  pose proof Hm as ((_ & Hlo & _) & _). unfold BGP_MH_HEAD_L in Hlo.
  assert (Hdrop : length (drop k m) = (length m - k)%nat) by apply length_drop.
  destruct (Nat.ltb_spec k 19) as [Hk19 | Hk19].
  - destruct Hphase as [Hhdr ->].
    destruct (turn_header_done 1 c (19 - Z.of_nat k) (drop k m ++ rest) m Hhdr
                ltac:(rewrite length_app; lia) Hm) as (c1 & -> & Hbuf1 & Hhdr1).
    { rewrite Hbuf, take_app_le, take_take_drop by lia. f_equal. lia. }
    rewrite drop_app_le, drop_drop by lia.
    replace (k + Z.to_nat (19 - Z.of_nat k))%nat with 19%nat by lia.
    destruct (turn_body 0 c1 (Z.of_nat (length m) - BGP_MH_HEAD_L)
                (drop 19 m ++ rest) Hhdr1 ltac:(unfold BGP_MH_HEAD_L; lia))
      as (c' & -> & Hbuf' & Hhdr' & _).
    unfold BGP_MH_HEAD_L in *.
    rewrite (proj2 (Z.leb_le _ _)) by (rewrite length_app, length_drop; lia).
    rewrite drop_app_length' by (rewrite length_drop; lia).
    exists c'. split; [reflexivity|].
    rewrite Hbuf', Hbuf1, take_app_length' by (rewrite length_drop; lia).
    apply take_drop.
  - destruct Hphase as [Hhdr ->].
    destruct (turn_body 1 c (Z.of_nat (length m) - Z.of_nat k)
                (drop k m ++ rest) Hhdr ltac:(lia))
      as (c' & -> & Hbuf' & Hhdr' & _).
    rewrite (proj2 (Z.leb_le _ _)) by (rewrite length_app; lia).
    rewrite drop_app_length' by lia.
    exists c'. split; [reflexivity|].
    rewrite Hbuf', Hbuf, take_app_length' by lia.
    apply take_drop.
Qed.

Lemma reading_pending c (k : nat) m : reading c k m -> read_pending c <> 0.
Proof.
  intros (Hk & _ & Hphase).
  destruct (Nat.ltb_spec k 19); destruct Hphase as [_ ->]; lia.
Qed.

(** From either state the read action enters its loop with [k] bytes of the
    message read. *)
Lemma action_enters c (k : nat) m (rest : list (list byte)) :
  bgp_message m -> framer_at c k (m :: rest) ->
  exists c0 want,
    entering c0 want k m /\
    forall fuel rx,
      bgp_connection_read_action fuel c rx
      = ('(x, c, evs, rx) ← read_action_loop fuel c0 want rx;
         match x with
         | Read_returned => Ok (c, evs, rx)
         | Read_complete =>
             Ok (with_read_pending 0 c, evs ++ bgp_msg_dispatch c, rx)
         end).
Proof.
  intros ((_ & Hlo & _) & _) [[-> Hidle] | (m' & rest' & [= <- <-] & Hread)].
  - exists (with_read_header true (with_ibuf (stream_reset (ibuf c)) c)),
      BGP_MH_HEAD_L.
    split.
    + unfold BGP_MH_HEAD_L in *. split; [lia|]. simpl. auto.
    + intros fuel rx. unfold bgp_connection_read_action. rewrite Hidle.
      reflexivity.
  - exists c, (read_pending c). split; [exact Hread|].
    intros fuel rx. unfold bgp_connection_read_action.
    rewrite (proj2 (Z.eqb_neq _ _) (reading_pending c k m Hread)).
    reflexivity.
Qed.

Lemma action_waits c (k : nat) m (rest : list (list byte)) data (tail : list byte) :
  bgp_message m -> framer_at c k (m :: rest) ->
  drop k m = data ++ tail -> (k + length data < length m)%nat ->
  exists c',
    bgp_connection_read_action 2 c (mk_rx data Rx_would_block)
    = Ok (c', [], mk_rx [] Rx_would_block) /\
    reading c' (k + length data) m.
Proof.
  intros Hm Hat Hsplit Hshort.
  destruct (action_enters c k m rest Hm Hat) as (c0 & want & Henter & ->).
  destruct (loop_waits c0 want k m data tail Henter Hm Hsplit Hshort)
    as (c' & -> & Hread).
  exists c'. split; [reflexivity | exact Hread].
Qed.

Lemma action_completes c (k : nat) m (rest : list (list byte)) (more : list byte) :
  bgp_message m -> framer_at c k (m :: rest) ->
  exists c',
    bgp_connection_read_action 2 c (mk_rx (drop k m ++ more) Rx_would_block)
    = Ok (c', [Msg_dispatch m], mk_rx more Rx_would_block) /\
    read_pending c' = 0.
Proof.
  intros Hm Hat.
  destruct (action_enters c k m rest Hm Hat) as (c0 & want & Henter & ->).
  destruct (loop_completes c0 want k m more Henter Hm) as (c' & -> & Hbuf).
  eexists. simpl. unfold bgp_msg_dispatch. rewrite Hbuf.
  split; reflexivity.
Qed.

Lemma framer_at_lt c (k : nat) m (rest : list (list byte)) :
  bgp_message m -> framer_at c k (m :: rest) -> (k < length m)%nat.
Proof.
  intros ((_ & Hlo & _) & _) [[-> _] | (m' & rest' & [= <- <-] & Hk & _)].
  - unfold BGP_MH_HEAD_L in Hlo. lia.
  - exact Hk.
Qed.

(** Two ways to cut the same list. *)
Lemma app_eq_short (l1 l2 l3 l4 : list byte) :
  l1 ++ l2 = l3 ++ l4 -> (length l3 <= length l1)%nat ->
  l1 = l3 ++ drop (length l3) l1.
Proof.
  intros Heq Hlen.
  rewrite <- (take_drop (length l3) l1) at 1. f_equal.
  rewrite <- (take_app_le l1 l2) by lia.
  rewrite Heq. apply take_app_length.
Qed.

Lemma app_eq_long (l1 l2 l3 l4 : list byte) :
  l1 ++ l2 = l3 ++ l4 -> (length l1 <= length l3)%nat ->
  l3 = l1 ++ drop (length l1) l3 /\ l2 = drop (length l1) l3 ++ l4.
Proof.
  intros Heq Hlen.
  pose proof (app_eq_short l3 l4 l1 l2 (eq_sym Heq) Hlen) as Hl3.
  split; [exact Hl3|].
  rewrite Hl3, <- app_assoc in Heq.
  apply app_inv_head in Heq. exact Heq.
Qed.

Lemma read_while_readable_dry (calls : nat) c (e : rx_end) :
  read_while_readable calls c (mk_rx [] e) = Ok (c, [], mk_rx [] e).
Proof. destruct calls; reflexivity. Qed.

(** Reading the socket dry dispatches the messages that complete in what
    has arrived, in their order, and stops inside the next. *)
Lemma read_while_readable_frames (calls : nat) :
  forall data c (k : nat) (msgs : list (list byte)) (later : list byte),
    (length data <= calls)%nat ->
    Forall bgp_message msgs -> framer_at c k msgs ->
    drop k (concat msgs) = data ++ later ->
    exists c' (k' : nat) (done msgs' : list (list byte)),
      read_while_readable calls c (mk_rx data Rx_would_block)
      = Ok (c', map Msg_dispatch done, mk_rx [] Rx_would_block) /\
      msgs = done ++ msgs' /\ framer_at c' k' msgs' /\
      drop k' (concat msgs') = later.
Proof.
  induction calls as [|calls IH];
    intros data c k msgs later Hcalls Hmsgs Hat Hstream.
  - destruct data; [|simpl in Hcalls; lia].
    exists c, k, [], msgs. simpl. auto.
  - destruct data as [|b data].
    { exists c, k, [], msgs. simpl. auto. }
    destruct msgs as [|m rest].
    { simpl in Hstream. rewrite drop_nil in Hstream. discriminate. }
    set (chunk := b :: data) in *.
    apply Forall_cons in Hmsgs as [Hm Hrest].
    pose proof (framer_at_lt c k m rest Hm Hat) as Hk.
    cbn [concat] in Hstream. rewrite drop_app_le in Hstream by lia.
    assert (Hdrop : length (drop k m) = (length m - k)%nat) by apply length_drop.
    destruct (Nat.ltb_spec (k + length chunk) (length m)) as [Hshort | Hlong].
    + (* the chunk ends inside the message *)
      pose proof (app_eq_short _ _ _ _ Hstream ltac:(lia)) as Hsplit.
      destruct (action_waits c k m rest chunk _ Hm Hat Hsplit Hshort)
        as (c' & Hrun & Hread).
      assert (Hlater : drop (k + length chunk) (concat (m :: rest)) = later).
      { cbn [concat]. rewrite drop_app_le, <- drop_drop by lia.
        remember (drop (length chunk) (drop k m)) as tail eqn:Htail.
        rewrite Hsplit, <- app_assoc in Hstream.
        apply app_inv_head in Hstream. exact Hstream. }
      exists c', (k + length chunk)%nat, [], (m :: rest).
      cbn [read_while_readable rx_bytes chunk]. fold chunk. rewrite Hrun.
      cbn [mbind result_bind]. rewrite read_while_readable_dry.
      split; [reflexivity|]. split; [reflexivity|].
      split; [right; eauto | exact Hlater].
    + (* the chunk has the rest of the message *)
      destruct (app_eq_long _ _ _ _ Hstream ltac:(lia)) as [Hsplit Hnext].
      destruct (action_completes c k m rest (drop (length (drop k m)) chunk)
                  Hm Hat) as (c1 & Hrun & Hidle).
      rewrite <- Hsplit in Hrun.
      destruct (IH (drop (length (drop k m)) chunk) c1 0%nat rest later)
        as (c' & k' & done & msgs' & Hrun' & Hdone & Hat' & Hlater).
      { rewrite length_drop. subst chunk. simpl in *. lia. }
      { exact Hrest. }
      { left. auto. }
      { rewrite drop_0. exact Hnext. }
      exists c', k', (m :: done), msgs'.
      cbn [read_while_readable rx_bytes chunk]. fold chunk. rewrite Hrun.
      simpl. rewrite Hrun'. simpl.
      split; [reflexivity|]. split; [rewrite Hdone; reflexivity|].
      split; assumption.
Qed.

(** Feeding the chunks dispatches the messages of the stream. *)
Lemma feed_frames (chunks : list (list byte)) :
  forall c (k : nat) (msgs : list (list byte)),
    Forall bgp_message msgs -> framer_at c k msgs ->
    drop k (concat msgs) = concat chunks ->
    exists c',
      feed chunks c = Ok (c', map Msg_dispatch msgs) /\ read_pending c' = 0.
Proof.
  induction chunks as [|chunk chunks IH]; intros c k msgs Hmsgs Hat Hstream.
  - destruct msgs as [|m rest].
    + exists c. split; [reflexivity|].
      destruct Hat as [[_ Hidle] | (m & rest & Hnil & _)];
        [exact Hidle | discriminate].
    + apply Forall_cons in Hmsgs as [Hm _].
      pose proof (framer_at_lt c k m rest Hm Hat) as Hk.
      simpl in Hstream. rewrite drop_app_le in Hstream by lia.
      apply (f_equal length) in Hstream.
      rewrite length_app, length_drop in Hstream. simpl in Hstream. lia.
  - simpl in Hstream.
    destruct (read_while_readable_frames (length chunk) chunk c k msgs
                (concat chunks) ltac:(lia) Hmsgs Hat Hstream)
      as (c1 & k1 & done & msgs' & Hrun & Hdone & Hat1 & Hlater).
    subst msgs. apply Forall_app in Hmsgs as [_ Hmsgs'].
    destruct (IH c1 k1 msgs' Hmsgs' Hat1 Hlater) as (c' & Hfeed & Hidle).
    exists c'. cbn [feed]. rewrite Hrun. simpl. rewrite Hfeed. simpl.
    rewrite map_app. split; [reflexivity | exact Hidle].
Qed.

(** Two turns are all the loop ever takes: the second reads the body. *)
Lemma read_action_loop_body_returns (fuel : nat) c (want : Z) rx :
  read_header c = false ->
  exists r, read_action_loop (S fuel) c want rx = Ok r.
Proof.
  intros Hhdr. cbn [read_action_loop].
  destruct (stream_read_unblock _ _ _ _) as [[[ret errno] s] rx1].
  destruct (ret >=? 0); [|eauto].
  destruct (negb (want - ret =? 0)); [eauto|].
  simpl. rewrite Hhdr. simpl. eauto.
Qed.

Lemma read_action_loop_returns c (want : Z) rx :
  exists r, read_action_loop 2 c want rx = Ok r.
Proof.
  cbn [read_action_loop].
  destruct (stream_read_unblock _ _ _ _) as [[[ret errno] s] rx1].
  destruct (ret >=? 0); [|eauto].
  destruct (negb (want - ret =? 0)); [eauto|].
  destruct (negb (read_header (with_ibuf s c))); [eauto|].
  destruct (bgp_msg_check_header _) as [want' evs].
  destruct (want' <? 0); [eauto|].
  exact (read_action_loop_body_returns 0 (with_read_header false (with_ibuf s c))
           want' rx1 eq_refl).
Qed.

Lemma read_action_returns c rx :
  exists r, bgp_connection_read_action 2 c rx = Ok r.
Proof.
  unfold bgp_connection_read_action.
  destruct (read_pending c =? 0);
    match goal with
    | |- context [read_action_loop 2 ?c0 ?w ?rx0] =>
        destruct (read_action_loop_returns c0 w rx0) as [[[[x c1] evs] rx1] ->]
    end; simpl; destruct x; eauto.
Qed.

(** The loop raises no dispatch itself. *)
Lemma read_action_loop_events (fuel : nat) :
  forall c (want : Z) rx x c' evs rx',
    read_action_loop fuel c want rx = Ok (x, c', evs, rx') ->
    forall msg, Msg_dispatch msg ∉ evs.
Proof.
  induction fuel as [|fuel IH]; intros c want rx x c' evs rx' Hrun msg Hin.
  - discriminate.
  - cbn [read_action_loop] in Hrun.
    destruct (stream_read_unblock _ _ _ _) as [[[ret errno] s] rx1].
    destruct (ret >=? 0).
    + destruct (negb (want - ret =? 0)).
      { injection Hrun as <- <- <- <-. inversion Hin. }
      simpl in Hrun. destruct (negb (read_header c)).
      { injection Hrun as <- <- <- <-. inversion Hin. }
      unfold bgp_msg_check_header in Hrun.
      destruct (msg_mlen _) as [len|]; [destruct (_ !! 18%nat) as [ty|]|].
      * destruct (_ && _).
        -- destruct (len - BGP_MH_HEAD_L <? 0).
           ++ injection Hrun as <- <- <- <-. inversion Hin.
           ++ exact (IH _ _ _ _ _ _ _ Hrun msg Hin).
        -- simpl in Hrun. injection Hrun as <- <- <- <-.
           apply list_elem_of_singleton in Hin. discriminate.
      * simpl in Hrun. injection Hrun as <- <- <- <-.
        apply list_elem_of_singleton in Hin. discriminate.
      * simpl in Hrun. injection Hrun as <- <- <- <-.
        apply list_elem_of_singleton in Hin. discriminate.
    + injection Hrun as <- <- <- <-.
      apply list_elem_of_singleton in Hin. discriminate.
Qed.

(** A call of the read action that dispatches leaves nothing pending. *)
Lemma read_action_dispatch_pending (fuel : nat) c rx c' evs rx' msg :
  bgp_connection_read_action fuel c rx = Ok (c', evs, rx') ->
  Msg_dispatch msg ∈ evs -> read_pending c' = 0.
Proof.
  unfold bgp_connection_read_action.
  destruct (read_pending c =? 0);
    (destruct (read_action_loop fuel _ _ rx) as [[[[x c1] evs1] rx1]|] eqn:Hloop;
     [|discriminate]);
    simpl; destruct x; intros [= <- <- <-] Hin;
    try reflexivity;
    exfalso; exact (read_action_loop_events _ _ _ _ _ _ _ _ Hloop msg Hin).
Qed.

End framer.

(** C8: a stream of well-formed messages that arrives in chunks, cut
    anywhere, is dispatched message by message: with the read action called
    while the socket is readable after each chunk, the FSM gets exactly the
    messages of the stream, in their order and each once, and nothing else;
    at the end nothing is pending, and every call of the read action that
    dispatches leaves [read_pending] at 0. *)
Theorem framer_reassembles (msgs chunks : list (list byte)) (c : bgp_connection) :
  Forall bgp_message msgs ->
  concat chunks = concat msgs ->
  read_pending c = 0 ->
  (exists c',
      feed chunks c = Ok (c', map Msg_dispatch msgs) /\ read_pending c' = 0) /\
  (forall fuel c1 rx c2 evs rx' msg,
      bgp_connection_read_action fuel c1 rx = Ok (c2, evs, rx') ->
      Msg_dispatch msg ∈ evs -> read_pending c2 = 0).
Proof.
  intros Hmsgs Hstream Hidle. split.
  - apply (feed_frames chunks c 0%nat msgs Hmsgs).
    + left. auto.
    + rewrite drop_0. symmetry. exact Hstream.
  - intros fuel c1 rx c2 evs rx' msg.
    apply read_action_dispatch_pending.
Qed.

Lemma keepalive_message : bgp_message keepalive.
Proof.
  split; [split; [reflexivity | vm_compute; split; discriminate]|].
  split; [reflexivity|]. exists x04. split; reflexivity.
Qed.

(** Scenario S3: a KEEPALIVE in chunks of 10, 8 and 1 bytes is dispatched
    once, as a message of type 4 and 19 bytes. *)
Lemma framer_s3 :
  exists c',
    feed [take 10 keepalive; take 8 (drop 10 keepalive); drop 18 keepalive]
      connection_open
    = Ok (c', [Msg_dispatch keepalive]) /\
    read_pending c' = 0 /\
    keepalive !! 18%nat = Some x04 /\ length keepalive = 19%nat.
Proof.
  destruct (framer_reassembles [keepalive]
              [take 10 keepalive; take 8 (drop 10 keepalive); drop 18 keepalive]
              connection_open)
    as [(c' & Hfeed & Hidle) _].
  - exact (Forall_cons_2 _ _ _ keepalive_message (Forall_nil_2 _)).
  - reflexivity.
  - reflexivity.
  - exists c'. repeat split; assumption.
Defined.

(** ** Processing the connection queue *)


Example one_ready_queue :
  bgp_connection_queue one_ready = Some 0%nat /\
  (c ← load (Some 0%nat) one_ready; Ok (next c, prev c, mq_blocks (pending_queue c)))
  = Ok (Some 0%nat, Some 0%nat, [1; 2]).
Proof. split; vm_compute; reflexivity. Qed.

Lemma queue_process_unfold (fuel : nat) (e : bgp_engine) :
  bgp_connection_queue_process (S fuel) e =
  match bgp_connection_queue e with
  | None => Ok e
  | Some _ =>
      c ← load (bgp_connection_queue e) e;
      e ← (if fsm_state_eqb (state c) bgp_fsm_Stopping
           then bgp_connection_reset (bgp_connection_queue e)
                  (with_queue (next c) e)
           else Ok (with_queue (next c) e));
      bgp_connection_queue_process fuel e
  end.
Proof. reflexivity. Qed.

Lemma one_ready_turn (fuel : nat) :
  bgp_connection_queue_process (S fuel) one_ready =
  bgp_connection_queue_process fuel one_ready.
Proof.
  rewrite queue_process_unfold.
  change (bgp_connection_queue one_ready) with (Some 0%nat).
  replace (load (Some 0%nat) one_ready)
    with (Ok (the zero_connection (load (Some 0%nat) one_ready)))
    by (vm_compute; reflexivity).
  reflexivity.
Qed.

(** C9, on the code: with one connection on the queue that is not Stopping,
    [bgp_connection_queue_process] does not come to an end however many turns
    of its loop are run: each turn steps the queue to [connection->next],
    which is the connection itself, and nothing drains its pending queue or
    takes it off the connection queue. *)
Theorem queue_process_never_ends (fuel : nat) :
  bgp_connection_queue_process fuel one_ready = Fault OutOfFuel.
Proof.
  induction fuel as [|fuel IH].
  - reflexivity.
  - rewrite one_ready_turn. exact IH.
Qed.

(** Connections that are Stopping are reaped, and then the queue empties. *)
Example queue_process_reaps :
  (e ← engine_stopping;
   e ← bgp_connection_queue_process 2 e;
   c0 ← load (Some 0%nat) e;
   c1 ← load (Some 1%nat) e;
   Ok (bgp_connection_queue e, (next c0, prev c0), (next c1, prev c1)))
  = Ok (None, (None, None), (None, None)).
Proof. vm_compute. reflexivity. Qed.

(** ** The connection queue as a ring *)

Section queue_ring.

Implicit Types (e : bgp_engine) (p r a b z h : conn_ref) (l : list conn_ref)
  (c : bgp_connection).

Lemma nxt_insert e (m : gmap conn_ref bgp_connection) p c r :
  nxt (with_conns (<[p := c]> m) e) r
  = if decide (p = r) then next c else m !! r ≫= next.
Proof.
  unfold nxt. simpl. rewrite lookup_insert. case_decide; reflexivity.
Qed.

Lemma prv_insert e (m : gmap conn_ref bgp_connection) p c r :
  prv (with_conns (<[p := c]> m) e) r
  = if decide (p = r) then prev c else m !! r ≫= prev.
Proof.
  unfold prv. simpl. rewrite lookup_insert. case_decide; reflexivity.
Qed.

Ltac heap_run :=
  repeat first
    [ rewrite lookup_insert_eq
    | rewrite lookup_insert_ne by congruence
    | match goal with
      | H : _ !! _ = Some _ |- _ => rewrite H
      | H : next _ = _ |- _ => rewrite H
      | H : prev _ = _ |- _ => rewrite H
      | H : bgp_connection_queue _ = _ |- _ => rewrite H
      end
    | progress cbn ].

(** Adding to the empty queue. *)
Lemma queue_add_empty e p c :
  conns e !! p = Some c -> next c = None -> bgp_connection_queue e = None ->
  bgp_connection_queue_add (Some p) e
  = Ok (with_conns (<[p := with_prev (Some p) (with_next (Some p) c)]> (conns e))
          (with_queue (Some p) e)).
Proof.
  intros Hc Hn Hq.
  unfold bgp_connection_queue_add, assign, load, store.
  repeat (cbn; rewrite ?Hc, ?Hn, ?Hq, ?lookup_insert_eq).
  rewrite insert_insert_eq. reflexivity.
Qed.

(** Adding behind the current entry [h], whose predecessor is [z]. *)
Lemma queue_add_behind e p c h ch z cz :
  conns e !! p = Some c -> next c = None ->
  bgp_connection_queue e = Some h ->
  conns e !! h = Some ch -> prev ch = Some z -> conns e !! z = Some cz ->
  p <> h -> p <> z ->
  exists e',
    bgp_connection_queue_add (Some p) e = Ok e' /\
    bgp_connection_queue e' = Some h /\
    sessions e' = sessions e /\ events e' = events e /\
    (forall r, nxt e' r = if decide (r = p) then Some h
                          else if decide (r = z) then Some p else nxt e r) /\
    (forall r, prv e' r = if decide (r = p) then Some z
                          else if decide (r = h) then Some p else prv e r) /\
    (forall r, unlinked <$> conns e' !! r = unlinked <$> conns e !! r).
Proof.
  intros Hc Hn Hq Hh Hprev Hz Hph Hpz.
  unfold bgp_connection_queue_add, assign, load, store.
  destruct (decide (z = h)) as [-> | Hzh].
  - rewrite Hh in Hz. injection Hz as <-. heap_run.
    eexists. split; [reflexivity|]. cbn.
    split; [assumption|]. split; [reflexivity|]. split; [reflexivity|].
    split; [|split]; intros r; unfold nxt, prv; cbn;
      rewrite !lookup_insert; repeat case_decide; subst;
      try congruence; try reflexivity; rewrite ?Hc, ?Hh; reflexivity.
  - assert (Hhz : h <> z) by congruence.
    heap_run.
    eexists. split; [reflexivity|]. cbn.
    split; [assumption|]. split; [reflexivity|]. split; [reflexivity|].
    split; [|split]; intros r; unfold nxt, prv; cbn;
      rewrite !lookup_insert; repeat case_decide; subst;
      try congruence; try reflexivity; rewrite ?Hc, ?Hh, ?Hz; reflexivity.
Qed.

(** Deleting the only item. *)
Lemma queue_del_only e p c :
  conns e !! p = Some c -> next c = Some p -> prev c = Some p ->
  bgp_connection_queue e = Some p ->
  exists e',
    bgp_connection_queue_del (Some p) e = Ok e' /\
    bgp_connection_queue e' = None /\
    sessions e' = sessions e /\ events e' = events e /\
    (forall r, nxt e' r = if decide (r = p) then None else nxt e r) /\
    (forall r, prv e' r = if decide (r = p) then None else prv e r) /\
    (forall r, unlinked <$> conns e' !! r = unlinked <$> conns e !! r).
Proof.
  intros Hc Hn Hp Hq.
  unfold bgp_connection_queue_del, assign, load, store.
  heap_run. rewrite Nat.eqb_refl. heap_run.
  eexists. split; [reflexivity|]. cbn.
  split; [reflexivity|]. split; [reflexivity|]. split; [reflexivity|].
  split; [|split]; intros r; unfold nxt, prv; cbn;
    rewrite !lookup_insert; repeat case_decide; subst;
    try congruence; try reflexivity; rewrite ?Hc; reflexivity.
Qed.

(** Deleting an item [p] that has other neighbours, [q] before it and [n]
    after it. *)
Lemma queue_del_between e p c n cn q cq :
  conns e !! p = Some c -> next c = Some n -> prev c = Some q ->
  conns e !! n = Some cn -> conns e !! q = Some cq ->
  n <> p -> q <> p ->
  exists e',
    bgp_connection_queue_del (Some p) e = Ok e' /\
    bgp_connection_queue e'
    = (if decide (bgp_connection_queue e = Some p) then Some n
       else bgp_connection_queue e) /\
    sessions e' = sessions e /\ events e' = events e /\
    (forall r, nxt e' r = if decide (r = p) then None
                          else if decide (r = q) then Some n else nxt e r) /\
    (forall r, prv e' r = if decide (r = p) then None
                          else if decide (r = n) then Some q else prv e r) /\
    (forall r, unlinked <$> conns e' !! r = unlinked <$> conns e !! r).
Proof.
  intros Hc Hn Hp Hcn Hcq Hnp Hqp.
  unfold bgp_connection_queue_del, assign, load, store.
  assert (Hpn : Nat.eqb p n = false) by (apply Nat.eqb_neq; congruence).
  assert (Hqueue : exists e0,
             (if ref_eqb (Some p) (bgp_connection_queue e)
              then with_queue (Some n) e else e) = e0 /\
             conns e0 = conns e /\ sessions e0 = sessions e /\
             events e0 = events e /\
             bgp_connection_queue e0
             = (if decide (bgp_connection_queue e = Some p) then Some n
                else bgp_connection_queue e)).
  { eexists. split; [reflexivity|].
    destruct (bgp_connection_queue e) as [hq|] eqn:Hq; cbn [ref_eqb].
    - destruct (Nat.eqb_spec p hq) as [-> | Hne]; case_decide;
        try congruence; cbn; auto.
    - case_decide; [congruence|]. cbn. auto. }
  destruct Hqueue as (e0 & He0 & Hconns & Hsess & Hev & Hq0).
  cbn [deref mbind result_bind]. rewrite Hc. cbn [deref mbind result_bind].
  cbv beta. rewrite !Hn. change (ref_eqb (Some p) (Some n)) with (Nat.eqb p n).
  rewrite Hpn, He0.
  rewrite <- Hconns in Hc, Hcn, Hcq. rewrite <- Hsess, <- Hev, <- Hq0.
  clear He0 Hq0 Hsess Hev.
  destruct (decide (n = q)) as [-> | Hnq].
  - rewrite Hcq in Hcn. injection Hcn as <-. heap_run.
    eexists. split; [reflexivity|]. cbn.
    split; [reflexivity|]. split; [reflexivity|]. split; [reflexivity|].
    split; [|split]; intros r; unfold nxt, prv; cbn;
      rewrite !lookup_insert, <- ?Hconns; repeat case_decide; subst;
      try congruence; try reflexivity; rewrite ?Hc, ?Hcq; reflexivity.
  - heap_run.
    eexists. split; [reflexivity|]. cbn.
    split; [reflexivity|]. split; [reflexivity|]. split; [reflexivity|].
    split; [|split]; intros r; unfold nxt, prv; cbn;
      rewrite !lookup_insert, <- ?Hconns; repeat case_decide; subst;
      try congruence; try reflexivity; rewrite ?Hc, ?Hcq, ?Hcn; reflexivity.
Qed.

(** *** Chains *)

Lemma nxt_lookup e r c : conns e !! r = Some c -> nxt e r = next c.
Proof. intros H. unfold nxt. rewrite H. reflexivity. Qed.

Lemma prv_lookup e r c : conns e !! r = Some c -> prv e r = prev c.
Proof. intros H. unfold prv. rewrite H. reflexivity. Qed.

Lemma nxt_Some e r x :
  nxt e r = Some x -> exists c, conns e !! r = Some c /\ next c = Some x.
Proof.
  unfold nxt. destruct (conns e !! r) as [c|]; [|discriminate]. eauto.
Qed.

Lemma prv_Some e r x :
  prv e r = Some x -> exists c, conns e !! r = Some c /\ prev c = Some x.
Proof.
  unfold prv. destruct (conns e !! r) as [c|]; [|discriminate]. eauto.
Qed.

Lemma chain_app e l1 : forall a b l2 z,
  chain e a (l1 ++ b :: l2) z <-> chain e a l1 b /\ chain e b l2 z.
Proof.
  induction l1 as [|x l1 IH]; intros a b l2 z; simpl.
  - reflexivity.
  - rewrite IH. tauto.
Qed.

Lemma chain_snoc e l a b z :
  chain e a (l ++ [b]) z <-> chain e a l b /\ links e b z.
Proof. apply chain_app. Qed.

(** A chain survives a change of the heap that leaves alone [next] of the
    connections it leaves from and [prev] of those it arrives at. *)
Lemma chain_frame e e' l : forall a z,
  (forall x, x ∈ a :: l -> nxt e' x = nxt e x) ->
  (forall y, y ∈ l ++ [z] -> prv e' y = prv e y) ->
  chain e a l z -> chain e' a l z.
Proof.
  induction l as [|b l IH]; intros a z Hn Hp; simpl.
  - intros [H1 H2]. split.
    + rewrite Hn; [exact H1 | apply list_elem_of_here].
    + rewrite Hp; [exact H2 | apply list_elem_of_here].
  - intros [[H1 H2] Hrest]. split; [split|].
    + rewrite Hn; [exact H1 | apply list_elem_of_here].
    + rewrite Hp; [exact H2 | apply list_elem_of_here].
    + apply IH; [| |exact Hrest].
      * intros x Hx. apply Hn. apply list_elem_of_further. exact Hx.
      * intros y Hy. apply Hp. simpl. apply list_elem_of_further. exact Hy.
Qed.

(** The last link of a chain. *)
Lemma chain_last e l : forall a z,
  chain e a l z ->
  exists y, links e y z /\
            ((l = [] /\ y = a) \/ (exists l0, l = l0 ++ [y] /\ chain e a l0 y)).
Proof.
  induction l as [|b l IH]; intros a z; simpl.
  - intros H. exists a. split; [exact H | left; auto].
  - intros [Hab Hrest].
    destruct (IH b z Hrest) as (y & Hy & [[-> ->] | (l0 & -> & Hl0)]).
    + exists b. split; [exact Hy|]. right. exists []. simpl. auto.
    + exists y. split; [exact Hy|]. right. exists (b :: l0). simpl. auto.
Qed.

(** Everything on a chain has its [next] set, and what follows its [prev]. *)
Lemma chain_nxt e l : forall a z x,
  chain e a l z -> x ∈ a :: l -> is_Some (nxt e x).
Proof.
  induction l as [|b l IH]; intros a z x; simpl.
  - intros [H _] Hx. apply list_elem_of_singleton in Hx as ->. eauto.
  - intros [[H _] Hrest] Hx. apply elem_of_cons in Hx as [-> | Hx]; [eauto|].
    exact (IH b z x Hrest Hx).
Qed.

Lemma chain_prv e l : forall a z y,
  chain e a l z -> y ∈ l ++ [z] -> is_Some (prv e y).
Proof.
  induction l as [|b l IH]; intros a z y; simpl.
  - intros [_ H] Hy. apply list_elem_of_singleton in Hy as ->. eauto.
  - intros [[_ H] Hrest] Hy. apply elem_of_cons in Hy as [-> | Hy]; [eauto|].
    exact (IH b z y Hrest Hy).
Qed.

(** Who is not in the ring is not linked. *)
Lemma ring_outside e l r :
  ring e l -> r ∉ l -> nxt e r = None /\ prv e r = None.
Proof.
  intros (_ & _ & Hout) Hr. unfold nxt, prv.
  destruct (conns e !! r) as [c|] eqn:Hc; [|auto].
  exact (Hout r c Hc Hr).
Qed.

Lemma outside_unlinked e' l' :
  (forall r, r ∉ l' -> nxt e' r = None /\ prv e' r = None) ->
  forall r c, conns e' !! r = Some c -> r ∉ l' -> next c = None /\ prev c = None.
Proof.
  intros Hout r c Hc Hr. destruct (Hout r Hr) as [Hn Hp].
  rewrite (nxt_lookup e' r c Hc) in Hn. rewrite (prv_lookup e' r c Hc) in Hp.
  auto.
Qed.

(** Adding a connection that is not on the queue puts it at the end of the
    ring, behind the connection the queue points to. *)
Lemma queue_add_ring e l p c :
  ring e l -> conns e !! p = Some c -> p ∉ l ->
  exists e',
    bgp_connection_queue_add (Some p) e = Ok e' /\
    ring e' (l ++ [p]) /\
    sessions e' = sessions e /\ events e' = events e /\
    (forall r, unlinked <$> conns e' !! r = unlinked <$> conns e !! r).
Proof.
  intros Hring Hc Hp.
  pose proof Hring as (Hnd & Hshape & Hout).
  destruct (Hout p c Hc Hp) as [Hnext Hprev].
  destruct l as [|h t].
  - (* the queue is empty *)
    rewrite (queue_add_empty e p c Hc Hnext Hshape).
    eexists. split; [reflexivity|]. split; [|split; [reflexivity|split]].
    + split; [apply NoDup_singleton|]. split.
      * split; [reflexivity|]. split; [rewrite nxt_insert | rewrite prv_insert];
          rewrite decide_True by reflexivity; reflexivity.
      * intros r c' Hc' Hr.
        assert (Hrp : p <> r) by (intros ->; apply Hr, list_elem_of_here).
        simpl in Hc'. rewrite lookup_insert_ne in Hc' by assumption.
        apply (Hout r c' Hc'). apply not_elem_of_nil.
    + reflexivity.
    + intros r. simpl. rewrite lookup_insert. case_decide; [|reflexivity].
      subst r. rewrite Hc. reflexivity.
  - (* behind the current entry *)
    destruct Hshape as [Hq Hchain].
    destruct (chain_last e t h h Hchain) as (z & [Hzh Hhz] & Hcase).
    destruct (prv_Some e h z Hhz) as (ch & Hch & Hprevh).
    destruct (nxt_Some e z h Hzh) as (cz & Hcz & _).
    assert (Hzl : z ∈ h :: t).
    { destruct Hcase as [[-> ->] | (l0 & -> & _)].
      - apply list_elem_of_here.
      - apply list_elem_of_further, elem_of_app. right. apply list_elem_of_here. }
    assert (Hph : p <> h) by (intros ->; apply Hp, list_elem_of_here).
    assert (Hpz : p <> z) by (intros ->; exact (Hp Hzl)).
    destruct (queue_add_behind e p c h ch z cz Hc Hnext Hq Hch Hprevh Hcz Hph Hpz)
      as (e' & Hrun & Hq' & Hs' & Hev' & Hnxt' & Hprv' & Hframe).
    exists e'. split; [exact Hrun|]. split; [|auto].
    assert (Hnxt_old : forall x, x <> p -> x <> z -> nxt e' x = nxt e x).
    { intros x H1 H2. rewrite Hnxt'. rewrite !decide_False by assumption.
      reflexivity. }
    assert (Hprv_old : forall y, y <> p -> y <> h -> prv e' y = prv e y).
    { intros y H1 H2. rewrite Hprv'. rewrite !decide_False by assumption.
      reflexivity. }
    assert (Hnxt_p : nxt e' p = Some h)
      by (rewrite Hnxt', decide_True by reflexivity; reflexivity).
    assert (Hprv_p : prv e' p = Some z)
      by (rewrite Hprv', decide_True by reflexivity; reflexivity).
    assert (Hnxt_z : nxt e' z = Some p).
    { rewrite Hnxt'. rewrite decide_False by congruence.
      rewrite decide_True by reflexivity. reflexivity. }
    assert (Hprv_h : prv e' h = Some p).
    { rewrite Hprv'. rewrite decide_False by congruence.
      rewrite decide_True by reflexivity. reflexivity. }
    split; [|split].
    + apply (NoDup_app (h :: t) [p]). split; [exact Hnd|]. split; [|apply NoDup_singleton].
      intros x Hx Hxp. apply list_elem_of_singleton in Hxp as ->. exact (Hp Hx).
    + simpl. split; [exact Hq'|].
      apply chain_snoc. split; [|split; assumption].
      destruct Hcase as [[-> ->] | (l0 & -> & Hl0)].
      * simpl. split; assumption.
      * apply chain_snoc. split; [|split; assumption].
        apply NoDup_cons in Hnd as [Hh Hnd].
        apply NoDup_app in Hnd as (_ & Hdisj & _).
        apply (chain_frame e e'); [| |exact Hl0].
        -- intros x Hx. apply Hnxt_old.
           ++ intros ->. apply Hp. apply elem_of_cons in Hx as [-> | Hx].
              ** apply list_elem_of_here.
              ** apply list_elem_of_further, elem_of_app. left. exact Hx.
           ++ intros ->. apply elem_of_cons in Hx as [-> | Hx].
              ** apply Hh, elem_of_app. right. apply list_elem_of_here.
              ** apply (Hdisj z Hx), list_elem_of_here.
        -- intros y Hy. apply Hprv_old.
           ++ intros ->. apply Hp. apply list_elem_of_further. exact Hy.
           ++ intros ->. exact (Hh Hy).
    + apply outside_unlinked.
      intros r Hr.
      assert (Hrp : r <> p).
      { intros ->. apply Hr, elem_of_app. right. apply list_elem_of_here. }
      assert (Hrl : r ∉ h :: t).
      { intros H. apply Hr, elem_of_app. left. exact H. }
      assert (Hrz : r <> z) by (intros ->; exact (Hrl Hzl)).
      assert (Hrh : r <> h) by (intros ->; apply Hrl, list_elem_of_here).
      rewrite (Hnxt_old r Hrp Hrz), (Hprv_old r Hrp Hrh).
      exact (ring_outside e (h :: t) r Hring Hrl).
Qed.

Lemma ring_member e l p :
  ring e l -> p ∈ l ->
  exists c x y, conns e !! p = Some c /\ next c = Some x /\ prev c = Some y.
Proof.
  intros (_ & Hshape & _) Hp.
  destruct l as [|h t]; [apply elem_of_nil in Hp; contradiction|].
  destruct Hshape as [_ Hchain].
  destruct (chain_nxt e t h h p Hchain Hp) as [x Hx].
  assert (Hp' : p ∈ t ++ [h]).
  { apply elem_of_app. apply elem_of_cons in Hp as [-> | Hp].
    - right. apply list_elem_of_here.
    - left. exact Hp. }
  destruct (chain_prv e t h h p Hchain Hp') as [y Hy].
  destruct (nxt_Some e p x Hx) as (c & Hc & Hnext).
  rewrite (prv_lookup e p c Hc) in Hy. exists c, x, y. auto.
Qed.

(** Adding a connection that is on the queue changes nothing. *)
Lemma queue_add_on_ring e l p :
  ring e l -> p ∈ l -> bgp_connection_queue_add (Some p) e = Ok e.
Proof.
  intros Hring Hp.
  destruct (ring_member e l p Hring Hp) as (c & x & y & Hc & Hnext & _).
  unfold bgp_connection_queue_add, load. simpl. rewrite Hc. simpl.
  rewrite Hnext. reflexivity.
Qed.

(** Deleting a connection that is not on the queue changes nothing. *)
Lemma queue_del_off_ring e l p c :
  ring e l -> conns e !! p = Some c -> p ∉ l ->
  bgp_connection_queue_del (Some p) e = Ok e.
Proof.
  intros (_ & _ & Hout) Hc Hp. destruct (Hout p c Hc Hp) as [Hnext _].
  unfold bgp_connection_queue_del, load. simpl. rewrite Hc. simpl.
  rewrite Hnext. reflexivity.
Qed.

Lemma NoDup_remove_mid (l1 l2 : list conn_ref) p :
  NoDup (l1 ++ p :: l2) ->
  NoDup (l1 ++ l2) /\ (p ∉ l1) /\ (p ∉ l2) /\ (forall x, x ∈ l1 -> x ∉ l2).
Proof.
  intros H. apply NoDup_app in H as (H1 & Hdisj & H2).
  apply NoDup_cons in H2 as [Hp2 H2].
  split; [|split; [|split]].
  - apply NoDup_app. split; [exact H1|]. split; [|exact H2].
    intros x Hx Hx2. apply (Hdisj x Hx). apply list_elem_of_further. exact Hx2.
  - intros Hp1. apply (Hdisj p Hp1). apply list_elem_of_here.
  - exact Hp2.
  - intros x Hx Hx2. apply (Hdisj x Hx). apply list_elem_of_further. exact Hx2.
Qed.

(** Deleting a connection takes it out of the ring and leaves the others in
    their order; when it was the one the queue points to, the queue steps to
    the next. *)
Lemma queue_del_ring e (l1 l2 : list conn_ref) p :
  ring e (l1 ++ p :: l2) ->
  exists e',
    bgp_connection_queue_del (Some p) e = Ok e' /\
    ring e' (l1 ++ l2) /\
    sessions e' = sessions e /\ events e' = events e /\
    (forall r, unlinked <$> conns e' !! r = unlinked <$> conns e !! r).
Proof.
  intros Hring.
  pose proof Hring as (Hnd & Hshape & Hout).
  destruct (NoDup_remove_mid l1 l2 p Hnd) as (Hnd' & Hp1 & Hp2 & Hdisj).
  destruct l1 as [|h l1]; simpl in *.
  - destruct Hshape as [Hq Hchain].
    destruct l2 as [|n l2]; simpl in *.
    + (* the only item *)
      destruct Hchain as [Hpp Hpp'].
      destruct (nxt_Some e p p Hpp) as (c & Hc & Hnext).
      pose proof Hpp' as Hprev. rewrite (prv_lookup e p c Hc) in Hprev.
      destruct (queue_del_only e p c Hc Hnext Hprev Hq)
        as (e' & Hrun & Hq' & Hs' & Hev' & Hnxt' & Hprv' & Hframe).
      exists e'. split; [exact Hrun|]. split; [|auto].
      split; [constructor|]. split; [exact Hq'|].
      apply outside_unlinked. intros r _. rewrite Hnxt', Hprv'.
      case_decide; [auto|].
      apply (ring_outside e [p] r Hring). intros Hr.
      apply list_elem_of_singleton in Hr. contradiction.
    + (* the first of several *)
      destruct Hchain as [[Hpn Hnp] Hchain].
      destruct (chain_last e l2 n p Hchain) as (q & [Hqp Hpq] & Hcase).
      destruct (nxt_Some e p n Hpn) as (c & Hc & Hnext).
      pose proof Hpq as Hprev. rewrite (prv_lookup e p c Hc) in Hprev.
      destruct (prv_Some e n p Hnp) as (cn & Hcn & _).
      destruct (nxt_Some e q p Hqp) as (cq & Hcq & _).
      assert (Hne : n <> p) by (intros ->; apply Hp2, list_elem_of_here).
      assert (Hql : q ∈ n :: l2).
      { destruct Hcase as [[-> ->] | (l0 & -> & _)].
        - apply list_elem_of_here.
        - apply list_elem_of_further, elem_of_app. right. apply list_elem_of_here. }
      assert (Hqe : q <> p) by (intros ->; exact (Hp2 Hql)).
      destruct (queue_del_between e p c n cn q cq Hc Hnext Hprev Hcn Hcq Hne Hqe)
        as (e' & Hrun & Hq' & Hs' & Hev' & Hnxt' & Hprv' & Hframe).
      rewrite decide_True in Hq' by exact Hq.
      exists e'. split; [exact Hrun|]. split; [|auto].
      assert (Hnxt_old : forall x, x <> p -> x <> q -> nxt e' x = nxt e x).
      { intros x H1 H2. rewrite Hnxt', !decide_False by assumption. reflexivity. }
      assert (Hprv_old : forall y, y <> p -> y <> n -> prv e' y = prv e y).
      { intros y H1 H2. rewrite Hprv', !decide_False by assumption. reflexivity. }
      assert (Hnxt_q : nxt e' q = Some n).
      { rewrite Hnxt', decide_False, decide_True by congruence. reflexivity. }
      assert (Hprv_n : prv e' n = Some q).
      { rewrite Hprv', decide_False, decide_True by congruence. reflexivity. }
      split; [exact Hnd'|]. split.
      * split; [exact Hq'|].
        destruct Hcase as [[-> ->] | (l0 & -> & Hl0)].
        -- simpl. split; assumption.
        -- apply chain_snoc. split; [|split; assumption].
           apply NoDup_cons in Hnd' as [Hn0 Hnd0].
           apply NoDup_app in Hnd0 as (_ & Hd0 & _).
           apply (chain_frame e e'); [| |exact Hl0].
           ++ intros x Hx. apply Hnxt_old.
              ** intros ->. apply Hp2. apply elem_of_cons in Hx as [-> | Hx].
                 --- apply list_elem_of_here.
                 --- apply list_elem_of_further, elem_of_app. left. exact Hx.
              ** intros ->. apply elem_of_cons in Hx as [-> | Hx].
                 --- apply Hn0, elem_of_app. right. apply list_elem_of_here.
                 --- apply (Hd0 q Hx), list_elem_of_here.
           ++ intros y Hy. apply Hprv_old.
              ** intros ->. apply Hp2. apply list_elem_of_further. exact Hy.
              ** intros ->. exact (Hn0 Hy).
      * apply outside_unlinked. intros r Hr. rewrite Hnxt', Hprv'.
        case_decide; [auto|].
        assert (Hrq : r <> q) by (intros ->; exact (Hr Hql)).
        assert (Hrn : r <> n) by (intros ->; apply Hr, list_elem_of_here).
        rewrite !decide_False by assumption.
        apply (ring_outside e (p :: n :: l2) r Hring).
        intros Hin. apply elem_of_cons in Hin as [-> | Hin]; [congruence|].
        exact (Hr Hin).
  - (* not the first *)
    destruct Hshape as [Hq Hchain].
    apply chain_app in Hchain as [Hleft Hright].
    destruct (chain_last e l1 h p Hleft) as (q & [Hqp Hpq] & Hcase).
    assert (Hn : exists n, links e p n /\
                   ((l2 = [] /\ n = h) \/
                    (exists l2', l2 = n :: l2' /\ chain e n l2' h))).
    { destruct l2 as [|n l2']; simpl in Hright.
      - exists h. split; [exact Hright | left; auto].
      - destruct Hright as [Hpn Hrest]. exists n. split; [exact Hpn|].
        right. eauto. }
    destruct Hn as (n & [Hpn Hnp] & Hcase2).
    destruct (nxt_Some e p n Hpn) as (c & Hc & Hnext).
    pose proof Hpq as Hprev. rewrite (prv_lookup e p c Hc) in Hprev.
    destruct (prv_Some e n p Hnp) as (cn & Hcn & _).
    destruct (nxt_Some e q p Hqp) as (cq & Hcq & _).
    apply not_elem_of_cons in Hp1 as [Hph Hp1].
    assert (Hql : q ∈ h :: l1).
    { destruct Hcase as [[-> ->] | (l0 & -> & _)].
      - apply list_elem_of_here.
      - apply list_elem_of_further, elem_of_app. right. apply list_elem_of_here. }
    assert (Hnl : n = h \/ n ∈ l2).
    { destruct Hcase2 as [[-> ->] | (l2' & -> & _)]; [auto|].
      right. apply list_elem_of_here. }
    assert (Hqe : q <> p).
    { intros ->. apply elem_of_cons in Hql as [-> | Hql]; [congruence|].
      exact (Hp1 Hql). }
    assert (Hne : n <> p).
    { intros ->. destruct Hnl as [-> | Hnl]; [congruence | exact (Hp2 Hnl)]. }
    destruct (queue_del_between e p c n cn q cq Hc Hnext Hprev Hcn Hcq Hne Hqe)
      as (e' & Hrun & Hq' & Hs' & Hev' & Hnxt' & Hprv' & Hframe).
    rewrite decide_False in Hq' by (rewrite Hq; congruence).
    exists e'. split; [exact Hrun|]. split; [|auto].
    assert (Hnxt_old : forall x, x <> p -> x <> q -> nxt e' x = nxt e x).
    { intros x H1 H2. rewrite Hnxt', !decide_False by assumption. reflexivity. }
    assert (Hprv_old : forall y, y <> p -> y <> n -> prv e' y = prv e y).
    { intros y H1 H2. rewrite Hprv', !decide_False by assumption. reflexivity. }
    assert (Hnxt_q : nxt e' q = Some n).
    { rewrite Hnxt', decide_False, decide_True by congruence. reflexivity. }
    assert (Hprv_n : prv e' n = Some q).
    { rewrite Hprv', decide_False, decide_True by congruence. reflexivity. }
    pose proof Hnd' as Hnd''.
    apply NoDup_cons in Hnd'' as [Hh0 Hnd0].
    apply not_elem_of_app in Hh0 as [Hh1 Hh2].
    apply NoDup_app in Hnd0 as (Hnd1 & Hd12 & Hnd2).
    (* the part before [p], up to [q] *)
    assert (Hbefore : forall l0, l1 = l0 ++ [q] -> chain e h l0 q ->
                                 chain e' h l0 q).
    { intros l0 -> Hl0. apply (chain_frame e e'); [| |exact Hl0].
      - intros x Hx. apply Hnxt_old.
        + intros ->. apply elem_of_cons in Hx as [-> | Hx]; [congruence|].
          apply Hp1, elem_of_app. left. exact Hx.
        + intros ->. apply elem_of_cons in Hx as [-> | Hx].
          * apply Hh1, elem_of_app. right. apply list_elem_of_here.
          * apply NoDup_app in Hnd1 as (_ & Hd & _).
            apply (Hd q Hx), list_elem_of_here.
      - intros y Hy. apply Hprv_old.
        + intros ->. exact (Hp1 Hy).
        + intros ->. destruct Hnl as [-> | Hnl]; [exact (Hh1 Hy)|].
          exact (Hd12 n Hy Hnl). }
    (* the part after [p], from [n] *)
    assert (Hafter : forall l2', l2 = n :: l2' -> chain e n l2' h ->
                                 chain e' n l2' h).
    { intros l2' -> Hl2. apply (chain_frame e e'); [| |exact Hl2].
      - intros x Hx. apply Hnxt_old.
        + intros ->. exact (Hp2 Hx).
        + intros ->. apply elem_of_cons in Hql as [-> | Hql];
            [exact (Hh2 Hx) | exact (Hd12 q Hql Hx)].
      - intros y Hy. apply Hprv_old.
        + intros ->. apply elem_of_app in Hy as [Hy | Hy].
          * apply Hp2. apply list_elem_of_further. exact Hy.
          * apply list_elem_of_singleton in Hy. congruence.
        + intros ->. apply elem_of_app in Hy as [Hy | Hy].
          * apply NoDup_cons in Hnd2 as [Hn0 _]. exact (Hn0 Hy).
          * apply list_elem_of_singleton in Hy. subst h.
            apply Hh2, list_elem_of_here. }
    split; [exact Hnd'|]. split.
    + split; [rewrite Hq'; exact Hq|].
      destruct Hcase as [[-> ->] | (l0 & -> & Hl0)];
        destruct Hcase2 as [[-> ->] | (l2' & -> & Hl2)]; simpl.
      * split; assumption.
      * split; [split; assumption|]. exact (Hafter l2' eq_refl Hl2).
      * rewrite app_nil_r. apply chain_snoc.
        split; [exact (Hbefore l0 eq_refl Hl0) | split; assumption].
      * rewrite <- app_assoc. apply chain_app.
        split; [exact (Hbefore l0 eq_refl Hl0)|]. simpl.
        split; [split; assumption|]. exact (Hafter l2' eq_refl Hl2).
    + apply outside_unlinked. intros r Hr. rewrite Hnxt', Hprv'.
      case_decide; [auto|].
      assert (Hrq : r <> q).
      { intros ->. apply Hr. apply elem_of_cons in Hql as [-> | Hql].
        - apply list_elem_of_here.
        - apply list_elem_of_further, elem_of_app. left. exact Hql. }
      assert (Hrn : r <> n).
      { intros ->. apply Hr. destruct Hnl as [-> | Hnl].
        - apply list_elem_of_here.
        - apply list_elem_of_further, elem_of_app. right. exact Hnl. }
      rewrite !decide_False by assumption.
      apply (ring_outside e (h :: l1 ++ p :: l2) r Hring).
      intros Hin. apply Hr.
      apply elem_of_cons in Hin as [-> | Hin]; [apply list_elem_of_here|].
      apply list_elem_of_further.
      apply elem_of_app in Hin as [Hin | Hin]; apply elem_of_app; [auto|].
      apply elem_of_cons in Hin as [-> | Hin]; [congruence | auto].
Qed.

(** The ring fixes the links of the connections. *)
Lemma chain_same e e' l : forall a z,
  chain e a l z -> chain e' a l z ->
  (forall x, x ∈ a :: l -> nxt e' x = nxt e x) /\
  (forall y, y ∈ l ++ [z] -> prv e' y = prv e y).
Proof.
  induction l as [|b l IH]; intros a z; simpl.
  - intros [H1 H2] [H1' H2']. split; intros x Hx;
      apply list_elem_of_singleton in Hx as ->; congruence.
  - intros [[H1 H2] Hrest] [[H1' H2'] Hrest'].
    destruct (IH b z Hrest Hrest') as [IHn IHp].
    split; intros x Hx; apply elem_of_cons in Hx as [-> | Hx];
      solve [congruence | auto].
Qed.

Lemma ring_same e e' l r :
  ring e l -> ring e' l -> nxt e' r = nxt e r /\ prv e' r = prv e r.
Proof.
  intros Hring Hring'.
  destruct (decide (r ∈ l)) as [Hr | Hr].
  - destruct Hring as (_ & Hshape & _). destruct Hring' as (_ & Hshape' & _).
    destruct l as [|h t]; [apply elem_of_nil in Hr; contradiction|].
    destruct Hshape as [_ Hchain]. destruct Hshape' as [_ Hchain'].
    destruct (chain_same e e' t h h Hchain Hchain') as [Hn Hp].
    split; [apply Hn; exact Hr|]. apply Hp.
    apply elem_of_app. apply elem_of_cons in Hr as [-> | Hr].
    + right. apply list_elem_of_here.
    + left. exact Hr.
  - destruct (ring_outside e l r Hring Hr) as [-> ->].
    exact (ring_outside e' l r Hring' Hr).
Qed.

Lemma ring_queue e l :
  ring e l -> bgp_connection_queue e = head l.
Proof. intros (_ & Hshape & _). destruct l; [exact Hshape | apply Hshape]. Qed.

Lemma some_inj {A} (x y : A) : Some x = Some y -> x = y.
Proof. intros [= ->]. reflexivity. Qed.

Lemma connection_eq c c' :
  unlinked c' = unlinked c -> next c' = next c -> prev c' = prev c -> c' = c.
Proof.
  destruct c, c'. unfold unlinked. simpl. intros [= -> -> -> -> -> -> -> -> ->
    -> -> -> -> -> -> -> -> -> -> -> -> -> -> -> -> ->] -> ->. reflexivity.
Qed.

(** Two engines with the same ring that differ at most in the links are the
    same. *)
Lemma ring_engine_eq e e' l :
  ring e l -> ring e' l ->
  sessions e' = sessions e -> events e' = events e ->
  (forall r, unlinked <$> conns e' !! r = unlinked <$> conns e !! r) ->
  e' = e.
Proof.
  intros Hring Hring' Hs Hev Hframe.
  assert (Hconns : conns e' = conns e).
  { apply map_eq. intros r.
    destruct (ring_same e e' l r Hring Hring') as [Hn Hp].
    specialize (Hframe r). unfold nxt, prv in Hn, Hp.
    destruct (conns e' !! r) as [c'|], (conns e !! r) as [c|];
      try discriminate; [|reflexivity].
    cbn in Hn, Hp. apply (some_inj (unlinked c') (unlinked c)) in Hframe.
    f_equal. apply connection_eq; assumption. }
  pose proof (ring_queue e l Hring) as Hq.
  pose proof (ring_queue e' l Hring') as Hq'.
  destruct e, e'. simpl in *. congruence.
Qed.

End queue_ring.

(** *** The queue operations on a ring *)

(** X1: adding a connection that is not on the queue puts it at the end of
    the ring, so that it is processed after all that are on it; the
    connections keep everything but their links, and sessions and events are
    untouched. *)
Theorem queue_add_appends (e : bgp_engine) (l : list conn_ref) (p : conn_ref)
    (c : bgp_connection) :
  ring e l -> conns e !! p = Some c -> p ∉ l ->
  exists e',
    bgp_connection_queue_add (Some p) e = Ok e' /\
    ring e' (l ++ [p]) /\
    sessions e' = sessions e /\ events e' = events e /\
    (forall r, unlinked <$> conns e' !! r = unlinked <$> conns e !! r).
Proof. apply queue_add_ring. Qed.

(** X2: adding is idempotent: a second add of the same connection changes
    nothing, whether or not the connection was on the queue to begin with. *)
Theorem queue_add_idempotent (e : bgp_engine) (l : list conn_ref) (p : conn_ref)
    (c : bgp_connection) :
  ring e l -> conns e !! p = Some c ->
  exists e',
    bgp_connection_queue_add (Some p) e = Ok e' /\
    bgp_connection_queue_add (Some p) e' = Ok e'.
Proof.
  intros Hring Hc. destruct (decide (p ∈ l)) as [Hp | Hp].
  - exists e. split; exact (queue_add_on_ring e l p Hring Hp).
  - destruct (queue_add_ring e l p c Hring Hc Hp) as (e' & Hrun & Hring' & _).
    exists e'. split; [exact Hrun|].
    apply (queue_add_on_ring e' (l ++ [p]) p Hring').
    apply elem_of_app. right. apply list_elem_of_here.
Qed.

(** X3: deleting a connection on the queue takes it out of the ring and
    leaves the others in their order; when it was the one the queue points
    to, the queue points to the one after it, and when it was the only one
    the queue is empty. *)
Theorem queue_del_removes (e : bgp_engine) (l1 l2 : list conn_ref) (p : conn_ref) :
  ring e (l1 ++ p :: l2) ->
  exists e',
    bgp_connection_queue_del (Some p) e = Ok e' /\
    ring e' (l1 ++ l2) /\
    sessions e' = sessions e /\ events e' = events e /\
    (forall r, unlinked <$> conns e' !! r = unlinked <$> conns e !! r).
Proof. apply queue_del_ring. Qed.

(** X4: adding a connection and deleting it again gives back the engine as
    it was. *)
Theorem queue_add_del_round_trip (e : bgp_engine) (l : list conn_ref)
    (p : conn_ref) (c : bgp_connection) :
  ring e l -> conns e !! p = Some c -> p ∉ l ->
  (e' ← bgp_connection_queue_add (Some p) e;
   bgp_connection_queue_del (Some p) e') = Ok e.
Proof.
  intros Hring Hc Hp.
  destruct (queue_add_ring e l p c Hring Hc Hp)
    as (e1 & -> & Hring1 & Hs1 & Hev1 & Hframe1).
  destruct (queue_del_ring e1 l [] p Hring1)
    as (e2 & Hrun2 & Hring2 & Hs2 & Hev2 & Hframe2).
  cbn [mbind result_bind]. rewrite Hrun2. f_equal.
  rewrite app_nil_r in Hring2.
  apply (ring_engine_eq e e2 l Hring Hring2); [congruence | congruence |].
  intros r. rewrite Hframe2. apply Hframe1.
Qed.

(** X5: deleting is idempotent: a second delete of the same connection
    changes nothing, whether or not the connection was on the queue. *)
Theorem queue_del_idempotent (e : bgp_engine) (l : list conn_ref) (p : conn_ref)
    (c : bgp_connection) :
  ring e l -> conns e !! p = Some c ->
  exists e',
    bgp_connection_queue_del (Some p) e = Ok e' /\
    bgp_connection_queue_del (Some p) e' = Ok e'.
Proof.
  intros Hring Hc. destruct (decide (p ∈ l)) as [Hp | Hp].
  - apply list_elem_of_split in Hp as (l1 & l2 & ->).
    destruct (queue_del_ring e l1 l2 p Hring)
      as (e' & Hrun & Hring' & _ & _ & Hframe).
    exists e'. split; [exact Hrun|].
    pose proof Hring as (Hnd & _).
    destruct (NoDup_remove_mid l1 l2 p Hnd) as (_ & Hp1 & Hp2 & _).
    specialize (Hframe p). rewrite Hc in Hframe.
    destruct (conns e' !! p) as [c'|] eqn:Hc'; [|discriminate].
    apply (queue_del_off_ring e' (l1 ++ l2) p c' Hring' Hc').
    intros Hin. apply elem_of_app in Hin as [Hin | Hin]; auto.
  - exists e. split; exact (queue_del_off_ring e l p c Hring Hc Hp).
Qed.

(** *** The rings of the examples *)

Lemma outside_checked (e : bgp_engine) (l : list conn_ref) :
  bool_decide (map_Forall (fun r c => r ∉ l -> next c = None /\ prev c = None)
                 (conns e)) = true ->
  forall r c, conns e !! r = Some c -> r ∉ l -> next c = None /\ prev c = None.
Proof.
  intros H r c Hc. apply bool_decide_eq_true_1 in H. exact (H r c Hc).
Qed.

Lemma ring_two_connections : ring two_connections [].
Proof.
  split; [constructor|]. split; [reflexivity|].
  apply outside_checked. vm_compute. reflexivity.
Qed.

Lemma ring_one_ready : ring one_ready [0%nat].
Proof.
  split; [apply NoDup_singleton|]. split.
  - split; [reflexivity|]. split; reflexivity.
  - apply outside_checked. vm_compute. reflexivity.
Qed.

Lemma ring_two_queued : ring two_queued [0%nat; 1%nat].
Proof.
  split; [|split].
  - apply NoDup_cons. split; [|apply NoDup_singleton].
    intros H. apply list_elem_of_singleton in H. discriminate.
  - split; [reflexivity|]. repeat split; reflexivity.
  - apply outside_checked. vm_compute. reflexivity.
Qed.

(** The secondary goes behind the primary. *)
Lemma queue_add_appends_secondary :
  exists e',
    bgp_connection_queue_add (Some 1%nat) one_ready = Ok e' /\
    ring e' [0%nat; 1%nat].
Proof.
  destruct (queue_add_appends one_ready [0%nat] 1%nat
              (the zero_connection (load (Some 1%nat) one_ready))
              ring_one_ready eq_refl) as (e' & Hrun & Hring & _).
  - intros H. apply list_elem_of_singleton in H. discriminate.
  - exists e'. split; assumption.
Defined.

Lemma queue_add_idempotent_secondary :
  exists e',
    bgp_connection_queue_add (Some 1%nat) one_ready = Ok e' /\
    bgp_connection_queue_add (Some 1%nat) e' = Ok e'.
Proof.
  exact (queue_add_idempotent one_ready [0%nat] 1%nat
           (the zero_connection (load (Some 1%nat) one_ready))
           ring_one_ready eq_refl).
Defined.

(** Deleting the primary, which the queue points to, leaves the secondary
    as the only one on the queue. *)
Lemma queue_del_removes_head :
  exists e',
    bgp_connection_queue_del (Some 0%nat) two_queued = Ok e' /\
    ring e' [1%nat] /\ bgp_connection_queue e' = Some 1%nat.
Proof.
  destruct (queue_del_removes two_queued [] [1%nat] 0%nat ring_two_queued)
    as (e' & Hrun & Hring & _).
  exists e'. split; [exact Hrun|]. split; [exact Hring|].
  exact (ring_queue e' [1%nat] Hring).
Defined.

Lemma queue_add_del_round_trip_secondary :
  (e' ← bgp_connection_queue_add (Some 1%nat) one_ready;
   bgp_connection_queue_del (Some 1%nat) e') = Ok one_ready.
Proof.
  apply (queue_add_del_round_trip one_ready [0%nat] 1%nat
           (the zero_connection (load (Some 1%nat) one_ready))
           ring_one_ready eq_refl).
  intros H. apply list_elem_of_singleton in H. discriminate.
Defined.

Lemma queue_del_idempotent_primary :
  exists e',
    bgp_connection_queue_del (Some 0%nat) two_queued = Ok e' /\
    bgp_connection_queue_del (Some 0%nat) e' = Ok e'.
Proof.
  exact (queue_del_idempotent two_queued [0%nat; 1%nat] 0%nat
           (the zero_connection (load (Some 0%nat) two_queued))
           ring_two_queued eq_refl).
Defined.

(** ** Processing a ring *)

Section queue_process.

Implicit Types (e : bgp_engine) (p r h n : conn_ref) (l t : list conn_ref)
  (c : bgp_connection).

Lemma fsm_state_eqb_eq (a b : bgp_fsm_state) :
  fsm_state_eqb a b = true <-> a = b.
Proof. destruct a, b; simpl; split; congruence. Qed.

Lemma chain_with_queue e (q : option conn_ref) l (a z : conn_ref) :
  chain e a l z -> chain (with_queue q e) a l z.
Proof. apply chain_frame; intros; reflexivity. Qed.

(** Stepping the queue variable to the connection after the first turns the
    ring by one place. *)
Lemma ring_step e h t n :
  ring e (h :: t) -> nxt e h = Some n ->
  ring (with_queue (Some n) e) (t ++ [h]).
Proof.
  intros (Hnd & [Hq Hchain] & Hout) Hn.
  apply NoDup_cons in Hnd as [Hh Hnd].
  split; [|split].
  - apply NoDup_app. split; [exact Hnd|]. split; [|apply NoDup_singleton].
    intros x Hx Hxh. apply list_elem_of_singleton in Hxh as ->. exact (Hh Hx).
  - destruct t as [|b t]; simpl in *.
    + pose proof Hchain as [Hhh _]. split; [congruence|]. exact Hchain.
    + destruct Hchain as [[Hhb Hbh] Hrest]. split; [congruence|].
      apply chain_snoc.
      split; [apply chain_with_queue; exact Hrest|]. split; assumption.
  - intros r c Hc Hr. apply (Hout r c Hc). intros Hin. apply Hr.
    apply elem_of_app. apply elem_of_cons in Hin as [-> | Hin].
    + right. apply list_elem_of_here.
    + left. exact Hin.
Qed.

(** Closing a connection does not touch its place in the queue nor its
    state, and does not look at the links. *)
Lemma close_keeps c :
  next (snd (bgp_connection_close c)) = next c /\
  prev (snd (bgp_connection_close c)) = prev c /\
  state (snd (bgp_connection_close c)) = state c.
Proof.
  destruct c as [? ? ? ? ? ? ? ? ? ? ? ? ? ? ? ? [fd ? ? ?] [? ?] [? ?] ? ? [? ?] [? ?]
                  ? ? ? [? ? ? ? ? ?] [? ?]].
  lazy -[Z.eqb fd_undef]. repeat split.
Qed.

Lemma close_unlinked c c' :
  unlinked c' = unlinked c ->
  fst (bgp_connection_close c') = fst (bgp_connection_close c) /\
  unlinked (snd (bgp_connection_close c'))
  = unlinked (snd (bgp_connection_close c)).
Proof.
  destruct c as [? ? ? ? ? ? ? ? ? ? ? ? ? ? ? ? [fd ? ? ?] [? ?] [? ?] ? ? [? ?] [? ?]
                  ? ? ? [? ? ? ? ? ?] [? ?]].
  destruct c' as [? ? ? ? ? ? ? ? ? ? ? ? ? ? ? ? [fd' ? ? ?] [? ?] [? ?] ? ? [? ?] [? ?]
                  ? ? ? [? ? ? ? ? ?] [? ?]].
  unfold unlinked. lazy -[Z.eqb fd_undef].
  intros [= -> -> -> -> -> -> -> -> -> -> -> -> -> -> -> -> -> -> -> -> -> -> -> -> -> -> -> -> -> -> -> -> -> -> -> -> -> ->].
  split; reflexivity.
Qed.

Lemma unlinked_idem c : unlinked (unlinked c) = unlinked c.
Proof. destruct c. reflexivity. Qed.

Lemma unlinked_links c : next (unlinked c) = None /\ prev (unlinked c) = None.
Proof. destruct c. split; reflexivity. Qed.

Lemma state_unlinked c c' : unlinked c' = unlinked c -> state c' = state c.
Proof.
  intros H. change (state (unlinked c') = state (unlinked c)). rewrite H.
  reflexivity.
Qed.

(** Storing a connection with the links it had keeps the ring. *)
Lemma ring_store e l r c c' :
  ring e l -> conns e !! r = Some c ->
  next c' = next c -> prev c' = prev c ->
  ring (with_conns (<[r := c']> (conns e)) e) l.
Proof.
  intros (Hnd & Hshape & Hout) Hc Hn Hp.
  assert (Hnxt : forall x, nxt (with_conns (<[r := c']> (conns e)) e) x = nxt e x).
  { intros x. rewrite nxt_insert. case_decide; [subst x|reflexivity].
    rewrite (nxt_lookup e r c Hc). exact Hn. }
  assert (Hprv : forall x, prv (with_conns (<[r := c']> (conns e)) e) x = prv e x).
  { intros x. rewrite prv_insert. case_decide; [subst x|reflexivity].
    rewrite (prv_lookup e r c Hc). exact Hp. }
  split; [exact Hnd|]. split.
  - destruct l as [|h t]; [exact Hshape|].
    destruct Hshape as [Hq Hchain]. split; [exact Hq|].
    revert Hchain. apply chain_frame; intros; auto.
  - intros x cx Hx Hxl. cbn in Hx.
    destruct (decide (r = x)) as [<- | Hne].
    + rewrite lookup_insert_eq in Hx. injection Hx as <-.
      rewrite Hn, Hp. exact (Hout r c Hc Hxl).
    + rewrite lookup_insert_ne in Hx by exact Hne. exact (Hout x cx Hx Hxl).
Qed.

(** One turn of the loop on a connection that is Stopping: the connection is
    closed and taken off the ring. *)
Lemma queue_process_reap_turn e h t c :
  ring e (h :: t) -> conns e !! h = Some c -> state c = bgp_fsm_Stopping ->
  exists e',
    (forall fuel, bgp_connection_queue_process (S fuel) e
                  = bgp_connection_queue_process fuel e') /\
    ring e' t /\
    sessions e' = sessions e /\
    events e' = events e ++ fst (bgp_connection_close c) /\
    unlinked <$> conns e' !! h = Some (unlinked (snd (bgp_connection_close c))) /\
    (forall r, r <> h -> unlinked <$> conns e' !! r = unlinked <$> conns e !! r).
Proof.
  intros Hring Hc Hstate.
  destruct (ring_member e (h :: t) h Hring ltac:(apply list_elem_of_here))
    as (c0 & n & y & Hc0 & Hnext & _).
  rewrite Hc in Hc0. injection Hc0 as <-.
  pose proof Hring as (_ & [Hq _] & _).
  pose proof (ring_step e h t n Hring) as Hstep.
  rewrite (nxt_lookup e h c Hc) in Hstep. specialize (Hstep Hnext).
  destruct (close_keeps c) as (Hcn & Hcp & _).
  set (e1 := with_queue (Some n) e) in *.
  destruct (bgp_connection_close c) as [evs c'] eqn:Hclose. cbn [fst snd] in *.
  assert (Hc1 : conns (emit evs e1) !! h = Some c) by exact Hc.
  assert (Hring1 : ring (emit evs e1) (t ++ [h])).
  { destruct Hstep as (Hnd & Hshape & Hout). split; [exact Hnd|]. split; [|exact Hout].
    destruct (t ++ [h]) as [|a l'] eqn:Hl; [exact Hshape|].
    destruct Hshape as [Hq1 Hchain]. split; [exact Hq1|].
    revert Hchain. apply chain_frame; intros; reflexivity. }
  pose proof (ring_store (emit evs e1) (t ++ [h]) h c c' Hring1 Hc1 Hcn Hcp) as Hring2.
  set (e2 := with_conns (<[h := c']> (conns (emit evs e1))) (emit evs e1)) in *.
  destruct (queue_del_ring e2 t [] h Hring2)
    as (e3 & Hdel & Hring3 & Hs3 & Hev3 & Hframe3).
  rewrite app_nil_r in Hring3.
  exists e3. split; [|split; [exact Hring3|split; [exact Hs3|split; [exact Hev3|split]]]].
  - intros fuel. rewrite queue_process_unfold, Hq.
    unfold load. cbn [deref mbind result_bind]. rewrite Hc.
    cbn [deref mbind result_bind]. rewrite Hstate, Hnext.
    cbn [fsm_state_eqb]. fold e1.
    unfold bgp_connection_reset, load, store.
    cbn [deref mbind result_bind].
    change (conns e1 !! h) with (conns e !! h). rewrite Hc.
    cbn [deref mbind result_bind]. rewrite Hclose.
    change (conns (emit evs e1) !! h) with (conns e !! h). rewrite Hc.
    cbn [deref mbind result_bind]. fold e2. rewrite Hdel. reflexivity.
  - rewrite Hframe3. unfold e2. cbn. rewrite lookup_insert_eq. reflexivity.
  - intros r Hr. rewrite Hframe3. unfold e2. cbn.
    rewrite lookup_insert_ne by congruence. reflexivity.
Qed.

(** One turn of the loop on a connection that is not Stopping: the queue
    steps to the next connection and nothing else happens. *)
Lemma queue_process_skip_turn e h t c :
  ring e (h :: t) -> conns e !! h = Some c -> state c <> bgp_fsm_Stopping ->
  exists n,
    (forall fuel, bgp_connection_queue_process (S fuel) e
                  = bgp_connection_queue_process fuel (with_queue (Some n) e)) /\
    ring (with_queue (Some n) e) (t ++ [h]).
Proof.
  intros Hring Hc Hstate.
  destruct (ring_member e (h :: t) h Hring ltac:(apply list_elem_of_here))
    as (c0 & n & y & Hc0 & Hnext & _).
  rewrite Hc in Hc0. injection Hc0 as <-.
  pose proof Hring as (_ & [Hq _] & _).
  exists n. split.
  - intros fuel. rewrite queue_process_unfold, Hq.
    unfold load. cbn [deref mbind result_bind]. rewrite Hc.
    cbn [deref mbind result_bind].
    assert (Hs : fsm_state_eqb (state c) bgp_fsm_Stopping = false).
    { destruct (fsm_state_eqb (state c) bgp_fsm_Stopping) eqn:Heq; [|reflexivity].
      apply fsm_state_eqb_eq in Heq. contradiction. }
    rewrite Hs, Hnext. reflexivity.
  - apply ring_step; [exact Hring|]. rewrite (nxt_lookup e h c Hc). exact Hnext.
Qed.

(** As long as one connection on the queue is not Stopping the loop goes
    on. *)
Lemma queue_process_busy (fuel : nat) :
  forall e l r c,
    ring e l -> r ∈ l -> conns e !! r = Some c -> state c <> bgp_fsm_Stopping ->
    bgp_connection_queue_process fuel e = Fault OutOfFuel.
Proof.
  induction fuel as [|fuel IH]; intros e l r c Hring Hr Hc Hbusy.
  - destruct l as [|h t]; [apply elem_of_nil in Hr; contradiction|].
    destruct Hring as (_ & [Hq _] & _). simpl. rewrite Hq. reflexivity.
  - destruct l as [|h t]; [apply elem_of_nil in Hr; contradiction|].
    destruct (ring_member e (h :: t) h Hring ltac:(apply list_elem_of_here))
      as (ch & _ & _ & Hch & _).
    assert (Hcases : state ch = bgp_fsm_Stopping \/ state ch <> bgp_fsm_Stopping)
      by (destruct (state ch); auto; right; discriminate).
    destruct Hcases as [Hstop | Hgo].
    + destruct (queue_process_reap_turn e h t ch Hring Hch Hstop)
        as (e' & Hturn & Hring' & _ & _ & _ & Hframe).
      rewrite Hturn.
      assert (Hne : r <> h) by (intros ->; congruence).
      specialize (Hframe r Hne). rewrite Hc in Hframe.
      destruct (conns e' !! r) as [c'|] eqn:Hc'; [|discriminate].
      apply some_inj in Hframe.
      apply (IH e' t r c' Hring').
      * apply elem_of_cons in Hr as [-> | Hr]; [contradiction|exact Hr].
      * exact Hc'.
      * rewrite (state_unlinked c c' Hframe). exact Hbusy.
    + destruct (queue_process_skip_turn e h t ch Hring Hch Hgo)
        as (n & Hturn & Hring').
      rewrite Hturn.
      apply (IH _ (t ++ [h]) r c Hring'); [|exact Hc|exact Hbusy].
      apply elem_of_app. apply elem_of_cons in Hr as [-> | Hr].
      * right. apply list_elem_of_here.
      * left. exact Hr.
Qed.

Lemma flat_map_ext_elem {A B} (f g : A -> list B) (l : list A) :
  (forall x, x ∈ l -> f x = g x) -> flat_map f l = flat_map g l.
Proof.
  induction l as [|a l IH]; intros H; [reflexivity|]. cbn [flat_map].
  rewrite (H a) by apply list_elem_of_here. f_equal.
  apply IH. intros x Hx. apply H. apply list_elem_of_further. exact Hx.
Qed.

(** When every connection on the queue is Stopping, as many turns as there
    are connections reap them all. *)
Lemma queue_process_drain l :
  forall e,
    ring e l ->
    (forall r c, r ∈ l -> conns e !! r = Some c -> state c = bgp_fsm_Stopping) ->
    exists e',
      (forall fuel, (length l <= fuel)%nat ->
                    bgp_connection_queue_process fuel e = Ok e') /\
      ring e' [] /\
      sessions e' = sessions e /\
      events e' = events e ++ reaped e l /\
      (forall r c, conns e !! r = Some c ->
         conns e' !! r
         = Some (if decide (r ∈ l)
                 then unlinked (snd (bgp_connection_close c)) else c)).
Proof.
  induction l as [|h t IH]; intros e Hring Hstop.
  - exists e. split; [|split; [exact Hring|split; [reflexivity|split]]].
    + intros fuel _. destruct Hring as (_ & Hq & _).
      destruct fuel; simpl; rewrite Hq; reflexivity.
    + cbn. rewrite app_nil_r. reflexivity.
    + intros r c Hc. rewrite Hc. rewrite decide_False; [reflexivity|].
      apply not_elem_of_nil.
  - destruct (ring_member e (h :: t) h Hring ltac:(apply list_elem_of_here))
      as (ch & _ & _ & Hch & _).
    pose proof (Hstop h ch ltac:(apply list_elem_of_here) Hch) as Hstate.
    destruct (queue_process_reap_turn e h t ch Hring Hch Hstate)
      as (e1 & Hturn & Hring1 & Hs1 & Hev1 & Hh1 & Hframe1).
    pose proof Hring as (Hnd & _). apply NoDup_cons in Hnd as [Hht _].
    assert (Hsame : forall r c, r <> h -> conns e !! r = Some c ->
              exists c1, conns e1 !! r = Some c1 /\ unlinked c1 = unlinked c).
    { intros r c Hr Hc. specialize (Hframe1 r Hr). rewrite Hc in Hframe1.
      destruct (conns e1 !! r) as [c1|]; [|discriminate].
      exists c1. split; [reflexivity|]. exact (some_inj _ _ Hframe1). }
    assert (Hback : forall r c1, r <> h -> conns e1 !! r = Some c1 ->
              exists c, conns e !! r = Some c /\ unlinked c1 = unlinked c).
    { intros r c1 Hr Hc1. specialize (Hframe1 r Hr). rewrite Hc1 in Hframe1.
      destruct (conns e !! r) as [c|]; [|discriminate].
      exists c. split; [reflexivity|]. exact (some_inj _ _ Hframe1). }
    destruct (IH e1 Hring1) as (e' & Hrun & Hring' & Hs' & Hev' & Hconns').
    { intros r c1 Hr Hc1.
      assert (Hne : r <> h) by (intros ->; contradiction).
      destruct (Hback r c1 Hne Hc1) as (c & Hc & Heq).
      rewrite (state_unlinked c c1 Heq).
      apply (Hstop r c); [apply list_elem_of_further; exact Hr|exact Hc]. }
    exists e'. split; [|split; [exact Hring'|split; [congruence|split]]].
    + intros [|fuel] Hfuel; [simpl in Hfuel; lia|].
      rewrite Hturn. apply Hrun. simpl in Hfuel. lia.
    + rewrite Hev', Hev1, <- app_assoc. f_equal.
      unfold reaped. cbn [flat_map]. rewrite Hch. f_equal.
      apply flat_map_ext_elem. intros r Hr.
      assert (Hne : r <> h) by (intros ->; contradiction).
      specialize (Hframe1 r Hne).
      destruct (conns e1 !! r) as [c1|], (conns e !! r) as [c|];
        try discriminate; [|reflexivity].
      apply some_inj in Hframe1.
      apply (close_unlinked c c1 Hframe1).
    + intros r c Hc. destruct (decide (r = h)) as [-> | Hne].
      * rewrite Hch in Hc. injection Hc as <-.
        destruct (conns e1 !! h) as [c1|] eqn:Hc1; [|discriminate].
        change (Some (unlinked c1)
                = Some (unlinked (snd (bgp_connection_close ch)))) in Hh1.
        apply some_inj in Hh1.
        rewrite (Hconns' h c1 Hc1).
        rewrite decide_False by exact Hht.
        rewrite decide_True by apply list_elem_of_here.
        f_equal.
        destruct (ring_outside e1 t h Hring1 Hht) as [Hn1 Hp1].
        rewrite (nxt_lookup e1 h c1 Hc1) in Hn1.
        rewrite (prv_lookup e1 h c1 Hc1) in Hp1.
        destruct (unlinked_links (snd (bgp_connection_close ch))) as [Hn Hp].
        apply (connection_eq (unlinked (snd (bgp_connection_close ch))) c1).
        -- rewrite Hh1. symmetry. apply unlinked_idem.
        -- rewrite Hn. exact Hn1.
        -- rewrite Hp. exact Hp1.
      * destruct (Hsame r c Hne Hc) as (c1 & Hc1 & Heq).
        rewrite (Hconns' r c1 Hc1).
        destruct (decide (r ∈ t)) as [Hin | Hout].
        -- rewrite decide_True by (apply list_elem_of_further; exact Hin).
           f_equal. apply (close_unlinked c c1 Heq).
        -- rewrite decide_False.
           2:{ intros Hin. apply elem_of_cons in Hin as [-> | Hin]; contradiction. }
           f_equal.
           destruct (ring_outside e1 t r Hring1 Hout) as [Hn1 Hp1].
           rewrite (nxt_lookup e1 r c1 Hc1) in Hn1.
           rewrite (prv_lookup e1 r c1 Hc1) in Hp1.
           pose proof Hring as (_ & _ & Houtside).
           destruct (Houtside r c Hc) as [Hn Hp].
           { intros Hin. apply elem_of_cons in Hin as [-> | Hin]; contradiction. }
           apply connection_eq; [exact Heq|congruence|congruence].
Qed.

End queue_process.

(** *** The loop on a ring *)

(** X6: as long as one connection on the queue is not Stopping,
    [bgp_connection_queue_process] does not come to an end, however many
    connections are on the queue and however many turns are run: the Stopping
    ones are reaped, the others only stepped over, and the queue never
    empties. *)
Theorem queue_process_spins (e : bgp_engine) (l : list conn_ref) (r : conn_ref)
    (c : bgp_connection) (fuel : nat) :
  ring e l -> r ∈ l -> conns e !! r = Some c -> state c <> bgp_fsm_Stopping ->
  bgp_connection_queue_process fuel e = Fault OutOfFuel.
Proof. apply queue_process_busy. Qed.

(** X7: when every connection on the queue is Stopping, as many turns as
    there are connections end the loop: the queue is empty, every connection
    that was on it is closed and off the queue, the sockets are shut down in
    the order of the queue, and the other connections and the sessions are
    as they were.  [bgp_connection_reset] is modelled from the spec. *)
Theorem queue_process_reaps_all (e : bgp_engine) (l : list conn_ref) (fuel : nat) :
  ring e l ->
  (forall r c, r ∈ l -> conns e !! r = Some c -> state c = bgp_fsm_Stopping) ->
  (length l <= fuel)%nat ->
  exists e',
    bgp_connection_queue_process fuel e = Ok e' /\
    ring e' [] /\
    sessions e' = sessions e /\
    events e' = events e ++ reaped e l /\
    (forall r c, conns e !! r = Some c ->
       conns e' !! r
       = Some (if decide (r ∈ l)
               then unlinked (snd (bgp_connection_close c)) else c)).
Proof.
  intros Hring Hstop Hfuel.
  destruct (queue_process_drain l e Hring Hstop) as (e' & Hrun & Hrest).
  exists e'. split; [exact (Hrun fuel Hfuel)|exact Hrest].
Qed.

Lemma ring_one_stopping : ring one_stopping [0%nat; 1%nat].
Proof.
  split; [|split].
  - apply NoDup_cons. split; [|apply NoDup_singleton].
    intros H. apply list_elem_of_singleton in H. discriminate.
  - split; [reflexivity|]. repeat split; reflexivity.
  - apply outside_checked. vm_compute. reflexivity.
Qed.

Lemma ring_both_stopping : ring both_stopping [0%nat; 1%nat].
Proof.
  split; [|split].
  - apply NoDup_cons. split; [|apply NoDup_singleton].
    intros H. apply list_elem_of_singleton in H. discriminate.
  - split; [reflexivity|]. repeat split; reflexivity.
  - apply outside_checked. vm_compute. reflexivity.
Qed.

(** The primary is Stopping and reaped, the secondary keeps the loop going. *)
Lemma queue_process_spins_on_secondary :
  bgp_connection_queue_process 7 one_stopping = Fault OutOfFuel.
Proof.
  apply (queue_process_spins one_stopping [0%nat; 1%nat] 1%nat
           (the zero_connection (load (Some 1%nat) one_stopping)) 7
           ring_one_stopping).
  - apply list_elem_of_further, list_elem_of_here.
  - reflexivity.
  - discriminate.
Defined.

Lemma queue_process_reaps_both :
  exists e',
    bgp_connection_queue_process 2 both_stopping = Ok e' /\
    bgp_connection_queue e' = None.
Proof.
  destruct (queue_process_reaps_all both_stopping [0%nat; 1%nat] 2
              ring_both_stopping) as (e' & Hrun & Hring & _).
  - intros r c Hr Hc.
    apply elem_of_cons in Hr as [-> | Hr];
      [|apply list_elem_of_singleton in Hr as ->];
      vm_compute in Hc; injection Hc as <-; reflexivity.
  - simpl. lia.
  - exists e'. split; [exact Hrun|]. exact (ring_queue e' [] Hring).
Defined.

(** ** Initialising, siblings and promotion together *)

Section lifecycle.

Implicit Types (e : bgp_engine) (r : conn_ref) (sr : sess_ref)
  (c : bgp_connection) (s : bgp_session).

Lemma array_get_0 {A} (a b : A) : array_get [a; b] 0 = Ok a.
Proof. reflexivity. Qed.

Lemma array_get_1 {A} (a b : A) : array_get [a; b] 1 = Ok b.
Proof. reflexivity. Qed.

(** What [bgp_connection_init_new] makes when it allocates: a connection
    that was not there, attached to the session in both directions. *)
Lemma init_new_effect e sr s (o : Z) :
  sessions e !! sr = Some s ->
  length (ses_connections s) = 2%nat ->
  o = bgp_connection_primary \/ o = bgp_connection_secondary ->
  ses_connections s !! Z.to_nat o = Some None ->
  exists r e' c',
    bgp_connection_init_new None (Some sr) o e = Ok (Some r, e') /\
    conns e !! r = None /\
    conns e' !! r = Some c' /\
    (forall r', r' <> r -> conns e' !! r' = conns e !! r') /\
    sessions e'
    = <[sr := with_ses_connections (<[Z.to_nat o := Some r]> (ses_connections s)) s]>
        (sessions e) /\
    bgp_connection_queue e' = bgp_connection_queue e /\
    events e' = events e /\
    c' = with_host (ses_host s +:+ bgp_connection_tags o)
           (mk_connection (Some sr) o (o =? bgp_connection_secondary)
              bgp_fsm_Initial None None bgp_fsm_null_event false 0 None 0
              None None None 0 0 qps_file_init_new qtimer_init_new
              qtimer_init_new "" (ses_log s) (stream_new BGP_MAX_MSG_L)
              (stream_new BGP_MAX_MSG_L) 0 false false
              (mk_wbuffer false 0 0 0 0 []) mqueue_local_init_new).
Proof.
  intros Hs Hlen Hord Hslot.
  destruct (ses_connections s) as [|a [|b [|]]] eqn:Hconns; try discriminate.
  set (r := fresh (dom (conns e))).
  assert (Hfresh : conns e !! r = None).
  { apply not_elem_of_dom. apply is_fresh. }
  exists r.
  unfold bgp_connection_init_new, bgp_connection_init_host,
    assign, load, store, load_session, store_session.
  fold r.
  destruct Hord as [-> | ->]; simpl in Hslot; injection Hslot as ->;
    unfold bgp_connection_primary, bgp_connection_secondary;
    repeat first
      [ rewrite lookup_insert_eq
      | rewrite Hs | rewrite Hconns
      | rewrite array_get_0 | rewrite array_get_1
      | rewrite array_set_0 | rewrite array_set_1
      | progress cbn ];
    (eexists _, _; split; [reflexivity|]; cbn;
     split; [exact Hfresh|];
     split; [rewrite lookup_insert_eq; reflexivity|];
     split; [intros r' Hr'; rewrite !lookup_insert_ne by congruence; reflexivity|];
     split; [rewrite ?insert_insert_eq; reflexivity|];
     split; [reflexivity|]; split; reflexivity).
Qed.

(** What [bgp_connection_init_new] makes of a structure it is given. *)
Lemma init_new_again e r (c0 : bgp_connection) sr s (o : Z) :
  conns e !! r = Some c0 ->
  sessions e !! sr = Some s ->
  length (ses_connections s) = 2%nat ->
  o = bgp_connection_primary \/ o = bgp_connection_secondary ->
  ses_connections s !! Z.to_nat o = Some None ->
  exists e' c',
    bgp_connection_init_new (Some r) (Some sr) o e = Ok (Some r, e') /\
    conns e' !! r = Some c' /\
    (forall r', r' <> r -> conns e' !! r' = conns e !! r') /\
    sessions e'
    = <[sr := with_ses_connections (<[Z.to_nat o := Some r]> (ses_connections s)) s]>
        (sessions e) /\
    bgp_connection_queue e' = bgp_connection_queue e /\
    events e' = events e /\
    c' = with_host (ses_host s +:+ bgp_connection_tags o)
           (mk_connection (Some sr) o (o =? bgp_connection_secondary)
              bgp_fsm_Initial None None bgp_fsm_null_event false 0 None 0
              None None None 0 0 qps_file_init_new qtimer_init_new
              qtimer_init_new "" (ses_log s) (stream_new BGP_MAX_MSG_L)
              (stream_new BGP_MAX_MSG_L) 0 false false
              (mk_wbuffer false 0 0 0 0 []) mqueue_local_init_new).
Proof.
  intros Hc0 Hs Hlen Hord Hslot.
  destruct (ses_connections s) as [|a [|b [|]]] eqn:Hconns; try discriminate.
  unfold bgp_connection_init_new, bgp_connection_init_host,
    assign, load, store, load_session, store_session.
  destruct Hord as [-> | ->]; simpl in Hslot; injection Hslot as ->;
    unfold bgp_connection_primary, bgp_connection_secondary;
    repeat first
      [ rewrite lookup_insert_eq
      | rewrite Hs | rewrite Hconns | rewrite Hc0
      | rewrite array_get_0 | rewrite array_get_1
      | rewrite array_set_0 | rewrite array_set_1
      | progress cbn ];
    (eexists _, _; split; [reflexivity|]; cbn;
     split; [rewrite lookup_insert_eq; reflexivity|];
     split; [intros r' Hr'; rewrite !lookup_insert_ne by congruence; reflexivity|];
     split; [rewrite ?insert_insert_eq; reflexivity|];
     split; [reflexivity|]; split; reflexivity).
Qed.

End lifecycle.

(** X8: [bgp_connection_init_new] with no structure given allocates a
    connection that was not there before, zeroised but for the link to the
    session, the ordinal, [accepted] (set for the secondary), the initialised
    qfile and timers, the log, two empty buffers of the maximum message size
    and the host name with the tag of the ordinal; it puts the connection in
    the session's slot for the ordinal and touches no other connection, nor
    the connection queue. *)
Theorem init_new_attaches (e : bgp_engine) (sr : sess_ref) (s : bgp_session)
    (o : Z) :
  sessions e !! sr = Some s ->
  length (ses_connections s) = 2%nat ->
  o = bgp_connection_primary \/ o = bgp_connection_secondary ->
  ses_connections s !! Z.to_nat o = Some None ->
  exists r e' c',
    bgp_connection_init_new None (Some sr) o e = Ok (Some r, e') /\
    conns e !! r = None /\
    conns e' !! r = Some c' /\
    (forall r', r' <> r -> conns e' !! r' = conns e !! r') /\
    sessions e'
    = <[sr := with_ses_connections (<[Z.to_nat o := Some r]> (ses_connections s)) s]>
        (sessions e) /\
    bgp_connection_queue e' = bgp_connection_queue e /\
    events e' = events e /\
    c' = with_host (ses_host s +:+ bgp_connection_tags o)
           (mk_connection (Some sr) o (o =? bgp_connection_secondary)
              bgp_fsm_Initial None None bgp_fsm_null_event false 0 None 0
              None None None 0 0 qps_file_init_new qtimer_init_new
              qtimer_init_new "" (ses_log s) (stream_new BGP_MAX_MSG_L)
              (stream_new BGP_MAX_MSG_L) 0 false false
              (mk_wbuffer false 0 0 0 0 []) mqueue_local_init_new).
Proof. apply init_new_effect. Qed.

(** The first connection of a session that has none. *)
Lemma init_new_attaches_primary :
  exists r e' c',
    bgp_connection_init_new None (Some 0%nat) bgp_connection_primary engine0
    = Ok (Some r, e') /\
    conns e' !! r = Some c' /\
    host c' = "192.0.2.1(primary)"%string /\ accepted c' = false /\
    (s ← load_session (Some 0%nat) e'; Ok (ses_connections s)) = Ok [Some r; None].
Proof.
  destruct (init_new_attaches engine0 0%nat example_session
              bgp_connection_primary eq_refl eq_refl (or_introl eq_refl) eq_refl)
    as (r & e' & c' & Hrun & _ & Hc' & _ & Hs' & _ & _ & Heq).
  exists r, e', c'. split; [exact Hrun|]. split; [exact Hc'|].
  split; [rewrite Heq; reflexivity|]. split; [rewrite Heq; reflexivity|].
  unfold load_session. simpl. rewrite Hs'. rewrite lookup_insert_eq. reflexivity.
Defined.

(** X9: [bgp_connection_init_new] aborts on its assertions when the ordinal
    is neither primary nor secondary, and when the session already has a
    connection in the slot of the ordinal. *)
Theorem init_new_aborts (e : bgp_engine) (p : option conn_ref) (o : Z) :
  (forall session,
      o <> bgp_connection_primary -> o <> bgp_connection_secondary ->
      bgp_connection_init_new p session o e = Fault AssertFailed) /\
  (forall sr s r0,
      sessions e !! sr = Some s ->
      length (ses_connections s) = 2%nat ->
      o = bgp_connection_primary \/ o = bgp_connection_secondary ->
      ses_connections s !! Z.to_nat o = Some (Some r0) ->
      bgp_connection_init_new p (Some sr) o e = Fault AssertFailed).
Proof.
  split.
  - intros session H0 H1. unfold bgp_connection_init_new.
    rewrite (proj2 (Z.eqb_neq _ _) H0), (proj2 (Z.eqb_neq _ _) H1). reflexivity.
  - intros sr s r0 Hs Hlen Hord Hslot.
    destruct (ses_connections s) as [|a [|b [|]]] eqn:Hconns; try discriminate.
    unfold bgp_connection_init_new, load_session.
    destruct Hord as [-> | ->]; simpl in Hslot; injection Hslot as ->;
      cbn; rewrite Hs; cbn; rewrite Hconns; reflexivity.
Qed.

(** A third connection, and a second primary, for the session of
    [two_connections]. *)
Lemma init_new_aborts_full_session :
  bgp_connection_init_new None (Some 0%nat) 2 two_connections
  = Fault AssertFailed /\
  bgp_connection_init_new None (Some 0%nat) bgp_connection_primary two_connections
  = Fault AssertFailed.
Proof.
  destruct (init_new_aborts two_connections None 2) as [Hbad _].
  destruct (init_new_aborts two_connections None bgp_connection_primary)
    as [_ Htaken].
  split.
  - apply Hbad; discriminate.
  - apply (Htaken 0%nat
             (the example_session (load_session (Some 0%nat) two_connections))
             0%nat eq_refl eq_refl (or_introl eq_refl) eq_refl).
Defined.

(** X10: the connection [bgp_connection_init_new] has made finds as its
    sibling whatever is in the session's other slot, and a connection that is
    attached there finds the new one: siblings are mutual. *)
Theorem init_new_sibling (e : bgp_engine) (sr : sess_ref) (s : bgp_session)
    (o : Z) (other : option conn_ref) :
  sessions e !! sr = Some s ->
  length (ses_connections s) = 2%nat ->
  o = bgp_connection_primary \/ o = bgp_connection_secondary ->
  ses_connections s !! Z.to_nat o = Some None ->
  ses_connections s !! Z.to_nat (1 - o) = Some other ->
  exists r e',
    bgp_connection_init_new None (Some sr) o e = Ok (Some r, e') /\
    bgp_connection_get_sibling (Some r) e' = Ok other /\
    (forall r2 c2,
        other = Some r2 -> conns e !! r2 = Some c2 ->
        session c2 = Some sr -> ordinal c2 = 1 - o ->
        bgp_connection_get_sibling (Some r2) e' = Ok (Some r)).
Proof.
  intros Hs Hlen Hord Hslot Hother.
  destruct (init_new_effect e sr s o Hs Hlen Hord Hslot)
    as (r & e' & c' & Hrun & Hfresh & Hc' & Hrest & Hs' & _ & _ & ->).
  exists r, e'. split; [exact Hrun|].
  destruct (ses_connections s) as [|a [|b [|]]] eqn:Hconns; try discriminate.
  unfold bgp_connection_get_sibling, load, load_session.
  split.
  - cbn. rewrite Hc'. cbn. rewrite Hs', lookup_insert_eq. cbn. rewrite ?Hconns.
    destruct Hord as [-> | ->]; simpl in Hother; injection Hother as ->;
      reflexivity.
  - intros r2 c2 -> Hc2 Hsess Ho2.
    assert (Hne : r2 <> r) by congruence.
    cbn. rewrite (Hrest r2 Hne), Hc2. cbn. rewrite Hsess. cbn.
    rewrite Hs', lookup_insert_eq. cbn. rewrite ?Hconns, Ho2.
    destruct Hord as [-> | ->]; reflexivity.
Qed.

(** The secondary made after the primary: each is the other's sibling. *)
Lemma init_new_sibling_secondary :
  exists r e',
    (e ← engine_primary;
     bgp_connection_init_new None (Some 0%nat) bgp_connection_secondary e)
    = Ok (Some r, e') /\
    bgp_connection_get_sibling (Some r) e' = Ok (Some 0%nat) /\
    bgp_connection_get_sibling (Some 0%nat) e' = Ok (Some r).
Proof.
  destruct (init_new_sibling one_connection 0%nat
              (the example_session (load_session (Some 0%nat) one_connection))
              bgp_connection_secondary (Some 0%nat)
              eq_refl eq_refl (or_intror eq_refl) eq_refl eq_refl)
    as (r & e' & Hrun & Hsib & Hmutual).
  exists r, e'. split; [exact Hrun|]. split; [exact Hsib|].
  apply (Hmutual 0%nat (the zero_connection (load (Some 0%nat) one_connection)));
    reflexivity.
Defined.

(** X11: for every connection attached to its session, the promotion
    returns; afterwards the connection is the primary and alone in the
    session's slots, the session has the connection's open_recv, su_local,
    su_remote and hold_timer_interval, its keepalive_timer_interval is what
    it was, the connection's open_recv, su_local and su_remote are NULL and
    its host is the session's, without a tag. *)
Theorem make_primary_transfers (e : bgp_engine) (r : conn_ref) (sr : sess_ref)
    (c : bgp_connection) (s : bgp_session) :
  conns e !! r = Some c -> session c = Some sr -> sessions e !! sr = Some s ->
  length (ses_connections s) = 2%nat ->
  ordinal c = bgp_connection_primary \/ ordinal c = bgp_connection_secondary ->
  ses_connections s !! Z.to_nat (ordinal c) = Some (Some r) ->
  exists e' c' s',
    bgp_connection_make_primary (Some r) e = Ok e' /\
    conns e' !! r = Some c' /\ sessions e' !! sr = Some s' /\
    ordinal c' = bgp_connection_primary /\
    ses_connections s' = [Some r; None] /\
    ses_open_recv s' = open_recv c /\
    ses_su_local s' = su_local c /\ ses_su_remote s' = su_remote c /\
    ses_hold_timer_interval s' = hold_timer_interval c /\
    ses_keepalive_timer_interval s' = ses_keepalive_timer_interval s /\
    open_recv c' = None /\ su_local c' = None /\ su_remote c' = None /\
    host c' = ses_host s.
Proof. apply make_primary_effect. Qed.

Lemma make_primary_transfers_secondary :
  exists e' c' s',
    bgp_connection_make_primary (Some 1%nat) two_connections = Ok e' /\
    conns e' !! 1%nat = Some c' /\ sessions e' !! 0%nat = Some s' /\
    ordinal c' = 0 /\ ses_connections s' = [Some 1%nat; None] /\
    ses_open_recv s' = Some 200 /\ ses_hold_timer_interval s' = 180 /\
    host c' = "192.0.2.1"%string.
Proof.
  destruct (make_primary_transfers two_connections 1%nat 0%nat
              (the zero_connection (load (Some 1%nat) two_connections))
              (the example_session (load_session (Some 0%nat) two_connections))
              eq_refl eq_refl eq_refl eq_refl (or_intror eq_refl) eq_refl)
    as (e' & c' & s' & Hrun & Hc' & Hs' & Hord & Hslots & Hopen & _ & _ & Hhold
        & _ & _ & _ & _ & Hhost).
  exists e', c', s'. repeat (split; [assumption|]). exact Hhost.
Defined.

(** The promotion touches the connection in its ordinal, open_recv, host and
    addresses only, and nothing outside the connection and its session. *)
Lemma make_primary_frame (e : bgp_engine) (r : conn_ref) (sr : sess_ref)
    (c : bgp_connection) (s : bgp_session) :
  conns e !! r = Some c -> session c = Some sr -> sessions e !! sr = Some s ->
  length (ses_connections s) = 2%nat ->
  ordinal c = bgp_connection_primary \/ ordinal c = bgp_connection_secondary ->
  exists e',
    bgp_connection_make_primary (Some r) e = Ok e' /\
    conns e' !! r
    = Some (with_su_remote None
              (with_su_local None
                 (with_host (ses_host s)
                    (with_open_recv None
                       (with_ordinal bgp_connection_primary c))))) /\
    (forall r', r' <> r -> conns e' !! r' = conns e !! r') /\
    (forall sr', sr' <> sr -> sessions e' !! sr' = sessions e !! sr') /\
    bgp_connection_queue e' = bgp_connection_queue e /\
    events e' = events e.
Proof.
  intros Hc Hsr Hs Hlen Hord.
  destruct (ses_connections s) as [|a [|b [|]]] eqn:Hconns; try discriminate.
  unfold bgp_connection_make_primary, bgp_connection_init_host,
    assign, assign_session, load, store, load_session, store_session.
  unfold bgp_connection_primary, bgp_connection_secondary in *.
  destruct Hord as [Hord | Hord].
  - repeat (cbn; rewrite ?Hc, ?Hsr, ?Hs, ?Hord, ?Hconns, ?lookup_insert_eq,
                     ?array_set_0, ?array_set_1).
    eexists. split; [reflexivity|]. cbn.
    rewrite lookup_insert_eq, append_empty.
    split; [destruct c; simpl in Hord; subst; reflexivity|].
    split; [intros r' Hr'; rewrite !lookup_insert_ne by congruence; reflexivity|].
    split; [intros sr' Hr'; rewrite !lookup_insert_ne by congruence; reflexivity|].
    split; reflexivity.
  - repeat (cbn; rewrite ?Hc, ?Hsr, ?Hs, ?Hord, ?Hconns, ?lookup_insert_eq,
                     ?array_set_0, ?array_set_1).
    eexists. split; [reflexivity|]. cbn.
    rewrite lookup_insert_eq, append_empty.
    split; [reflexivity|].
    split; [intros r' Hr'; rewrite !lookup_insert_ne by congruence; reflexivity|].
    split; [intros sr' Hr'; rewrite !lookup_insert_ne by congruence; reflexivity|].
    split; reflexivity.
Qed.

(** X12: after its promotion a connection has no sibling. *)
Theorem make_primary_no_sibling (e : bgp_engine) (r : conn_ref) (sr : sess_ref)
    (c : bgp_connection) (s : bgp_session) :
  conns e !! r = Some c -> session c = Some sr -> sessions e !! sr = Some s ->
  length (ses_connections s) = 2%nat ->
  ordinal c = bgp_connection_primary \/ ordinal c = bgp_connection_secondary ->
  ses_connections s !! Z.to_nat (ordinal c) = Some (Some r) ->
  (e' ← bgp_connection_make_primary (Some r) e;
   bgp_connection_get_sibling (Some r) e') = Ok None.
Proof.
  intros Hc Hsr Hs Hlen Hord Hslot.
  destruct (make_primary_effect e r sr c s Hc Hsr Hs Hlen Hord Hslot)
    as (e' & c' & s' & Hrun & Hc' & Hs' & _ & Hslots & _).
  destruct (make_primary_frame e r sr c s Hc Hsr Hs Hlen Hord)
    as (e2 & Hrun2 & Hc2 & _).
  rewrite Hrun in Hrun2. injection Hrun2 as <-.
  rewrite Hrun. cbn [mbind result_bind].
  unfold bgp_connection_get_sibling, load, load_session.
  cbn [deref mbind result_bind]. rewrite Hc2. cbn [deref mbind result_bind].
  cbn. rewrite Hsr, Hs'. cbn. rewrite Hslots. reflexivity.
Qed.

Lemma make_primary_no_sibling_secondary :
  (e' ← bgp_connection_make_primary (Some 1%nat) two_connections;
   bgp_connection_get_sibling (Some 1%nat) e') = Ok None.
Proof.
  exact (make_primary_no_sibling two_connections 1%nat 0%nat
           (the zero_connection (load (Some 1%nat) two_connections))
           (the example_session (load_session (Some 0%nat) two_connections))
           eq_refl eq_refl eq_refl eq_refl (or_intror eq_refl) eq_refl).
Defined.

(** X13: given a structure, [bgp_connection_init_new] returns that structure
    made anew: whatever it held before, its place on the connection queue
    and its write buffer included, is gone, and it is what a newly allocated
    connection would be; it is attached to the session in the slot of the
    ordinal, and no other connection is touched. *)
Theorem init_new_resets (e : bgp_engine) (r : conn_ref) (c0 : bgp_connection)
    (sr : sess_ref) (s : bgp_session) (o : Z) :
  conns e !! r = Some c0 ->
  sessions e !! sr = Some s ->
  length (ses_connections s) = 2%nat ->
  o = bgp_connection_primary \/ o = bgp_connection_secondary ->
  ses_connections s !! Z.to_nat o = Some None ->
  exists e' c',
    bgp_connection_init_new (Some r) (Some sr) o e = Ok (Some r, e') /\
    conns e' !! r = Some c' /\
    (forall r', r' <> r -> conns e' !! r' = conns e !! r') /\
    sessions e'
    = <[sr := with_ses_connections (<[Z.to_nat o := Some r]> (ses_connections s)) s]>
        (sessions e) /\
    bgp_connection_queue e' = bgp_connection_queue e /\
    events e' = events e /\
    c' = with_host (ses_host s +:+ bgp_connection_tags o)
           (mk_connection (Some sr) o (o =? bgp_connection_secondary)
              bgp_fsm_Initial None None bgp_fsm_null_event false 0 None 0
              None None None 0 0 qps_file_init_new qtimer_init_new
              qtimer_init_new "" (ses_log s) (stream_new BGP_MAX_MSG_L)
              (stream_new BGP_MAX_MSG_L) 0 false false
              (mk_wbuffer false 0 0 0 0 []) mqueue_local_init_new).
Proof. apply init_new_again. Qed.

(** The connection that the promotion displaced is used again for a new
    secondary. *)
Lemma init_new_resets_displaced :
  exists e' c',
    bgp_connection_init_new (Some 0%nat) (Some 0%nat) bgp_connection_secondary
      promoted = Ok (Some 0%nat, e') /\
    conns e' !! 0%nat = Some c' /\
    open_recv c' = None /\ host c' = "192.0.2.1(secondary)"%string /\
    (s ← load_session (Some 0%nat) e'; Ok (ses_connections s))
    = Ok [Some 1%nat; Some 0%nat].
Proof.
  destruct (init_new_resets promoted 0%nat
              (the zero_connection (load (Some 0%nat) promoted)) 0%nat
              (the example_session (load_session (Some 0%nat) promoted))
              bgp_connection_secondary
              eq_refl eq_refl eq_refl (or_intror eq_refl) eq_refl)
    as (e' & c' & Hrun & Hc' & _ & Hs' & _ & _ & Heq).
  exists e', c'. split; [exact Hrun|]. split; [exact Hc'|].
  split; [rewrite Heq; reflexivity|]. split; [rewrite Heq; reflexivity|].
  unfold load_session. simpl. rewrite Hs'. rewrite lookup_insert_eq. reflexivity.
Defined.

(** X14: the promotion touches the connection in its ordinal, open_recv,
    host and addresses only; in particular a connection that it displaces
    from the primary slot keeps its ordinal and its link to the session.
    Other sessions, the connection queue and the world are untouched. *)
Theorem make_primary_touches_only (e : bgp_engine) (r : conn_ref) (sr : sess_ref)
    (c : bgp_connection) (s : bgp_session) :
  conns e !! r = Some c -> session c = Some sr -> sessions e !! sr = Some s ->
  length (ses_connections s) = 2%nat ->
  ordinal c = bgp_connection_primary \/ ordinal c = bgp_connection_secondary ->
  exists e',
    bgp_connection_make_primary (Some r) e = Ok e' /\
    conns e' !! r
    = Some (with_su_remote None
              (with_su_local None
                 (with_host (ses_host s)
                    (with_open_recv None
                       (with_ordinal bgp_connection_primary c))))) /\
    (forall r', r' <> r -> conns e' !! r' = conns e !! r') /\
    (forall sr', sr' <> sr -> sessions e' !! sr' = sessions e !! sr') /\
    bgp_connection_queue e' = bgp_connection_queue e /\
    events e' = events e.
Proof. apply make_primary_frame. Qed.

(** The secondary is made the primary: the connection that was the primary
    is as it was. *)
Lemma make_primary_touches_only_secondary :
  exists e',
    bgp_connection_make_primary (Some 1%nat) two_connections = Ok e' /\
    conns e' !! 0%nat = conns two_connections !! 0%nat.
Proof.
  destruct (make_primary_touches_only two_connections 1%nat 0%nat
              (the zero_connection (load (Some 1%nat) two_connections))
              (the example_session (load_session (Some 0%nat) two_connections))
              eq_refl eq_refl eq_refl eq_refl (or_intror eq_refl))
    as (e' & Hrun & _ & Hrest & _).
  exists e'. split; [exact Hrun|]. apply Hrest. discriminate.
Defined.

(** ** Opening and closing *)

Section opening.

Implicit Types (e : bgp_engine) (r : conn_ref) (sr : sess_ref)
  (c : bgp_connection) (s : bgp_session).

Lemma open_effect e r sr c s (fd : Z) :
  conns e !! r = Some c -> session c = Some sr -> sessions e !! sr = Some s ->
  bgp_connection_open (Some r) fd e
  = Ok (mk_engine (<[r := opened fd s c]> (conns e))
          (if ordinal c =? bgp_connection_secondary
           then <[sr := with_ses_accept false s]> (sessions e) else sessions e)
          (bgp_connection_queue e) (events e)).
Proof.
  intros Hc Hsr Hs.
  unfold bgp_connection_open, assign, assign_session, load, store,
    load_session, store_session.
  cbn [deref mbind result_bind]. rewrite Hc. cbn [deref mbind result_bind].
  rewrite Hsr.
  destruct (ordinal c =? bgp_connection_secondary) eqn:Hord.
  - repeat (cbn; rewrite ?Hc, ?Hs, ?lookup_insert_eq, ?insert_insert_eq).
    destruct c. reflexivity.
  - repeat (cbn; rewrite ?Hc, ?Hs, ?lookup_insert_eq, ?insert_insert_eq).
    destruct c. reflexivity.
Qed.

(** Closing what was opened on a connection that was closed and clear gives
    the connection back. *)
Lemma close_opened c s (fd : Z) :
  bgp_connection_close c = ([], c) ->
  post c = bgp_fsm_null_event -> err c = 0 -> stopped c = bgp_stopped_not ->
  open_recv c = None -> notification c = None ->
  hold_timer_interval c = ses_hold_timer_interval s ->
  keepalive_timer_interval c = ses_keepalive_timer_interval s ->
  bgp_connection_close (opened fd s c)
  = (if fd =? fd_undef then [] else [Sys_shutdown fd SHUT_RDWR], c).
Proof.
  destruct c as [? ? ? ? ? ? ? ? ? ? ? ? ? ? ? ? [fd0 ? ? ?] [? ?] [? ?] ? ? [? ?] [? ?]
                  ? ? ? [? ? ? ? ? ?] [? ?]].
  destruct s.
  unfold opened. lazy -[Z.eqb fd_undef].
  intros Hclose -> -> -> -> -> -> ->.
  injection Hclose as _ <- <- <- <- <- <- <- <- <- <- <- <- <- <- <- <- <-.
  destruct (fd =? fd_undef); reflexivity.
Qed.

End opening.

(** X15: [bgp_connection_open] installs the fd in the qfile and registers it,
    clears post, err and stopped, drops any open_recv and notification and
    takes both intervals from the session; the secondary connection also
    clears the session's accept flag.  State, links and buffers of the
    connection, the other connections and sessions, the connection queue and
    the world are untouched. *)
Theorem open_sets_up (e : bgp_engine) (r : conn_ref) (sr : sess_ref)
    (c : bgp_connection) (s : bgp_session) (fd : Z) :
  conns e !! r = Some c -> session c = Some sr -> sessions e !! sr = Some s ->
  exists e' c' s',
    bgp_connection_open (Some r) fd e = Ok e' /\
    conns e' !! r = Some c' /\ sessions e' !! sr = Some s' /\
    c' = opened fd s c /\
    qf c' = mk_qps_file fd true false false /\
    post c' = bgp_fsm_null_event /\ err c' = 0 /\ stopped c' = bgp_stopped_not /\
    open_recv c' = None /\ notification c' = None /\
    hold_timer_interval c' = ses_hold_timer_interval s /\
    keepalive_timer_interval c' = ses_keepalive_timer_interval s /\
    state c' = state c /\ next c' = next c /\ prev c' = prev c /\
    ibuf c' = ibuf c /\ obuf c' = obuf c /\ wbuff c' = wbuff c /\
    s' = (if ordinal c =? bgp_connection_secondary
          then with_ses_accept false s else s) /\
    (forall r', r' <> r -> conns e' !! r' = conns e !! r') /\
    (forall sr', sr' <> sr -> sessions e' !! sr' = sessions e !! sr') /\
    bgp_connection_queue e' = bgp_connection_queue e /\
    events e' = events e.
Proof.
  intros Hc Hsr Hs. rewrite (open_effect e r sr c s fd Hc Hsr Hs).
  eexists _, (opened fd s c),
    (if ordinal c =? bgp_connection_secondary
     then with_ses_accept false s else s).
  split; [reflexivity|]. cbn.
  rewrite lookup_insert_eq. split; [reflexivity|].
  split; [|split; [reflexivity|]].
  - destruct (ordinal c =? bgp_connection_secondary).
    + rewrite lookup_insert_eq. reflexivity.
    + exact Hs.
  - destruct c. cbn. do 14 (split; [reflexivity|]).
    split; [reflexivity|].
    split; [intros r' Hr'; rewrite lookup_insert_ne by congruence; reflexivity|].
    split; [|split; reflexivity].
    intros sr' Hsr'. destruct (_ =? _); [|reflexivity].
    rewrite lookup_insert_ne by congruence. reflexivity.
Qed.

(** The secondary connection of the example is opened on fd 7. *)
Lemma open_sets_up_secondary :
  exists e' c' s',
    bgp_connection_open (Some 1%nat) 7 two_connections = Ok e' /\
    conns e' !! 1%nat = Some c' /\ sessions e' !! 0%nat = Some s' /\
    qf c' = mk_qps_file 7 true false false /\
    open_recv c' = None /\
    (hold_timer_interval c', keepalive_timer_interval c') = (90, 30) /\
    ses_accept s' = false.
Proof.
  destruct (open_sets_up two_connections 1%nat 0%nat
              (the zero_connection (load (Some 1%nat) two_connections))
              (the example_session (load_session (Some 0%nat) two_connections))
              7 eq_refl eq_refl eq_refl)
    as (e' & c' & s' & Hrun & Hc' & Hs' & Heq & Hqf & _ & _ & _ & Hopen & _ &
        Hhold & Hkeep & _ & _ & _ & _ & _ & _ & Hses & _).
  exists e', c', s'. split; [exact Hrun|]. split; [exact Hc'|].
  split; [exact Hs'|]. split; [exact Hqf|]. split; [exact Hopen|].
  split; [rewrite Hhold, Hkeep; reflexivity|]. rewrite Hses. reflexivity.
Defined.

(** X16: on a connection that is closed and clear, as
    [bgp_connection_close] and an earlier [bgp_connection_open] leave it,
    opening on a socket and closing again gives back the engine as it was,
    but for the accept flag of the session, and shuts that socket down
    once. *)
Theorem open_close_round_trip (e : bgp_engine) (r : conn_ref) (sr : sess_ref)
    (c : bgp_connection) (s : bgp_session) (fd : Z) :
  conns e !! r = Some c -> session c = Some sr -> sessions e !! sr = Some s ->
  bgp_connection_close c = ([], c) ->
  post c = bgp_fsm_null_event -> err c = 0 -> stopped c = bgp_stopped_not ->
  open_recv c = None -> notification c = None ->
  hold_timer_interval c = ses_hold_timer_interval s ->
  keepalive_timer_interval c = ses_keepalive_timer_interval s ->
  fd <> fd_undef ->
  (e' ← bgp_connection_open (Some r) fd e; close_connection (Some r) e')
  = Ok (emit [Sys_shutdown fd SHUT_RDWR]
          (if ordinal c =? bgp_connection_secondary
           then with_sessions (<[sr := with_ses_accept false s]> (sessions e)) e
           else e)).
Proof.
  intros Hc Hsr Hs Hclosed Hpost Herr Hstopped Hopen Hnote Hhold Hkeep Hfd.
  rewrite (open_effect e r sr c s fd Hc Hsr Hs). cbn [mbind result_bind].
  unfold close_connection, load, store. cbn [deref mbind result_bind conns].
  rewrite lookup_insert_eq. cbn [deref mbind result_bind].
  rewrite (close_opened c s fd Hclosed Hpost Herr Hstopped Hopen Hnote Hhold Hkeep).
  apply Z.eqb_neq in Hfd. rewrite Hfd.
  cbn. rewrite lookup_insert_eq. cbn.
  rewrite insert_insert_eq, (insert_id (conns e) r c Hc).
  destruct (ordinal c =? bgp_connection_secondary); destruct e; reflexivity.
Qed.

Lemma open_close_round_trip_primary :
  (e' ← bgp_connection_open (Some 0%nat) 6 once_closed;
   close_connection (Some 0%nat) e')
  = Ok (emit [Sys_shutdown 6 SHUT_RDWR] once_closed).
Proof.
  apply (open_close_round_trip once_closed 0%nat 0%nat
           (the zero_connection (load (Some 0%nat) once_closed))
           (the example_session (load_session (Some 0%nat) once_closed))
           6 eq_refl eq_refl eq_refl eq_refl eq_refl eq_refl eq_refl eq_refl
           eq_refl eq_refl eq_refl).
  discriminate.
Defined.

(** ** The write pipeline on every input *)

Section writing.

Implicit Types (c : bgp_connection) (wb : bgp_wbuffer) (s : stream)
  (m : list byte) (answers : list sys_answer).

(** What one try to flush a stream does: all of it went out, or the first
    part of it, or nothing. *)
Lemma stream_flush_try_spec s (fd : Z) answers :
  let '(ret, errno, s', evs, _) := stream_flush_try s fd answers in
  let len := Z.of_nat (length (s_bytes s)) in
  s_size s' = s_size s /\
  ((ret = 0 /\ s_bytes s' = [] /\ sent evs = s_bytes s) \/
   (0 < ret <= len /\ s' = s /\
    sent evs = take (Z.to_nat (len - ret)) (s_bytes s)) \/
   (ret = -1 /\ s' = s /\ sent evs = [])).
Proof.
  induction answers as [|[n|e] answers IH]; cbn [stream_flush_try].
  - cbv zeta. split; [reflexivity|].
    destruct (s_bytes s) as [|b l] eqn:Hs.
    + left. simpl. auto.
    + right. left. split; [simpl; lia|]. split; [reflexivity|].
      rewrite Z.sub_diag. reflexivity.
  - cbv zeta.
    destruct (Z.max 0 (Z.min n (Z.of_nat (length (s_bytes s))))
                =? Z.of_nat (length (s_bytes s))) eqn:Hall.
    + split; [reflexivity|]. left. split; [reflexivity|]. split; [reflexivity|].
      apply Z.eqb_eq in Hall. cbn. rewrite app_nil_r.
      apply take_ge. lia.
    + split; [reflexivity|]. right. left. apply Z.eqb_neq in Hall.
      split; [lia|]. split; [reflexivity|]. cbn. rewrite app_nil_r.
      f_equal. lia.
  - destruct (e =? EINTR); [exact IH|].
    destruct ((e =? EAGAIN) || (e =? EWOULDBLOCK)).
    + cbv zeta. split; [reflexivity|].
      destruct (s_bytes s) as [|b l] eqn:Hs.
      * left. simpl. auto.
      * right. left. split; [simpl; lia|]. split; [reflexivity|].
        rewrite Z.sub_diag. reflexivity.
    + cbv zeta. split; [reflexivity|]. right. right. auto.
Qed.

Lemma pending_empty wb : p_in wb = p_out wb -> pending wb = [].
Proof. intros H. unfold pending. rewrite H, Z.sub_diag. reflexivity. Qed.

(** The stream is moved to the start of the block and [k] bytes of it are
    still to go: these are the last [k]. *)
Lemma pending_transfer_base wb m (k : Z) :
  limit wb - base wb = Z.of_nat (length (wb_mem wb)) ->
  base wb + Z.of_nat (length m) <= limit wb ->
  0 <= k <= Z.of_nat (length m) ->
  exists wb1,
    wb_write wb (base wb) m = Ok wb1 /\
    base wb1 = base wb /\ limit wb1 = limit wb /\
    length (wb_mem wb1) = length (wb_mem wb) /\
    pending (with_p_out (base wb + Z.of_nat (length m) - k)
               (with_p_in (base wb + Z.of_nat (length m)) wb1))
    = drop (Z.to_nat (Z.of_nat (length m) - k)) m.
Proof.
  intros Hlen Hroom Hk. unfold wb_write.
  rewrite (wb_offset_ok wb (base wb) _ Hlen) by lia.
  cbn [mbind result_bind]. rewrite Z.sub_diag.
  eexists. split; [reflexivity|]. destruct wb as [f b l pi po mem].
  cbn in *. change (Z.to_nat 0) with 0%nat. rewrite take_0. cbn [app Nat.add].
  split; [reflexivity|]. split; [reflexivity|].
  split.
  - rewrite length_app, length_drop. lia.
  - unfold pending. cbn.
    replace (b + Z.of_nat (length m) - k - b) with (Z.of_nat (length m) - k) by lia.
    replace (b + Z.of_nat (length m) - (b + Z.of_nat (length m) - k)) with k by lia.
    rewrite drop_app_le by lia.
    rewrite take_app_le by (rewrite length_drop; lia).
    apply take_ge. rewrite length_drop. lia.
Qed.

(** The stream is moved behind what is waiting: it waits behind it. *)
Lemma pending_transfer_in wb m :
  limit wb - base wb = Z.of_nat (length (wb_mem wb)) ->
  base wb <= p_out wb -> p_out wb <= p_in wb ->
  p_in wb + Z.of_nat (length m) <= limit wb ->
  exists wb1,
    wb_write wb (p_in wb) m = Ok wb1 /\
    base wb1 = base wb /\ limit wb1 = limit wb /\ p_out wb1 = p_out wb /\
    full wb1 = full wb /\
    length (wb_mem wb1) = length (wb_mem wb) /\
    pending (with_p_in (p_in wb + Z.of_nat (length m)) wb1) = pending wb ++ m.
Proof.
  intros Hlen Hlo Hord Hroom. unfold wb_write.
  rewrite (wb_offset_ok wb (p_in wb) _ Hlen) by lia.
  cbn [mbind result_bind].
  eexists. split; [reflexivity|]. destruct wb as [f b l pi po mem].
  cbn in *. do 4 (split; [reflexivity|]).
  split.
  - rewrite !length_app, length_take, length_drop. lia.
  - unfold pending. cbn.
    set (i := Z.to_nat (pi - b)). set (o := Z.to_nat (po - b)).
    replace (Z.to_nat (pi + Z.of_nat (length m) - po))
      with ((i - o) + length m)%nat by lia.
    replace (Z.to_nat (pi - po)) with (i - o)%nat by lia.
    assert (Ho : (o <= i)%nat) by lia.
    assert (Hi : (i <= length mem)%nat) by lia.
    rewrite drop_app_le by (rewrite length_take; lia).
    rewrite app_assoc.
    rewrite take_app_le by (rewrite length_app, length_drop, length_take; lia).
    rewrite take_ge by (rewrite length_app, length_drop, length_take; lia).
    f_equal. rewrite take_drop_commute. f_equal. f_equal. lia.
Qed.

Lemma write_buffer_init_new_ok wb (addr : Z) :
  base wb = 0 ->
  bgp_write_buffer_init_new wb bgp_wbuff_size addr
  = Ok (mk_wbuffer false addr (addr + bgp_wbuff_size) addr addr
          (repeat x00 (Z.to_nat bgp_wbuff_size))).
Proof.
  intros Hbase. unfold bgp_write_buffer_init_new. rewrite Hbase.
  destruct wb. cbn -[Z.to_nat bgp_wbuff_size BGP_MAX_MSG_L].
  unfold bgp_write_buffer_full. cbn -[Z.to_nat bgp_wbuff_size BGP_MAX_MSG_L].
  replace (addr + bgp_wbuff_size - addr <? BGP_MAX_MSG_L) with false.
  - reflexivity.
  - symmetry. apply Z.ltb_ge. unfold bgp_wbuff_size, BGP_MAX_MSG_L. lia.
Qed.

(** Every byte of obuf and of the write buffer is accounted for by
    [bgp_connection_write]. *)
Lemma write_accounts c (addr : Z) answers :
  wbuff_ok (wbuff c) -> addr <> 0 ->
  room_for (wbuff c) (Z.of_nat (length (s_bytes (obuf c)))) ->
  exists ret c' evs answers',
    bgp_connection_write c addr answers = Ok (ret, c', evs, answers') /\
    sent evs ++ pending (wbuff c') ++ s_bytes (obuf c')
    = pending (wbuff c) ++ s_bytes (obuf c) /\
    (ret = -1 \/ s_bytes (obuf c') = []) /\
    wbuff_ok (wbuff c').
Proof.
  intros Hok Haddr Hroom. unfold bgp_connection_write, room_for in *.
  destruct (bgp_write_buffer_empty (wbuff c)) eqn:Hempty.
  - (* the direct write *)
    apply Z.eqb_eq in Hempty.
    rewrite (pending_empty (wbuff c)) by congruence. cbn [app].
    unfold bgp_connection_write_direct.
    pose proof (stream_flush_try_spec (obuf c) (qps_file_fd (qf c)) answers) as Hflush.
    destruct (stream_flush_try (obuf c) (qps_file_fd (qf c)) answers)
      as [[[[ret errno] s'] evs] answers'].
    cbv zeta in Hflush. destruct Hflush as [Hsize Hflush].
    destruct Hflush as [(-> & Hs' & Hsent) | [(Hret & -> & Hsent) | (-> & -> & Hsent)]].
    + (* all of it went out *)
      cbn [Z.eqb]. eexists _, _, _, _. split; [reflexivity|].
      destruct c. cbn in *. rewrite Hs', Hsent, app_nil_r.
      rewrite pending_empty by (cbn; congruence).
      rewrite app_nil_r. auto.
    + (* part of it, or none: the rest waits in the write buffer *)
      destruct (ret =? 0) eqn:H0; [apply Z.eqb_eq in H0; lia|].
      destruct (ret >? 0) eqn:Hpos; [|rewrite Z.gtb_ltb in Hpos; apply Z.ltb_ge in Hpos; lia].
      set (m := s_bytes (obuf c)) in *.
      assert (Hm : s_bytes (obuf (with_obuf (obuf c) c)) = m) by (destruct c; reflexivity).
      assert (Hwb : wbuff (with_obuf (obuf c) c) = wbuff c) by (destruct c; reflexivity).
      rewrite Hwb.
      destruct (base (wbuff c) =? 0) eqn:Hbase.
      * apply Z.eqb_eq in Hbase.
        rewrite (write_buffer_init_new_ok (wbuff c) addr Hbase).
        cbn [mbind result_bind]. unfold stream_transfer.
        set (wb0 := mk_wbuffer false addr (addr + bgp_wbuff_size) addr addr
                      (repeat x00 (Z.to_nat bgp_wbuff_size))).
        destruct (pending_transfer_base wb0 m ret) as (wb1 & Hw & Hb1 & Hl1 & Hlen1 & Hpend).
        { cbn. rewrite repeat_length. lia. }
        { cbn. lia. }
        { lia. }
        cbn [base limit wb0] in *. fold wb0.
        change (obuf (with_obuf (obuf c) c)) with (obuf c).
        fold m. rewrite (proj2 (Z.leb_le _ _)) by lia.
        cbn [c_assert mbind result_bind]. rewrite Hw. cbn [mbind result_bind].
        eexists _, _, _, _. split; [reflexivity|].
        destruct c. cbn in *. split; [|split; [right; reflexivity|]].
        -- rewrite Hpend, Hsent, app_nil_r. apply take_drop.
        -- right. destruct wb1. cbn in *. subst.
           rewrite repeat_length in Hlen1. rewrite Hlen1.
           unfold bgp_wbuff_size, BGP_MAX_MSG_L in *. lia.
      * apply Z.eqb_neq in Hbase.
        destruct Hok as [[Hb _] | (_ & Hlen & Hlo & Hord & Hhi)]; [contradiction|].
        cbn [mbind result_bind]. unfold stream_transfer.
        destruct (pending_transfer_base (wbuff c) m ret) as (wb1 & Hw & Hb1 & Hl1 & Hlen1 & Hpend);
          [exact Hlen|exact Hroom|lia|].
        change (obuf (with_obuf (obuf c) c)) with (obuf c).
        fold m. rewrite (proj2 (Z.leb_le _ _)) by exact Hroom.
        cbn [c_assert mbind result_bind]. rewrite Hw. cbn [mbind result_bind].
        eexists _, _, _, _. split; [reflexivity|].
        destruct c. cbn in *. split; [|split; [right; reflexivity|]].
        -- rewrite Hpend, Hsent, app_nil_r. apply take_drop.
        -- right. destruct wb1. cbn in *. subst. lia.
    + (* the write failed *)
      cbn [Z.eqb Z.gtb Z.compare]. eexists _, _, _, _. split; [reflexivity|].
      destruct c. cbn in *. rewrite pending_empty by (cbn; congruence).
      split; [|split; [left; reflexivity|exact Hok]].
      unfold sent in *. rewrite flat_map_app, Hsent. reflexivity.
  - (* behind what is waiting *)
    apply Z.eqb_neq in Hempty.
    destruct Hok as [[_ Heq] | (Hbase & Hlen & Hlo & Hord & Hhi)]; [congruence|].
    unfold stream_transfer.
    rewrite (proj2 (Z.leb_le _ _)) by exact Hroom.
    cbn [c_assert mbind result_bind].
    destruct (pending_transfer_in (wbuff c) (s_bytes (obuf c)) Hlen Hlo Hord Hroom)
      as (wb1 & Hw & Hb1 & Hl1 & Hpo1 & _ & Hlen1 & Hpend).
    rewrite Hw. cbn [mbind result_bind].
    eexists _, _, _, _. split; [reflexivity|].
    destruct c. cbn in *. rewrite Hpend, app_nil_r.
    split; [reflexivity|]. split; [right; reflexivity|].
    right. destruct wb1. cbn in *. subst. lia.
Qed.

End writing.

Section write_action.

Implicit Types (e : bgp_engine) (r : conn_ref) (c : bgp_connection)
  (wb : bgp_wbuffer) (answers : list sys_answer).

Lemma to_int_small (z : Z) : - 2^31 <= z < 2^31 -> to_int z = z.
Proof.
  intros H. unfold to_int.
  rewrite Z.mod_small by lia. lia.
Qed.

Lemma wb_read_inv wb (addr n : Z) (bytes : list byte) :
  wb_read wb addr n = Ok bytes ->
  base wb <= addr /\ addr + n <= limit wb /\
  limit wb - base wb = Z.of_nat (length (wb_mem wb)) /\
  bytes = take (Z.to_nat n) (drop (Z.to_nat (addr - base wb)) (wb_mem wb)).
Proof.
  unfold wb_read, wb_offset.
  destruct (base wb <=? addr) eqn:H1; [|discriminate].
  destruct (addr + n <=? limit wb) eqn:H2; [|discriminate].
  destruct (limit wb - base wb =? _) eqn:H3; [|discriminate].
  cbn. intros [= <-].
  apply Z.leb_le in H1, H2. apply Z.eqb_eq in H3. auto.
Qed.

Lemma sent_write (fd n : Z) (bytes : list byte) (evs : list effect) :
  sent (Sys_write fd n bytes :: evs) = bytes ++ sent evs.
Proof. reflexivity. Qed.

(** With something waiting [have] starts negative, and the loop can only
    make it more so: it ends by returning, never with [have == 0]. *)
Lemma write_action_loop_returns answers (fd : Z) :
  forall wb (have : Z) x wb' evs answers',
    Z.of_nat (length (wb_mem wb)) < 2^31 ->
    base wb <= p_out wb ->
    have < 0 -> - 2^31 < have - (limit wb - p_out wb) ->
    write_action_loop answers fd wb have = Ok (x, wb', evs, answers') ->
    x = Write_returned /\
    wb' = with_p_out (p_out wb') wb /\
    p_out wb <= p_out wb' /\
    sent evs = take (Z.to_nat (p_out wb' - p_out wb))
                 (drop (Z.to_nat (p_out wb - base wb)) (wb_mem wb)).
Proof.
  induction answers as [|answer answers IH];
    intros wb have x wb' evs answers' Hmem Hlo Hneg Hbound;
    cbn [write_action_loop];
    (destruct (have =? 0) eqn:H0; [apply Z.eqb_eq in H0; lia|]).
  - intros [= <- <- <- <-]. split; [reflexivity|].
    split; [destruct wb; reflexivity|]. split; [lia|].
    rewrite Z.sub_diag. reflexivity.
  - destruct answer as [n|errno]; cbn [sys_write].
    + destruct (wb_read wb (p_out wb) _) as [bytes|] eqn:Hread; [|discriminate].
      apply wb_read_inv in Hread as (_ & Hhi & Hlen & Hbytes).
      cbn [mbind result_bind].
      set (ret := Z.max 0 (Z.min n (to_size_t have))) in *.
      assert (Hret : 0 <= ret) by lia.
      rewrite (to_int_small ret) by lia.
      destruct (ret >? 0) eqn:Hpos.
      * rewrite Z.gtb_ltb in Hpos. apply Z.ltb_lt in Hpos.
        rewrite (to_int_small (have - ret)) by lia.
        destruct (write_action_loop answers fd _ _)
          as [[[[x1 wb1] evs1] answers1]|] eqn:Hloop; [|discriminate].
        cbn [mbind result_bind]. intros [= <- <- <- <-].
        apply IH in Hloop as (-> & Hwb1 & Hle & Hsent).
        2:{ destruct wb; exact Hmem. }
        2:{ destruct wb; cbn in *; lia. }
        2:{ lia. }
        2:{ destruct wb; cbn in *; lia. }
        split; [reflexivity|].
        rewrite sent_write.
        destruct wb as [f b l pi po mem]. cbn in *.
        split; [rewrite Hwb1; reflexivity|]. split; [lia|].
        rewrite Hsent, Hbytes.
        replace (Z.to_nat (p_out wb1 - po))
          with (Z.to_nat ret + Z.to_nat (p_out wb1 - (po + ret)))%nat by lia.
        replace (Z.to_nat (po + ret - b))
          with (Z.to_nat (po - b) + Z.to_nat ret)%nat by lia.
        rewrite <- drop_drop. apply take_take_drop.
      * rewrite Z.gtb_ltb in Hpos. apply Z.ltb_ge in Hpos.
        assert (ret = 0) as Hz by lia.
        destruct (ret <? 0) eqn:Hlt; [apply Z.ltb_lt in Hlt; lia|].
        destruct (write_action_loop answers fd _ _)
          as [[[[x1 wb1] evs1] answers1]|] eqn:Hloop; [|discriminate].
        cbn [mbind result_bind]. intros [= <- <- <- <-].
        apply IH in Hloop as (-> & Hwb1 & Hle & Hsent); try assumption.
        split; [reflexivity|]. split; [exact Hwb1|]. split; [exact Hle|].
        rewrite sent_write, Hsent, Hbytes, Hz.
        change (Z.to_nat 0) with 0%nat. rewrite take_0. reflexivity.
    + cbn [mbind result_bind].
      change (to_int (-1)) with (-1). cbn [Z.gtb Z.ltb Z.compare].
      destruct (errno =? EINTR).
      * destruct (write_action_loop answers fd _ _)
          as [[[[x1 wb1] evs1] answers1]|] eqn:Hloop; [|discriminate].
        cbn [mbind result_bind]. intros [= <- <- <- <-].
        apply IH in Hloop as (-> & Hwb1 & Hle & Hsent); try assumption.
        auto.
      * destruct (negb (errno =? EAGAIN) && negb (errno =? EWOULDBLOCK));
          cbn [mbind result_bind]; intros [= <- <- <- <-];
          (split; [reflexivity|]); (split; [destruct wb; reflexivity|]);
          (split; [lia|]); rewrite Z.sub_diag; reflexivity.
Qed.

(** With bytes waiting the write action ends by returning from inside the
    loop: the connection is stored with [p_out] moved on and nothing else
    changed. *)
Lemma write_action_pending e r c answers e' answers' :
  conns e !! r = Some c ->
  limit (wbuff c) - base (wbuff c) = Z.of_nat (length (wb_mem (wbuff c))) ->
  Z.of_nat (length (wb_mem (wbuff c))) < 2^30 ->
  base (wbuff c) <= p_out (wbuff c) ->
  p_out (wbuff c) < p_in (wbuff c) ->
  p_in (wbuff c) <= limit (wbuff c) ->
  bgp_connection_write_action (Some r) answers e = Ok (e', answers') ->
  exists (q : Z) evs,
    p_out (wbuff c) <= q /\
    e' = with_conns (<[r := with_wbuff (with_p_out q (wbuff c)) c]> (conns e))
           (emit evs e) /\
    sent evs = take (Z.to_nat (q - p_out (wbuff c)))
                 (drop (Z.to_nat (p_out (wbuff c) - base (wbuff c)))
                    (wb_mem (wbuff c))).
Proof.
  intros Hc Hlen Hsmall Hlo Hne Hhi.
  unfold bgp_connection_write_action, load.
  cbn [deref mbind result_bind]. rewrite Hc. cbn [deref mbind result_bind].
  rewrite (to_int_small (p_out (wbuff c) - p_in (wbuff c))) by lia.
  destruct (write_action_loop answers _ _ _)
    as [[[[x wb'] evs] answers1]|] eqn:Hloop; [|discriminate].
  apply write_action_loop_returns in Hloop as (-> & Hwb' & Hle & Hsent);
    [|lia..].
  cbn [mbind result_bind]. unfold store. cbn [deref mbind result_bind].
  change (conns (emit evs e) !! r) with (conns e !! r). rewrite Hc.
  cbn [deref mbind result_bind]. intros [= <- <-].
  exists (p_out wb'), evs. split; [exact Hle|]. split; [|exact Hsent].
  rewrite <- Hwb'. reflexivity.
Qed.

Lemma ring_emit e l (evs : list effect) : ring e l -> ring (emit evs e) l.
Proof.
  intros (Hnd & Hshape & Hout). split; [exact Hnd|]. split; [|exact Hout].
  destruct l as [|h t]; [exact Hshape|].
  destruct Hshape as [Hq Hchain]. split; [exact Hq|].
  revert Hchain. apply chain_frame; intros; reflexivity.
Qed.

(** With nothing waiting the loop is not entered, whatever the socket would
    answer: the buffer is reset, write readiness disabled, and the
    connection goes to the end of the connection queue, unless it was
    waiting to send a NOTIFICATION. *)
Lemma write_action_idle e l r c answers :
  ring e l -> conns e !! r = Some c ->
  p_out (wbuff c) = p_in (wbuff c) ->
  exists e',
    bgp_connection_write_action (Some r) answers e = Ok (e', answers) /\
    sessions e' = sessions e /\
    (forall r', unlinked <$> conns e' !! r'
                = unlinked <$> (<[r := drained c]> (conns e)) !! r') /\
    if notification_pending c
    then events e' = events e ++ [Fsm_event bgp_fsm_Sent_NOTIFICATION_message] /\
         ring e' l
    else events e' = events e /\
         ring e' (if decide (r ∈ l) then l else l ++ [r]).
Proof.
  intros Hring Hc Hempty.
  unfold bgp_connection_write_action, load.
  cbn [deref mbind result_bind]. rewrite Hc. cbn [deref mbind result_bind].
  rewrite Hempty, Z.sub_diag. change (to_int 0) with 0.
  assert (Hloop : write_action_loop answers (qps_file_fd (qf c)) (wbuff c) 0
                  = Ok (Write_emptied, wbuff c, [], answers))
    by (destruct answers; reflexivity).
  rewrite Hloop. cbn [mbind result_bind].
  unfold store. cbn [deref mbind result_bind].
  change (conns (emit [] e) !! r) with (conns e !! r). rewrite Hc.
  cbn [deref mbind result_bind].
  set (c1 := with_qf _ _).
  assert (Hc1 : c1 = drained c).
  { unfold c1, drained. destruct c as [? ? ? ? ? ? ? ? ? ? ? ? ? ? ? ? ? ? ? ? ? ? ? ? ? ? [? ? ? ? ? ?] ?]. reflexivity. }
  assert (Hlinks : next c1 = next c /\ prev c1 = prev c /\
                   notification_pending c1 = notification_pending c)
    by (rewrite Hc1; destruct c; repeat split).
  destruct Hlinks as (Hn & Hp & Hnp).
  pose proof (ring_store (emit [] e) l r c c1 (ring_emit e l [] Hring) Hc Hn Hp)
    as Hring1.
  set (e1 := with_conns _ _) in *.
  assert (Hev1 : events e1 = events e) by (cbn; apply app_nil_r).
  assert (Hconns1 : conns e1 = <[r := c1]> (conns e)) by reflexivity.
  rewrite Hnp. destruct (notification_pending c).
  - eexists. split; [reflexivity|]. split; [reflexivity|]. split.
    + intros r'. cbn. rewrite Hc1. reflexivity.
    + split; [cbn; rewrite app_nil_r; reflexivity|]. apply ring_emit. exact Hring1.
  - destruct (decide (r ∈ l)) as [Hin | Hout].
    + rewrite (queue_add_on_ring e1 l r Hring1 Hin). cbn [mbind result_bind].
      exists e1. split; [reflexivity|]. split; [reflexivity|]. split.
      * intros r'. rewrite Hconns1, Hc1. reflexivity.
      * split; [exact Hev1|exact Hring1].
    + destruct (queue_add_ring e1 l r c1 Hring1) as (e2 & Hadd & Hring2 & Hs2 & Hev2 & Hframe2).
      { rewrite Hconns1. apply lookup_insert_eq. }
      { exact Hout. }
      rewrite Hadd. cbn [mbind result_bind].
      exists e2. split; [reflexivity|]. split; [exact Hs2|]. split.
      * intros r'. rewrite Hframe2, Hconns1, Hc1. reflexivity.
      * split; [congruence|exact Hring2].
Qed.

End write_action.

(** X17: [bgp_connection_write] loses no byte and keeps the order: what it
    gave to the socket, followed by what then waits in the write buffer and
    what is left in obuf, is what waited in the write buffer followed by
    obuf.  Unless the write failed obuf is empty afterwards, and the write
    buffer's pointers stay in order inside its block. *)
Theorem write_conserves (c : bgp_connection) (addr : Z)
    (answers : list sys_answer) :
  wbuff_ok (wbuff c) -> addr <> 0 ->
  room_for (wbuff c) (Z.of_nat (length (s_bytes (obuf c)))) ->
  exists ret c' evs answers',
    bgp_connection_write c addr answers = Ok (ret, c', evs, answers') /\
    sent evs ++ pending (wbuff c') ++ s_bytes (obuf c')
    = pending (wbuff c) ++ s_bytes (obuf c) /\
    (ret = -1 \/ s_bytes (obuf c') = []) /\
    wbuff_ok (wbuff c').
Proof. apply write_accounts. Qed.

(** The socket takes 10 bytes of a KEEPALIVE. *)
Lemma write_conserves_keepalive :
  exists ret c' evs answers',
    bgp_connection_write (with_obuf_bytes keepalive connection_open) 8192
      [Sys_accept 10] = Ok (ret, c', evs, answers') /\
    sent evs ++ pending (wbuff c') ++ s_bytes (obuf c') = keepalive.
Proof.
  destruct (write_conserves (with_obuf_bytes keepalive connection_open) 8192
              [Sys_accept 10])
    as (ret & c' & evs & answers' & Hrun & Hbytes & _).
  - left. split; reflexivity.
  - discriminate.
  - vm_compute. discriminate.
  - exists ret, c', evs, answers'. split; [exact Hrun|exact Hbytes].
Defined.

(** X18: with bytes waiting in the write buffer,
    [bgp_connection_write_action] never resets the buffer, never disables
    write readiness and never puts the connection on the connection queue,
    whatever the socket takes: it only moves [p_out] on, past [p_in] if the
    socket takes that much, and what it gives to the socket is the content
    of the block from the old [p_out] to the new one. *)
Theorem write_action_never_resets (e : bgp_engine) (r : conn_ref)
    (c : bgp_connection) (answers : list sys_answer) (e' : bgp_engine)
    (answers' : list sys_answer) :
  conns e !! r = Some c ->
  limit (wbuff c) - base (wbuff c) = Z.of_nat (length (wb_mem (wbuff c))) ->
  Z.of_nat (length (wb_mem (wbuff c))) < 2^30 ->
  base (wbuff c) <= p_out (wbuff c) ->
  p_out (wbuff c) < p_in (wbuff c) ->
  p_in (wbuff c) <= limit (wbuff c) ->
  bgp_connection_write_action (Some r) answers e = Ok (e', answers') ->
  exists (q : Z) evs,
    p_out (wbuff c) <= q /\
    e' = with_conns (<[r := with_wbuff (with_p_out q (wbuff c)) c]> (conns e))
           (emit evs e) /\
    sent evs = take (Z.to_nat (q - p_out (wbuff c)))
                 (drop (Z.to_nat (p_out (wbuff c) - base (wbuff c)))
                    (wb_mem (wbuff c))).
Proof. apply write_action_pending. Qed.

(** A KEEPALIVE waits; the kernel refuses the count that is asked for. *)
Lemma write_action_never_resets_keepalive :
  exists e' answers',
    bgp_connection_write_action (Some 0%nat) [Sys_errno EFAULT] one_waiting
    = Ok (e', answers') /\
    bgp_connection_queue e' = None.
Proof.
  assert (Hok : returns (bgp_connection_write_action (Some 0%nat)
                           [Sys_errno EFAULT] one_waiting) = true)
    by (vm_compute; reflexivity).
  destruct (bgp_connection_write_action (Some 0%nat) [Sys_errno EFAULT] one_waiting)
    as [[e' answers']|] eqn:Hrun; [|discriminate Hok].
  exists e', answers'. split; [reflexivity|].
  destruct (write_action_never_resets one_waiting 0%nat connection_waiting
              [Sys_errno EFAULT] e' answers' eq_refl)
    as (q & evs & _ & -> & _);
    [vm_compute; reflexivity | vm_compute; reflexivity
    | vm_compute; discriminate | vm_compute; reflexivity
    | vm_compute; discriminate | exact Hrun | reflexivity].
Defined.

(** X19: with nothing waiting in the write buffer the write action makes no
    system call, whatever the socket would answer: it resets the buffer and
    disables write readiness, and then either raises Sent_NOTIFICATION, when
    the connection was waiting to send one, or puts the connection at the end
    of the connection queue, if it is not on it yet. *)
Theorem write_action_when_empty (e : bgp_engine) (l : list conn_ref)
    (r : conn_ref) (c : bgp_connection) (answers : list sys_answer) :
  ring e l -> conns e !! r = Some c ->
  p_out (wbuff c) = p_in (wbuff c) ->
  exists e',
    bgp_connection_write_action (Some r) answers e = Ok (e', answers) /\
    sessions e' = sessions e /\
    (forall r', unlinked <$> conns e' !! r'
                = unlinked <$> (<[r := drained c]> (conns e)) !! r') /\
    if notification_pending c
    then events e' = events e ++ [Fsm_event bgp_fsm_Sent_NOTIFICATION_message] /\
         ring e' l
    else events e' = events e /\
         ring e' (if decide (r ∈ l) then l else l ++ [r]).
Proof. apply write_action_idle. Qed.

(** The secondary connection has nothing to write and goes behind the
    primary on the queue. *)
Lemma write_action_when_empty_secondary :
  exists e',
    bgp_connection_write_action (Some 1%nat) [Sys_accept 19] one_ready
    = Ok (e', [Sys_accept 19]) /\
    ring e' [0%nat; 1%nat].
Proof.
  destruct (write_action_when_empty one_ready [0%nat] 1%nat
              (the zero_connection (load (Some 1%nat) one_ready))
              [Sys_accept 19] ring_one_ready eq_refl eq_refl)
    as (e' & Hrun & _ & _ & Hev & Hring).
  exists e'. split; [exact Hrun|exact Hring].
Defined.

(** ** The read framer on every stream *)

Section reading.

Implicit Types (c : bgp_connection) (s : stream) (rx : socket_rx)
  (evs : list effect).

(** What a read does to the stream and the socket. *)
Lemma read_unblock_spec s (fd want : Z) rx :
  exists ret errno s' rx',
    stream_read_unblock s fd want rx = (ret, errno, s', rx') /\
    s_bytes s ++ rx_bytes rx = s_bytes s' ++ rx_bytes rx' /\
    rx_then rx' = rx_then rx /\
    (ret < 0 -> s' = s) /\
    (0 <= ret ->
     Z.of_nat (length (s_bytes s')) = Z.of_nat (length (s_bytes s)) + ret /\
     (exists extra, s_bytes s' = s_bytes s ++ extra) /\
     (0 <= want -> ret <= want)).
Proof.
  unfold stream_read_unblock.
  destruct (want =? 0) eqn:Hw.
  - exists 0, 0, s, rx. split; [reflexivity|]. split; [reflexivity|].
    split; [reflexivity|]. split; [reflexivity|]. intros _.
    split; [lia|]. split; [exists []; rewrite app_nil_r; reflexivity|]. lia.
  - destruct (rx_bytes rx) as [|b bytes] eqn:Hrx.
    + destruct (rx_then rx) eqn:Hthen; eexists _, _, _, _;
        (split; [reflexivity|]);
        rewrite ?Hrx; (split; [reflexivity|]); (split; [assumption|]);
        (split; [reflexivity|]); intros H; try lia.
      split; [lia|]. split; [exists []; rewrite app_nil_r; reflexivity|].
      apply Z.eqb_neq in Hw. lia.
    + eexists _, _, _, _. split; [reflexivity|]. cbn [s_bytes rx_bytes rx_then].
      split; [rewrite <- app_assoc, take_drop; reflexivity|].
      split; [reflexivity|]. split; [lia|]. intros _.
      split; [rewrite length_app; lia|]. split; [eauto|].
      intros Hwant. rewrite length_take. lia.
Qed.

(** The loop moves bytes from the socket to the end of ibuf, in order. *)
Lemma read_action_loop_moves (fuel : nat) :
  forall c (want : Z) rx x c' evs rx',
    read_action_loop fuel c want rx = Ok (x, c', evs, rx') ->
    s_bytes (ibuf c) ++ rx_bytes rx = s_bytes (ibuf c') ++ rx_bytes rx' /\
    rx_then rx' = rx_then rx.
Proof.
  induction fuel as [|fuel IH]; intros c want rx x c' evs rx'; [discriminate|].
  cbn [read_action_loop].
  destruct (read_unblock_spec (ibuf c) (qps_file_fd (qf c)) want rx)
    as (ret & errno & s' & rx1 & -> & Hbytes & Hthen & _).
  assert (Hibuf : forall c0, s_bytes (ibuf (with_ibuf s' c0)) = s_bytes s')
    by (intros c0; destruct c0; reflexivity).
  destruct (ret >=? 0).
  - destruct (negb (want - ret =? 0)).
    + intros [= <- <- <- <-]. rewrite Hbytes, Hthen.
      split; reflexivity.
    + destruct (negb (read_header (with_ibuf s' c))).
      * intros [= <- <- <- <-]. rewrite Hbytes, Hthen, Hibuf. auto.
      * destruct (bgp_msg_check_header _) as [want' evs0].
        destruct (want' <? 0).
        -- intros [= <- <- <- <-]. rewrite Hbytes, Hthen.
           split; reflexivity.
        -- intros Hloop. apply IH in Hloop as [Hb Ht].
           rewrite Hbytes, <- Hb, Ht, Hthen.
           split; reflexivity.
  - intros [= <- <- <- <-]. rewrite Hbytes, Hthen, Hibuf. auto.
Qed.

(** The read action returns, and what it held and the socket had is what it
    holds and the socket has afterwards; a message it hands over is what it
    holds then, and it is at rest. *)
Lemma read_action_moves c rx :
  exists c' evs rx',
    bgp_connection_read_action 2 c rx = Ok (c', evs, rx') /\
    held c ++ rx_bytes rx = s_bytes (ibuf c') ++ rx_bytes rx' /\
    rx_then rx' = rx_then rx /\
    (forall m, Msg_dispatch m ∈ evs ->
               m = s_bytes (ibuf c') /\ read_pending c' = 0).
Proof.
  destruct (read_action_returns c rx) as [[[c' evs] rx'] Hrun].
  exists c', evs, rx'. split; [exact Hrun|].
  revert Hrun. unfold bgp_connection_read_action, held.
  set (start := if read_pending c =? 0 then _ else _).
  assert (Hstart : s_bytes (ibuf (snd start))
                   = if read_pending c =? 0 then [] else s_bytes (ibuf c)).
  { unfold start. destruct (read_pending c =? 0); [destruct c|]; reflexivity. }
  destruct start as [want c0]. cbn [snd] in Hstart.
  destruct (read_action_loop 2 c0 want rx) as [[[[x c1] evs1] rx1]|] eqn:Hloop;
    [|discriminate].
  pose proof (read_action_loop_events 2 c0 want rx x c1 evs1 rx1 Hloop) as Hevs.
  apply read_action_loop_moves in Hloop as [Hbytes Hthen].
  cbn [mbind result_bind]. rewrite <- Hstart, Hbytes.
  destruct x; intros [= <- <- <-].
  - split; [f_equal; destruct c1; reflexivity|]. split; [exact Hthen|].
    intros m Hm. apply elem_of_app in Hm as [Hm | Hm].
    + exfalso. exact (Hevs m Hm).
    + apply list_elem_of_singleton in Hm. injection Hm as ->.
      split; destruct c1; reflexivity.
  - split; [reflexivity|]. split; [exact Hthen|].
    intros m Hm. exfalso. exact (Hevs m Hm).
Qed.

Lemma forallb_repeat (x : byte) (b : list byte) :
  forallb (Byte.eqb x) b = true -> b = repeat x (length b).
Proof.
  induction b as [|y b IH]; [reflexivity|]. cbn [forallb length repeat].
  intros H. apply andb_true_iff in H as [Hy Hb].
  apply Byte.byte_dec_bl in Hy as <-. f_equal. exact (IH Hb).
Qed.

Lemma is_marker_eq (b : list byte) : is_marker b = true -> b = repeat xff 16.
Proof.
  unfold is_marker. intros H. apply andb_true_iff in H as [Hall Hlen].
  apply Nat.eqb_eq in Hlen. rewrite <- Hlen. apply forallb_repeat. exact Hall.
Qed.

(** The header check either raises the header error or finds a header that
    announces a message of a proper length and type. *)
Lemma check_header_cases s (w : Z) evs :
  bgp_msg_check_header s = (w, evs) ->
  (w = -1 /\ evs = [Fsm_header_error]) \/
  (evs = [] /\ 0 <= w /\
   msg_mlen (s_bytes s) = Some (w + BGP_MH_HEAD_L) /\
   w + BGP_MH_HEAD_L <= BGP_MAX_MSG_L /\
   take 16 (s_bytes s) = repeat xff 16 /\
   exists ty, s_bytes s !! 18%nat = Some ty /\ bgp_type_ok ty = true).
Proof.
  unfold bgp_msg_check_header.
  destruct (msg_mlen (s_bytes s)) as [len|]; [|intros [= <- <-]; auto].
  destruct (s_bytes s !! 18%nat) as [ty|]; [|intros [= <- <-]; auto].
  destruct (is_marker _) eqn:Hmark; [|intros [= <- <-]; auto].
  destruct (BGP_MH_HEAD_L <=? len) eqn:Hlo; [|intros [= <- <-]; auto].
  destruct (len <=? BGP_MAX_MSG_L) eqn:Hhi; [|intros [= <- <-]; auto].
  destruct (bgp_type_ok ty) eqn:Hty; intros [= <- <-]; [|auto].
  right. apply Z.leb_le in Hlo, Hhi. apply is_marker_eq in Hmark.
  split; [reflexivity|]. split; [lia|]. split; [f_equal; lia|].
  split; [lia|]. split; [exact Hmark|]. exists ty. auto.
Qed.

(** The check looks at the header only. *)
Lemma check_header_ext s s' (extra : list byte) :
  BGP_MH_HEAD_L <= Z.of_nat (length (s_bytes s)) ->
  s_bytes s' = s_bytes s ++ extra ->
  bgp_msg_check_header s' = bgp_msg_check_header s.
Proof.
  unfold BGP_MH_HEAD_L. intros Hlen Hs'. unfold bgp_msg_check_header, msg_mlen.
  rewrite Hs', !lookup_app_l by lia.
  rewrite take_app_le by lia. reflexivity.
Qed.

(** A whole message in ibuf whose header passed the check is a well-formed
    message. *)
Lemma check_header_message s :
  bgp_msg_check_header s
  = (Z.of_nat (length (s_bytes s)) - BGP_MH_HEAD_L, []) ->
  BGP_MH_HEAD_L <= Z.of_nat (length (s_bytes s)) ->
  bgp_message (s_bytes s).
Proof.
  intros Hcheck Hlen.
  apply check_header_cases in Hcheck
    as [[_ ?] | (_ & _ & Hmlen & Hmax & Hmark & Hty)]; [discriminate|].
  replace (Z.of_nat (length (s_bytes s)) - BGP_MH_HEAD_L + BGP_MH_HEAD_L)
    with (Z.of_nat (length (s_bytes s))) in * by lia.
  split; [split; [exact Hmlen|lia]|]. split; assumption.
Qed.

(** What the loop leaves when it reads the body of a message whose header
    has passed the check. *)
Lemma read_loop_body_sound (fuel : nat) c (want : Z) rx x c' evs rx' :
  read_header c = false -> 0 <= want ->
  BGP_MH_HEAD_L <= Z.of_nat (length (s_bytes (ibuf c))) ->
  bgp_msg_check_header (ibuf c)
  = (Z.of_nat (length (s_bytes (ibuf c))) + want - BGP_MH_HEAD_L, []) ->
  read_action_loop fuel c want rx = Ok (x, c', evs, rx') ->
  match x with
  | Read_complete => evs = [] /\ bgp_message (s_bytes (ibuf c'))
  | Read_returned =>
      existsb read_error evs = false ->
      evs = [] /\ framing c' /\ read_pending c' <> 0
  end.
Proof.
  intros Hhdr Hwant Hlen Hcheck. destruct fuel as [|fuel]; [discriminate|].
  cbn [read_action_loop].
  destruct (read_unblock_spec (ibuf c) (qps_file_fd (qf c)) want rx)
    as (ret & errno & s' & rx1 & -> & _ & _ & _ & Hgot).
  destruct (ret >=? 0) eqn:Hret.
  - apply Z.geb_le in Hret. destruct (Hgot Hret) as (Hlen' & [extra Hext] & Hle).
    specialize (Hle Hwant).
    pose proof (check_header_ext (ibuf c) s' extra Hlen Hext) as Hsame.
    destruct (want - ret =? 0) eqn:Hdone; cbn [negb].
    + apply Z.eqb_eq in Hdone.
      change (read_header (with_ibuf s' c)) with (read_header c).
      rewrite Hhdr. cbn [negb]. intros [= <- <- <- <-].
      split; [reflexivity|].
      change (s_bytes (ibuf (with_ibuf s' c))) with (s_bytes s').
      apply check_header_message; [|lia].
      rewrite Hsame, Hcheck. f_equal. lia.
    + apply Z.eqb_neq in Hdone. intros [= <- <- <- <-] _.
      split; [reflexivity|].
      split; [|change (want - ret <> 0); exact Hdone].
      right. right.
      change (read_header c = false /\ 0 < want - ret /\
              BGP_MH_HEAD_L <= Z.of_nat (length (s_bytes s')) /\
              bgp_msg_check_header s'
              = (Z.of_nat (length (s_bytes s')) + (want - ret) - BGP_MH_HEAD_L, [])).
      split; [exact Hhdr|]. split; [lia|]. split; [lia|].
      rewrite Hsame, Hcheck. f_equal. lia.
  - intros [= <- <- <- <-]. discriminate.
Qed.

(** What the loop leaves when it reads a header. *)
Lemma read_loop_header_sound (fuel : nat) c (want : Z) rx x c' evs rx' :
  read_header c = true -> 0 < want ->
  Z.of_nat (length (s_bytes (ibuf c))) + want = BGP_MH_HEAD_L ->
  read_action_loop fuel c want rx = Ok (x, c', evs, rx') ->
  match x with
  | Read_complete => evs = [] /\ bgp_message (s_bytes (ibuf c'))
  | Read_returned =>
      existsb read_error evs = false ->
      evs = [] /\ framing c' /\ read_pending c' <> 0
  end.
Proof.
  intros Hhdr Hwant Hlen. destruct fuel as [|fuel]; [discriminate|].
  cbn [read_action_loop].
  destruct (read_unblock_spec (ibuf c) (qps_file_fd (qf c)) want rx)
    as (ret & errno & s' & rx1 & -> & _ & _ & _ & Hgot).
  destruct (ret >=? 0) eqn:Hret.
  - apply Z.geb_le in Hret. destruct (Hgot Hret) as (Hlen' & _ & Hle).
    specialize (Hle ltac:(lia)).
    destruct (want - ret =? 0) eqn:Hdone; cbn [negb].
    + apply Z.eqb_eq in Hdone.
      change (read_header (with_ibuf s' c)) with (read_header c).
      rewrite Hhdr. cbn [negb].
      change (ibuf (with_read_header false (with_ibuf s' c))) with s'.
      destruct (bgp_msg_check_header s') as [w evs0] eqn:Hcheck.
      destruct (check_header_cases s' w evs0 Hcheck)
        as [[-> ->] | (-> & Hw & _)].
      * cbn [Z.ltb Z.compare]. intros [= <- <- <- <-]. discriminate.
      * rewrite (proj2 (Z.ltb_ge w 0) Hw).
        apply read_loop_body_sound.
        -- reflexivity.
        -- exact Hw.
        -- change (BGP_MH_HEAD_L <= Z.of_nat (length (s_bytes s'))). lia.
        -- change (bgp_msg_check_header s'
                   = (Z.of_nat (length (s_bytes s')) + w - BGP_MH_HEAD_L, [])).
           rewrite Hcheck. f_equal. lia.
    + apply Z.eqb_neq in Hdone. intros [= <- <- <- <-] _.
      split; [reflexivity|].
      split; [|change (want - ret <> 0); exact Hdone].
      right. left.
      change (read_header c = true /\ 0 < want - ret /\
              Z.of_nat (length (s_bytes s')) + (want - ret) = BGP_MH_HEAD_L).
      split; [exact Hhdr|]. split; lia.
  - intros [= <- <- <- <-]. discriminate.
Qed.

(** From a framer that is as it should be, a call of the read action that
    raises no error hands over at most one message, a well-formed one, which
    is what was held followed by what was taken from the socket; what it
    holds afterwards is the rest. *)
Lemma read_action_keeps_framing c rx c' evs rx' :
  framing c ->
  bgp_connection_read_action 2 c rx = Ok (c', evs, rx') ->
  existsb read_error evs = false ->
  held c ++ rx_bytes rx = concat (dispatched evs) ++ held c' ++ rx_bytes rx' /\
  Forall bgp_message (dispatched evs) /\
  framing c'.
Proof.
  intros Hframing Hrun.
  destruct (read_action_moves c rx) as (c2 & evs2 & rx2 & Hrun2 & Hbytes & _).
  rewrite Hrun in Hrun2. injection Hrun2 as <- <- <-. rewrite Hbytes. clear Hbytes.
  revert Hrun. unfold bgp_connection_read_action.
  set (start := if read_pending c =? 0 then _ else _).
  destruct (read_action_loop 2 (snd start) (fst start) rx)
    as [[[[x c1] evs1] rx1]|] eqn:Hloop.
  2:{ destruct start. cbn [fst snd] in Hloop. rewrite Hloop. discriminate. }
  assert (Hsound : match x with
                   | Read_complete => evs1 = [] /\ bgp_message (s_bytes (ibuf c1))
                   | Read_returned =>
                       existsb read_error evs1 = false ->
                       evs1 = [] /\ framing c1 /\ read_pending c1 <> 0
                   end).
  { unfold start in Hloop. destruct (read_pending c =? 0) eqn:Hp.
    - cbn [fst snd] in Hloop. revert Hloop. apply read_loop_header_sound.
      + destruct c; reflexivity.
      + unfold BGP_MH_HEAD_L. lia.
      + destruct c; reflexivity.
    - apply Z.eqb_neq in Hp. cbn [fst snd] in Hloop. revert Hloop.
      destruct Hframing as [H0 | [(Hh & Hpos & Hlen) | (Hh & Hpos & Hlen & Hcheck)]].
      + contradiction.
      + apply read_loop_header_sound; assumption.
      + apply read_loop_body_sound; [assumption|lia|assumption|assumption]. }
  destruct start as [want c0]. cbn [fst snd] in Hloop. rewrite Hloop.
  cbn [mbind result_bind]. destruct x; intros [= <- <- <-] Hquiet.
  - destruct Hsound as [-> Hmsg]. cbn [app].
    change (dispatched (bgp_msg_dispatch c1)) with [s_bytes (ibuf c1)].
    change (s_bytes (ibuf (with_read_pending 0 c1))) with (s_bytes (ibuf c1)).
    unfold held. change (read_pending (with_read_pending 0 c1)) with 0.
    cbn [Z.eqb app concat]. rewrite app_nil_r.
    split; [reflexivity|]. split; [exact (Forall_cons_2 _ _ _ Hmsg (Forall_nil_2 _))|].
    left. reflexivity.
  - destruct (Hsound Hquiet) as (-> & Hf & Hp).
    unfold held. apply Z.eqb_neq in Hp. rewrite Hp.
    split; [reflexivity|]. split; [constructor|exact Hf].
Qed.

Lemma read_while_readable_dries (calls : nat) :
  forall c rx c' evs rx',
    read_while_readable calls c rx = Ok (c', evs, rx') -> rx_bytes rx' = [].
Proof.
  induction calls as [|calls IH]; intros c rx c' evs rx'; cbn [read_while_readable].
  - destruct (rx_bytes rx) eqn:Hrx; [|discriminate].
    intros [= <- <- <-]. exact Hrx.
  - destruct (rx_bytes rx) eqn:Hrx; [intros [= <- <- <-]; exact Hrx|].
    destruct (bgp_connection_read_action 2 c rx) as [[[c1 evs1] rx1]|];
      [|discriminate].
    cbn [mbind result_bind].
    destruct (read_while_readable calls c1 rx1) as [[[c2 evs2] rx2]|] eqn:Hrest;
      [|discriminate].
    cbn [mbind result_bind]. intros [= <- <- <-].
    exact (IH _ _ _ _ _ Hrest).
Qed.

Lemma dispatched_app evs evs' :
  dispatched (evs ++ evs') = dispatched evs ++ dispatched evs'.
Proof. apply flat_map_app. Qed.

Lemma read_while_readable_sound (calls : nat) :
  forall c rx c' evs rx',
    framing c ->
    read_while_readable calls c rx = Ok (c', evs, rx') ->
    existsb read_error evs = false ->
    held c ++ rx_bytes rx = concat (dispatched evs) ++ held c' /\
    Forall bgp_message (dispatched evs) /\
    framing c'.
Proof.
  induction calls as [|calls IH]; intros c rx c' evs rx' Hframing;
    cbn [read_while_readable].
  - destruct (rx_bytes rx) eqn:Hrx; [|discriminate].
    intros [= <- <- <-] _. rewrite app_nil_r. cbn. auto.
  - destruct (rx_bytes rx) eqn:Hrx.
    { intros [= <- <- <-] _. rewrite app_nil_r. cbn. auto. }
    rewrite <- Hrx. clear Hrx.
    destruct (bgp_connection_read_action 2 c rx) as [[[c1 evs1] rx1]|] eqn:Hcall;
      [|discriminate].
    cbn [mbind result_bind].
    destruct (read_while_readable calls c1 rx1) as [[[c2 evs2] rx2]|] eqn:Hrest;
      [|discriminate].
    cbn [mbind result_bind]. intros [= <- <- <-] Hquiet.
    rewrite existsb_app in Hquiet. apply orb_false_iff in Hquiet as [Hq1 Hq2].
    destruct (read_action_keeps_framing c rx c1 evs1 rx1 Hframing Hcall Hq1)
      as (Hbytes & Hmsgs & Hf1).
    destruct (IH c1 rx1 c2 evs2 rx2 Hf1 Hrest Hq2) as (Hbytes2 & Hmsgs2 & Hf2).
    rewrite dispatched_app, concat_app, Hbytes, Hbytes2, <- app_assoc.
    split; [reflexivity|]. split; [|exact Hf2].
    apply Forall_app. auto.
Qed.

(** The framer on any stream, however it is cut: as long as no error is
    raised, what it hands over are well-formed messages, and they are the
    stream, cut at the message boundaries, up to the part of the last
    message that it still holds. *)
Lemma feed_sound (chunks : list (list byte)) :
  forall c c' evs,
    framing c ->
    feed chunks c = Ok (c', evs) ->
    existsb read_error evs = false ->
    held c ++ concat chunks = concat (dispatched evs) ++ held c' /\
    Forall bgp_message (dispatched evs) /\
    framing c'.
Proof.
  induction chunks as [|chunk chunks IH]; intros c c' evs Hframing; cbn [feed].
  - intros [= <- <-] _. rewrite app_nil_r. cbn. auto.
  - destruct (read_while_readable _ c _) as [[[c1 evs1] rx1]|] eqn:Hdry;
      [|discriminate].
    cbn [mbind result_bind].
    destruct (feed chunks c1) as [[c2 evs2]|] eqn:Hrest; [|discriminate].
    cbn [mbind result_bind]. intros [= <- <-] Hquiet.
    rewrite existsb_app in Hquiet. apply orb_false_iff in Hquiet as [Hq1 Hq2].
    destruct (read_while_readable_sound _ _ _ _ _ _ Hframing Hdry Hq1)
      as (Hbytes & Hmsgs & Hf1).
    destruct (IH c1 c2 evs2 Hf1 Hrest Hq2) as (Hbytes2 & Hmsgs2 & Hf2).
    cbn [rx_bytes] in Hbytes.
    rewrite dispatched_app, !concat_app. cbn [concat].
    rewrite app_assoc, Hbytes, <- !app_assoc, Hbytes2.
    split; [reflexivity|]. split; [|exact Hf2].
    apply Forall_app. auto.
Qed.

(** The read action on a socket that has nothing to read. *)
Lemma read_action_at_end (c : bgp_connection) (e : rx_end) :
  exists c',
    bgp_connection_read_action 2 c (mk_rx [] e)
    = Ok (c', socket_end_events e, mk_rx [] e) /\
    s_bytes (ibuf c') = held c /\
    read_header c' = (if read_pending c =? 0 then true else read_header c) /\
    read_pending c'
    = match e with
      | Rx_would_block =>
          if read_pending c =? 0 then BGP_MH_HEAD_L else read_pending c
      | _ => read_pending c
      end.
Proof.
  unfold bgp_connection_read_action, held.
  destruct (read_pending c =? 0) eqn:Hp.
  - cbn [read_action_loop]. unfold stream_read_unblock.
    cbn [Z.eqb BGP_MH_HEAD_L rx_bytes rx_then].
    destruct e; cbn; eexists; (split; [reflexivity|]);
      apply Z.eqb_eq in Hp; destruct c; cbn in *; auto.
  - cbn [read_action_loop]. unfold stream_read_unblock. rewrite Hp.
    cbn [rx_bytes rx_then].
    destruct e; cbn.
    + rewrite Z.sub_0_r, Hp. cbn. eexists. split; [reflexivity|].
      destruct c; cbn in *; auto.
    + eexists. split; [reflexivity|]. destruct c; cbn in *; auto.
    + eexists. split; [reflexivity|]. destruct c; cbn in *; auto.
Qed.

End reading.

(** X20: the read action returns in every state of the connection and of the
    socket, and it moves bytes from the socket to the end of ibuf and does
    nothing else to them: what the connection held, followed by what the
    socket had, is what ibuf holds afterwards followed by what the socket
    still has.  A message that it hands over is all that ibuf holds then,
    and nothing is pending. *)
Theorem read_action_takes_in_order (c : bgp_connection) (rx : socket_rx) :
  exists c' evs rx',
    bgp_connection_read_action 2 c rx = Ok (c', evs, rx') /\
    held c ++ rx_bytes rx = s_bytes (ibuf c') ++ rx_bytes rx' /\
    rx_then rx' = rx_then rx /\
    (forall m, Msg_dispatch m ∈ evs ->
               m = s_bytes (ibuf c') /\ read_pending c' = 0).
Proof. apply read_action_moves. Qed.

(** X21: the framer on any stream of bytes, however it is cut into chunks:
    as long as no I/O error and no header error is raised, every message
    handed to the FSM is well-formed, and the messages handed over, in their
    order, followed by the part of a message still held, are the stream.
    [bgp_msg_check_header] and [stream_read_unblock] are modelled from the
    spec. *)
Theorem framer_sound (chunks : list (list byte)) (c c' : bgp_connection)
    (evs : list effect) :
  framing c ->
  feed chunks c = Ok (c', evs) ->
  existsb read_error evs = false ->
  held c ++ concat chunks = concat (dispatched evs) ++ held c' /\
  Forall bgp_message (dispatched evs) /\
  framing c'.
Proof. apply feed_sound. Qed.

(** A KEEPALIVE and the first five bytes of the next message arrive
    together, after three bytes of the KEEPALIVE on their own. *)
Lemma framer_sound_keepalive :
  exists c',
    feed [take 3 keepalive; drop 3 keepalive ++ take 5 keepalive]
      connection_open
    = Ok (c', [Msg_dispatch keepalive]) /\
    held c' = take 5 keepalive /\ framing c'.
Proof.
  set (chunks := [take 3 keepalive; drop 3 keepalive ++ take 5 keepalive]).
  set (c' := fst (the (connection_open, []) (feed chunks connection_open))).
  assert (Hfeed : feed chunks connection_open = Ok (c', [Msg_dispatch keepalive]))
    by (vm_compute; reflexivity).
  destruct (framer_sound chunks connection_open c' [Msg_dispatch keepalive])
    as (Hbytes & _ & Hframing).
  - left. reflexivity.
  - exact Hfeed.
  - reflexivity.
  - exists c'. split; [exact Hfeed|]. split; [|exact Hframing].
    vm_compute. reflexivity.
Defined.

(** X22: when there is nothing to read on the socket, the read action, in
    whatever state, hands nothing over and keeps what it holds: if the
    socket would block it waits for what is missing, a whole header when it
    was at rest; at the end of the stream it raises the I/O error with 0,
    and on an error of the socket the I/O error with its errno, and then
    leaves [read_pending] as it was. *)
Theorem read_action_reports_end (c : bgp_connection) (e : rx_end) :
  exists c',
    bgp_connection_read_action 2 c (mk_rx [] e)
    = Ok (c', socket_end_events e, mk_rx [] e) /\
    s_bytes (ibuf c') = held c /\
    read_header c' = (if read_pending c =? 0 then true else read_header c) /\
    read_pending c'
    = match e with
      | Rx_would_block =>
          if read_pending c =? 0 then BGP_MH_HEAD_L else read_pending c
      | _ => read_pending c
      end.
Proof. apply read_action_at_end. Qed.

(** ** Part close and what follows it *)

Section part_close_more.

Implicit Types (c : bgp_connection) (wb : bgp_wbuffer) (m n : list byte).

(** After the part close what waits in the write buffer is the rest of the
    message in flight, and there is room for a message behind it. *)
Lemma part_close_rest c (before after : list (list byte)) m (junk : list byte)
    (k : Z) (fuel : nat) :
  base (wbuff c) <> 0 ->
  limit (wbuff c) = base (wbuff c) + bgp_wbuff_size ->
  Z.of_nat (length (wb_mem (wbuff c))) = bgp_wbuff_size ->
  wb_mem (wbuff c) = concat (before ++ m :: after) ++ junk ->
  Forall whole_message (before ++ m :: after) ->
  p_in (wbuff c)
  = base (wbuff c) + Z.of_nat (length (concat (before ++ m :: after))) ->
  p_out (wbuff c) = base (wbuff c) + Z.of_nat (length (concat before)) + k ->
  0 <= k < Z.of_nat (length m) ->
  k = 0 \/ (length m <= length (concat before))%nat ->
  (length before < fuel)%nat ->
  exists evs c',
    bgp_connection_part_close fuel c = Ok (evs, c') /\
    s_bytes (obuf c') = [] /\
    pending (wbuff c') = (if k =? 0 then [] else drop (Z.to_nat k) m) /\
    wbuff_ok (wbuff c') /\
    forall len, len <= BGP_MAX_MSG_L -> room_for (wbuff c') len.
Proof.
  intros Hbase Hlim Hsz Hmem Hall Hin Hout Hk Hfar Hfuel.
  destruct (part_close_purge_spec (wbuff c) before after m junk k fuel
              Hlim Hsz Hmem Hall Hin Hout Hk Hfar Hfuel)
    as (wb' & Hpurge & Hbase' & Hlimit' & Hfull & Hlen' & Hptr).
  assert (Hm : Z.of_nat (length m) <= BGP_MAX_MSG_L).
  { apply Forall_app in Hall as [_ Hrest].
    apply Forall_cons in Hrest as [[_ Hm] _]. lia. }
  unfold bgp_connection_part_close. rewrite Hpurge. cbn [mbind result_bind].
  eexists _, _. split; [reflexivity|]. cbn [obuf wbuff stream_reset s_bytes].
  split; [reflexivity|].
  unfold bgp_wbuff_size, BGP_MAX_MSG_L in *.
  destruct (Z.eqb_spec k 0) as [-> | Hk0].
  - destruct Hptr as [Hpin Hpout].
    split; [apply pending_empty; congruence|]. split.
    + right. lia.
    + intros len Hlen. unfold room_for, bgp_write_buffer_empty.
      rewrite (proj2 (Z.eqb_eq _ _)) by congruence.
      rewrite (proj2 (Z.eqb_neq _ _)) by congruence. lia.
  - destruct Hptr as (Hpout & Hpin & Htake).
    split; [|split].
    + unfold pending. rewrite Hpout, Hpin, Hbase'.
      replace (Z.to_nat (base (wbuff c) + Z.of_nat (length m)
                         - (base (wbuff c) + k)))
        with (length m - Z.to_nat k)%nat by lia.
      replace (Z.to_nat (base (wbuff c) + k - base (wbuff c)))
        with (Z.to_nat k) by lia.
      rewrite take_drop_commute.
      replace (Z.to_nat k + (length m - Z.to_nat k))%nat with (length m) by lia.
      rewrite Htake. reflexivity.
    + right. lia.
    + intros len Hlen. unfold room_for, bgp_write_buffer_empty.
      rewrite (proj2 (Z.eqb_neq _ _)) by lia. lia.
Qed.

(** The purpose of the part close: whatever had been written when it was
    called, the NOTIFICATION that is written next goes out right behind the
    rest of the message in flight. *)
Lemma part_close_then_write c (before after : list (list byte)) m
    (junk : list byte) (k : Z) (fuel : nat) n (addr : Z)
    (answers : list sys_answer) :
  base (wbuff c) <> 0 ->
  limit (wbuff c) = base (wbuff c) + bgp_wbuff_size ->
  Z.of_nat (length (wb_mem (wbuff c))) = bgp_wbuff_size ->
  wb_mem (wbuff c) = concat (before ++ m :: after) ++ junk ->
  Forall whole_message (before ++ m :: after) ->
  p_in (wbuff c)
  = base (wbuff c) + Z.of_nat (length (concat (before ++ m :: after))) ->
  p_out (wbuff c) = base (wbuff c) + Z.of_nat (length (concat before)) + k ->
  0 <= k < Z.of_nat (length m) ->
  k = 0 \/ (length m <= length (concat before))%nat ->
  (length before < fuel)%nat ->
  Z.of_nat (length n) <= BGP_MAX_MSG_L -> addr <> 0 ->
  exists evs c' ret c'' evs' answers',
    bgp_connection_part_close fuel c = Ok (evs, c') /\
    bgp_connection_write (with_obuf_bytes n c') addr answers
    = Ok (ret, c'', evs', answers') /\
    sent evs' ++ pending (wbuff c'') ++ s_bytes (obuf c'')
    = (if k =? 0 then [] else drop (Z.to_nat k) m) ++ n /\
    (ret = -1 \/ s_bytes (obuf c'') = []).
Proof.
  intros Hbase Hlim Hsz Hmem Hall Hin Hout Hk Hfar Hfuel Hn Haddr.
  destruct (part_close_rest c before after m junk k fuel
              Hbase Hlim Hsz Hmem Hall Hin Hout Hk Hfar Hfuel)
    as (evs & c' & Hrun & _ & Hpending & Hok & Hroom).
  assert (Hwb : wbuff (with_obuf_bytes n c') = wbuff c')
    by (destruct c'; reflexivity).
  assert (Hob : s_bytes (obuf (with_obuf_bytes n c')) = n)
    by (destruct c'; reflexivity).
  destruct (write_accounts (with_obuf_bytes n c') addr answers)
    as (ret & c'' & evs' & answers' & Hwrite & Hbytes & Hret & _).
  - rewrite Hwb. exact Hok.
  - exact Haddr.
  - rewrite Hwb, Hob. apply Hroom. exact Hn.
  - exists evs, c', ret, c'', evs', answers'.
    split; [exact Hrun|]. split; [exact Hwrite|].
    rewrite Hwb, Hob, Hpending in Hbytes. split; [exact Hbytes|exact Hret].
Qed.

(** An empty write buffer is left as it is by the purge. *)
Lemma part_close_purge_empty wb (fuel : nat) :
  limit wb = base wb + bgp_wbuff_size ->
  full wb = false ->
  p_in wb = base wb -> p_out wb = base wb ->
  part_close_purge fuel wb = Ok wb.
Proof.
  intros Hlim Hfull Hin Hout. unfold part_close_purge.
  rewrite (proj2 (Z.eqb_eq (p_in wb) (p_out wb))) by congruence.
  cbn [negb mbind result_bind].
  destruct wb as [f b l pi po mem]. cbn in *. subst.
  unfold bgp_write_buffer_full. cbn.
  rewrite (proj2 (Z.ltb_ge _ _))
    by (unfold bgp_wbuff_size, BGP_MAX_MSG_L; lia).
  reflexivity.
Qed.

(** With the message in flight at [base] the purge copies it onto itself. *)
Lemma part_close_purge_in_place wb m (k : Z) (fuel : nat) :
  limit wb = base wb + bgp_wbuff_size ->
  Z.of_nat (length (wb_mem wb)) = bgp_wbuff_size ->
  (0 < fuel)%nat ->
  0 < k < Z.of_nat (length m) -> whole_message m ->
  p_out wb = base wb + k -> p_in wb = base wb + Z.of_nat (length m) ->
  take (length m) (wb_mem wb) = m ->
  part_close_purge fuel wb = Fault Overlap.
Proof.
  intros Hlim Hsz Hfuel Hk Hm Hout Hin Htake.
  assert (Hlen : limit wb - base wb = Z.of_nat (length (wb_mem wb))) by lia.
  pose proof Hm as [_ Hmlen].
  unfold bgp_wbuff_size in *. unfold BGP_MH_HEAD_L, BGP_MAX_MSG_L in *.
  assert (Hmem : wb_mem wb = [] ++ concat [] ++ m ++ drop (length m) (wb_mem wb)).
  { cbn [concat app]. rewrite <- Htake at 1. symmetry. apply take_drop. }
  unfold part_close_purge.
  rewrite (proj2 (Z.eqb_neq (p_in wb) (p_out wb))) by lia.
  cbn [negb].
  rewrite (part_close_scan_finds wb [] [] m (drop (length m) (wb_mem wb))
             (base wb) 0 k fuel Hlen Hmem (Forall_nil_2 _) Hm)
    by (cbn [length concat app]; lia).
  cbn [mbind result_bind length concat]. rewrite !Z.add_0_r.
  rewrite (proj2 (Z.eqb_neq (base wb) (p_out wb))) by lia.
  cbn [concat app] in Hmem.
  pose proof (memcpy_overlap wb [] m (drop (length m) (wb_mem wb)) Hlen Hmem)
    as Hcopy.
  cbn [length] in Hcopy. rewrite Z.add_0_r in Hcopy.
  rewrite Hcopy by lia. reflexivity.
Qed.

(** Part closing twice: at a message boundary the second part close leaves
    the connection as the first did; with a message in flight it copies the
    message onto itself. *)
Lemma part_close_again c (before after : list (list byte)) m (junk : list byte)
    (k : Z) (fuel : nat) :
  limit (wbuff c) = base (wbuff c) + bgp_wbuff_size ->
  Z.of_nat (length (wb_mem (wbuff c))) = bgp_wbuff_size ->
  wb_mem (wbuff c) = concat (before ++ m :: after) ++ junk ->
  Forall whole_message (before ++ m :: after) ->
  p_in (wbuff c)
  = base (wbuff c) + Z.of_nat (length (concat (before ++ m :: after))) ->
  p_out (wbuff c) = base (wbuff c) + Z.of_nat (length (concat before)) + k ->
  0 <= k < Z.of_nat (length m) ->
  k = 0 \/ (length m <= length (concat before))%nat ->
  (length before < fuel)%nat ->
  exists evs c',
    bgp_connection_part_close fuel c = Ok (evs, c') /\
    bgp_connection_part_close fuel c'
    = (if k =? 0 then Ok (evs, c') else Fault Overlap).
Proof.
  intros Hlim Hsz Hmem Hall Hin Hout Hk Hfar Hfuel.
  destruct (part_close_purge_spec (wbuff c) before after m junk k fuel
              Hlim Hsz Hmem Hall Hin Hout Hk Hfar Hfuel)
    as (wb' & Hpurge & Hbase' & Hlimit' & Hfull & Hlen' & Hptr).
  assert (Hm : whole_message m).
  { apply Forall_app in Hall as [_ Hrest].
    apply Forall_cons in Hrest as [Hm _]. exact Hm. }
  unfold bgp_connection_part_close at 1. rewrite Hpurge.
  cbn [mbind result_bind]. eexists _, _. split; [reflexivity|].
  unfold bgp_connection_part_close, qps_file_fd. cbn [wbuff].
  destruct (Z.eqb_spec k 0) as [-> | Hk0].
  - destruct Hptr as [Hpin Hpout].
    rewrite (part_close_purge_empty wb' fuel) by congruence.
    cbn [mbind result_bind qf].
    destruct (qf c) as [fd sel rd wr]. cbn [qf_fd].
    destruct (fd =? fd_undef) eqn:Hfd; cbn [negb qf_fd qps_disable_read];
      rewrite Hfd; reflexivity.
  - destruct Hptr as (Hpo & Hpi & Htake).
    rewrite (part_close_purge_in_place wb' m k fuel);
      [reflexivity|lia|lia|lia|lia|exact Hm|congruence|congruence|exact Htake].
Qed.

End part_close_more.

(** X23: the purpose of [bgp_connection_part_close]: with whole messages in
    the allocated write buffer and [k] bytes of one of them written, where
    nothing is in flight ([k = 0]) or the message in flight is not longer
    than what precedes it, so that the [memcpy] is between objects that do
    not overlap, the message that is written next, a NOTIFICATION of at most
    the maximum size, is accepted whatever the socket does, and it goes out
    right behind the rest of the message in flight: what is sent, then waits
    in the write buffer and is left in obuf is that rest followed by the
    NOTIFICATION, and nothing of the messages that had not been begun. *)
Theorem part_close_then_notification (c : bgp_connection)
    (before after : list (list byte)) (m junk : list byte) (k : Z) (fuel : nat)
    (n : list byte) (addr : Z) (answers : list sys_answer) :
  base (wbuff c) <> 0 ->
  limit (wbuff c) = base (wbuff c) + bgp_wbuff_size ->
  Z.of_nat (length (wb_mem (wbuff c))) = bgp_wbuff_size ->
  wb_mem (wbuff c) = concat (before ++ m :: after) ++ junk ->
  Forall whole_message (before ++ m :: after) ->
  p_in (wbuff c)
  = base (wbuff c) + Z.of_nat (length (concat (before ++ m :: after))) ->
  p_out (wbuff c) = base (wbuff c) + Z.of_nat (length (concat before)) + k ->
  0 <= k < Z.of_nat (length m) ->
  k = 0 \/ (length m <= length (concat before))%nat ->
  (length before < fuel)%nat ->
  Z.of_nat (length n) <= BGP_MAX_MSG_L -> addr <> 0 ->
  exists evs c' ret c'' evs' answers',
    bgp_connection_part_close fuel c = Ok (evs, c') /\
    bgp_connection_write (with_obuf_bytes n c') addr answers
    = Ok (ret, c'', evs', answers') /\
    sent evs' ++ pending (wbuff c'') ++ s_bytes (obuf c'')
    = (if k =? 0 then [] else drop (Z.to_nat k) m) ++ n /\
    (ret = -1 \/ s_bytes (obuf c'') = []).
Proof. apply part_close_then_write. Qed.

(** Messages of 300, 200 and 100 bytes with 350 bytes written, and then a
    NOTIFICATION while the socket is blocked: the last 150 bytes of the
    second message and the NOTIFICATION wait. *)
Lemma part_close_then_notification_reversed :
  exists evs c' ret c'' evs' answers',
    bgp_connection_part_close 2 reversed_connection = Ok (evs, c') /\
    bgp_connection_write (with_obuf_bytes notification_cease c') 8192 []
    = Ok (ret, c'', evs', answers') /\
    sent evs' ++ pending (wbuff c'') ++ s_bytes (obuf c'')
    = drop 50 (make_message 200 x02 x0b) ++ notification_cease.
Proof.
  destruct (part_close_then_notification reversed_connection
              [make_message 300 x02 x0c] [make_message 100 x02 x0a]
              (make_message 200 x02 x0b)
              (repeat x00 (Z.to_nat bgp_wbuff_size - length (concat s5_reversed)))
              50 2 notification_cease 8192 [])
    as (evs & c' & ret & c'' & evs' & answers' & Hrun & Hwrite & Hbytes & _).
  - discriminate.
  - reflexivity.
  - vm_compute. reflexivity.
  - reflexivity.
  - exact (Forall_cons_2 _ _ _ whole_make_message_300
             (Forall_cons_2 _ _ _ whole_make_message_200
                (Forall_cons_2 _ _ _ whole_make_message_100 (Forall_nil_2 _)))).
  - vm_compute. reflexivity.
  - vm_compute. reflexivity.
  - vm_compute. split; [discriminate | reflexivity].
  - right. vm_compute. lia.
  - simpl. lia.
  - vm_compute. discriminate.
  - discriminate.
  - exists evs, c', ret, c'', evs', answers'.
    split; [exact Hrun|]. split; [exact Hwrite|exact Hbytes].
Defined.

(** X24: part closing twice.  Under the conditions of X23 on the first part
    close, a second [bgp_connection_part_close] returns the connection as
    the first left it when nothing was in flight ([k = 0]); only the
    shutdown of the read side, if there is an fd, is done again.  When a
    message was in flight it is at [base] after the first part close, and
    the second calls [memcpy] with [base] as source and as destination,
    which C leaves undefined. *)
Theorem part_close_twice (c : bgp_connection)
    (before after : list (list byte)) (m junk : list byte) (k : Z) (fuel : nat) :
  limit (wbuff c) = base (wbuff c) + bgp_wbuff_size ->
  Z.of_nat (length (wb_mem (wbuff c))) = bgp_wbuff_size ->
  wb_mem (wbuff c) = concat (before ++ m :: after) ++ junk ->
  Forall whole_message (before ++ m :: after) ->
  p_in (wbuff c)
  = base (wbuff c) + Z.of_nat (length (concat (before ++ m :: after))) ->
  p_out (wbuff c) = base (wbuff c) + Z.of_nat (length (concat before)) + k ->
  0 <= k < Z.of_nat (length m) ->
  k = 0 \/ (length m <= length (concat before))%nat ->
  (length before < fuel)%nat ->
  exists evs c',
    bgp_connection_part_close fuel c = Ok (evs, c') /\
    bgp_connection_part_close fuel c'
    = (if k =? 0 then Ok (evs, c') else Fault Overlap).
Proof. apply part_close_again. Qed.

(** The messages of scenario S5 with the first written: the second and the
    third are dropped, and a second part close changes nothing. *)
Lemma part_close_twice_boundary :
  exists evs c',
    bgp_connection_part_close 2 boundary_connection = Ok (evs, c') /\
    bgp_connection_part_close 2 c' = Ok (evs, c').
Proof.
  apply (part_close_twice boundary_connection
           [make_message 100 x02 x0a] [make_message 300 x02 x0c]
           (make_message 200 x02 x0b)
           (repeat x00 (Z.to_nat bgp_wbuff_size - length (concat s5_messages)))
           0 2).
  - reflexivity.
  - vm_compute. reflexivity.
  - reflexivity.
  - exact (Forall_cons_2 _ _ _ whole_make_message_100
             (Forall_cons_2 _ _ _ whole_make_message_200
                (Forall_cons_2 _ _ _ whole_make_message_300 (Forall_nil_2 _)))).
  - vm_compute. reflexivity.
  - vm_compute. reflexivity.
  - vm_compute. split; [discriminate | reflexivity].
  - left. reflexivity.
  - simpl. lia.
Defined.
